(** * address_book.py: a contact directory with birthdays

    A shallow embedding of [src/address_book.py]: the field validators
    ([Phone.validate], [Birthday.validate]), the [Record] methods, the
    [AddressBook] with its upcoming-birthdays query, and the pickle based
    [save_data] / [load_data] pair.

    Python values are modelled as follows.
    - [str] is a list of Unicode code points ([Z]).
    - An exception is a value of [exn]; a call that may raise returns a
      [result].
    - A method that mutates [self] is a function from the object before the
      call to the outcome of the call paired with the object after it.
    - [datetime.date] is a record of year, month and day; the arithmetic is
      the one of CPython's [datetime] module (proleptic Gregorian ordinals).
    - [re] patterns are terms of [regex], run by a backtracking matcher that
      lists the matches in the order the [re] module tries them. *)

From Stdlib Require Import ZArith List Bool String Ascii Lia.
Import ListNotations.
Open Scope Z_scope.

(** ** Python values *)

(** A Python [str]: the sequence of its code points. *)
Definition str := list Z.

(** The [str] of an ASCII literal. *)
Definition lit (s : string) : str :=
  map (fun a => Z.of_N (N_of_ascii a)) (list_ascii_of_string s).

Definition str_eqb (a b : str) : bool :=
  if list_eq_dec Z.eq_dec a b then true else false.

(** The code point of an ASCII character. *)
Definition chr (a : ascii) : Z := Z.of_N (N_of_ascii a).

Definition b2z (b : bool) : Z := if b then 1 else 0.

(** The exceptions that the modelled code raises or lets through. *)
Inductive exn :=
| ValueError (msg : string)
| OverflowError (msg : string)
| FileNotFoundError
| PermissionError
| IsADirectoryError
| EOFError
| UnpicklingError
| OSError (errno : Z).

Inductive result (A : Type) :=
| Ok (a : A)
| Raise (e : exn).
Arguments Ok {A} a.
Arguments Raise {A} e.

Definition bind {A B} (m : result A) (k : A -> result B) : result B :=
  match m with
  | Ok a => k a
  | Raise e => Raise e
  end.

Notation "x <- m ;; k" := (bind m (fun x => k))
  (at level 61, m at next level, right associativity).

Definition raises {A} (m : result A) : Prop := exists e, m = Raise e.

(** ** The Unicode character database

    [\d] in a [str] pattern and [int()] both consult the interpreter's
    Unicode database: a code point of category Nd has a decimal value.  The
    table belongs to the interpreter, not to the program, so it is a
    parameter; the laws state what every version of it satisfies on ASCII. *)
Class UnicodeData := { decimal : Z -> option Z }.

Definition ascii_decimal (c : Z) : option Z :=
  if (48 <=? c) && (c <=? 57) then Some (c - 48) else None.

Class UnicodeLaws (U : UnicodeData) : Prop := {
  decimal_ascii : forall c, 0 <= c < 128 -> decimal c = ascii_decimal c;
  decimal_value : forall c v, decimal c = Some v -> 0 <= v <= 9
}.

(** An excerpt of the database: ten-digit blocks that are decimal digits in
    every Unicode version (ASCII, Arabic-Indic, Extended Arabic-Indic,
    Devanagari, Bengali, Thai, Fullwidth).  Each entry is the code point of
    the block's zero.  Used for the concrete examples. *)
Definition digit_blocks : list Z :=
  [48; 1632; 1776; 2406; 2534; 3664; 65296].

Definition excerpt_decimal (c : Z) : option Z :=
  match find (fun z => (z <=? c) && (c <=? z + 9)) digit_blocks with
  | Some z => Some (c - z)
  | None => None
  end.

#[export] Instance excerpt : UnicodeData := {| decimal := excerpt_decimal |}.

Section WithUnicode.
Context {U : UnicodeData}.

Definition is_decimal (c : Z) : bool :=
  match decimal c with Some _ => true | None => false end.

(** ** Regular expressions (the fragment the program uses) *)

Inductive regex :=
| Chr (c : Z)                   (* an escaped or plain character *)
| Range (lo hi : Z)             (* [lo-hi] *)
| Digit                         (* \d *)
| Eps                           (* the empty pattern *)
| Bol                           (* ^ *)
| Eol                           (* $ *)
| Cat (r1 r2 : regex)
| Alt (r1 r2 : regex)           (* r1|r2 *)
| Rep (n : nat) (r : regex)     (* r{n} *)
| Group (name : string) (r : regex).  (* (?P<name>r) *)

(** A matcher state: how many characters are consumed, what is left, and the
    named groups captured so far. *)
Record mstate := {
  pos : nat;
  rest : str;
  groups : list (string * str)
}.

Definition start (s : str) : mstate :=
  {| pos := 0; rest := s; groups := [] |}.

Definition step_if (p : Z -> bool) (st : mstate) : list mstate :=
  match rest st with
  | c :: t => if p c then [{| pos := S (pos st); rest := t; groups := groups st |}]
              else []
  | [] => []
  end.

Definition capture (name : string) (st st' : mstate) : mstate :=
  {| pos := pos st';
     rest := rest st';
     groups := (name, firstn (pos st' - pos st) (rest st)) :: groups st' |}.

(** All the ways [r] matches at [st], in the order a backtracking matcher
    reaches them. *)
Fixpoint exec (r : regex) (st : mstate) : list mstate :=
  match r with
  | Chr c => step_if (Z.eqb c) st
  | Range lo hi => step_if (fun x => (lo <=? x) && (x <=? hi)) st
  | Digit => step_if is_decimal st
  | Eps => [st]
  | Bol => match pos st with O => [st] | S _ => [] end
  | Eol => match rest st with
           | [] => [st]
           | [10] => [st]      (* $ also matches before a final newline *)
           | _ => []
           end
  | Cat r1 r2 => flat_map (exec r2) (exec r1 st)
  | Alt r1 r2 => exec r1 st ++ exec r2 st
  | Rep n r1 =>
      (fix rep (n : nat) (st : mstate) : list mstate :=
         match n with
         | O => [st]
         | S n' => flat_map (rep n') (exec r1 st)
         end) n st
  | Group name r1 => map (capture name st) (exec r1 st)
  end.

(** [re.match(pattern, s)]: the first match at the start of [s]. *)
Definition re_match (r : regex) (s : str) : option mstate :=
  hd_error (exec r (start s)).

Definition group (name : string) (st : mstate) : option str :=
  match find (fun g => String.eqb (fst g) name) (groups st) with
  | Some g => Some (snd g)
  | None => None
  end.

End WithUnicode.

(** ** Field, Name, Phone *)

Module Name.
Record t := mk { value : str }.
End Name.

Module Phone.
Record t := mk { value : str }.

(** The pattern r'^\d{10}$'. *)
Definition pattern : regex := Cat Bol (Cat (Rep 10 Digit) Eol).

Definition validate {U : UnicodeData} (value : str) : bool :=
  match re_match pattern value with
  | Some _ => true
  | None => false
  end.

(** [Phone(value)]: the constructor. *)
Definition new {U : UnicodeData} (value : str) : result t :=
  if negb (validate value)
  then Raise (ValueError "Phone number must be a string of 10 digits.")
  else Ok (mk value).
End Phone.

(** ** The [datetime] module: dates, ordinals, parsing and formatting *)

Module datetime.

Definition MINYEAR : Z := 1.
Definition MAXYEAR : Z := 9999.
Definition MAXORDINAL : Z := 3652059.

Definition DAYS_IN_MONTH (month : Z) : Z :=
  nth (Z.to_nat month) [-1; 31; 28; 31; 30; 31; 30; 31; 31; 30; 31; 30; 31] 0.

Definition DAYS_BEFORE_MONTH (month : Z) : Z :=
  nth (Z.to_nat month) [-1; 0; 31; 59; 90; 120; 151; 181; 212; 243; 273; 304; 334] 0.

Definition is_leap (year : Z) : bool :=
  (year mod 4 =? 0) && (negb (year mod 100 =? 0) || (year mod 400 =? 0)).

Definition days_before_year (year : Z) : Z :=
  let y := year - 1 in
  y * 365 + y / 4 - y / 100 + y / 400.

Definition days_in_month (year month : Z) : Z :=
  if (month =? 2) && is_leap year then 29 else DAYS_IN_MONTH month.

Definition days_before_month (year month : Z) : Z :=
  DAYS_BEFORE_MONTH month + b2z ((2 <? month) && is_leap year).

Definition ymd2ord (year month day : Z) : Z :=
  days_before_year year + days_before_month year month + day.

Definition DI400Y : Z := Eval cbv in days_before_year 401.
Definition DI100Y : Z := Eval cbv in days_before_year 101.
Definition DI4Y : Z := Eval cbv in days_before_year 5.

Definition ord2ymd (n : Z) : Z * Z * Z :=
  let n := n - 1 in
  let n400 := n / DI400Y in
  let n := n mod DI400Y in
  let year := n400 * 400 + 1 in
  let n100 := n / DI100Y in
  let n := n mod DI100Y in
  let n4 := n / DI4Y in
  let n := n mod DI4Y in
  let n1 := n / 365 in
  let n := n mod 365 in
  let year := year + (n100 * 100 + n4 * 4 + n1) in
  if (n1 =? 4) || (n100 =? 4) then (year - 1, 12, 31)
  else
    let leapyear := (n1 =? 3) && (negb (n4 =? 24) || (n100 =? 3)) in
    let month := Z.shiftr (n + 50) 5 in
    let preceding := DAYS_BEFORE_MONTH month + b2z ((2 <? month) && leapyear) in
    if n <? preceding then   (* estimate is too large *)
      let month := month - 1 in
      let preceding :=
        preceding - (DAYS_IN_MONTH month + b2z ((month =? 2) && leapyear)) in
      (year, month, n - preceding + 1)
    else (year, month, n - preceding + 1).

(** The second half of [ord2ymd] on its own: the month and day of the
    [n]-th day (from 0) of a year.  Used in the proofs only. *)
Definition month_day (leapyear : bool) (n : Z) : Z * Z :=
  let month := Z.shiftr (n + 50) 5 in
  let preceding := DAYS_BEFORE_MONTH month + b2z ((2 <? month) && leapyear) in
  if n <? preceding then
    let month := month - 1 in
    let preceding :=
      preceding - (DAYS_IN_MONTH month + b2z ((month =? 2) && leapyear)) in
    (month, n - preceding + 1)
  else (month, n - preceding + 1).

(** What a correct answer of [month_day] satisfies. *)
Definition month_day_ok (leapyear : bool) (n : Z) : bool :=
  let '(m, d) := month_day leapyear n in
  (1 <=? m) && (m <=? 12) && (1 <=? d)
  && (d <=? (if (m =? 2) && leapyear then 29 else DAYS_IN_MONTH m))
  && (DAYS_BEFORE_MONTH m + b2z ((2 <? m) && leapyear) + d =? n + 1).

(** A [datetime.date] object. *)
Record date := mkdate { year : Z; month : Z; day : Z }.

(** What the constructor checks: the invariant of every [date] object. *)
Definition check_date_fields (y m d : Z) : bool :=
  (MINYEAR <=? y) && (y <=? MAXYEAR) &&
  (1 <=? m) && (m <=? 12) &&
  (1 <=? d) && (d <=? days_in_month y m).

(** [date(year, month, day)] *)
Definition new (y m d : Z) : result date :=
  if negb ((MINYEAR <=? y) && (y <=? MAXYEAR))
  then Raise (ValueError "year is out of range")
  else if negb ((1 <=? m) && (m <=? 12))
  then Raise (ValueError "month must be in 1..12")
  else if negb ((1 <=? d) && (d <=? days_in_month y m))
  then Raise (ValueError "day is out of range for month")
  else Ok (mkdate y m d).

Definition valid (d : date) : Prop :=
  check_date_fields (year d) (month d) (day d) = true.

(** [d.replace(year=y)] *)
Definition replace_year (d : date) (y : Z) : result date :=
  new y (month d) (day d).

(** [a < b] *)
Definition ltb (a b : date) : bool :=
  (year a <? year b)
  || ((year a =? year b)
      && ((month a <? month b)
          || ((month a =? month b) && (day a <? day b)))).

Definition toordinal (d : date) : Z := ymd2ord (year d) (month d) (day d).

Definition fromordinal (n : Z) : result date :=
  let '(y, m, d) := ord2ymd n in new y m d.

(** [(a - b).days] *)
Definition sub_days (a b : date) : Z := toordinal a - toordinal b.

(** [d + timedelta(days=k)] *)
Definition add_days (d : date) (k : Z) : result date :=
  let o := toordinal d + k in
  if (0 <? o) && (o <=? MAXORDINAL) then fromordinal o
  else Raise (OverflowError "date value out of range").

(** Monday is 0, Sunday is 6. *)
Definition weekday (d : date) : Z := (toordinal d + 6) mod 7.

Definition digit_chr (v : Z) : Z := 48 + v.

(** [d.strftime("%d.%m.%Y")]: two, two and four zero-padded digits.  (For a
    year below 1000 some C libraries do not pad; no such year occurs in what
    follows, where the year is the current one or the next.) *)
Definition strftime_dmY (d : date) : str :=
  [digit_chr (day d / 10); digit_chr (day d mod 10); chr "."]
  ++ [digit_chr (month d / 10); digit_chr (month d mod 10); chr "."]
  ++ [digit_chr (year d / 1000); digit_chr (year d / 100 mod 10);
      digit_chr (year d / 10 mod 10); digit_chr (year d mod 10)].

(** *** Parsing: [_strptime]

    The format is turned into a pattern; a directive becomes a named group.
    Only the directives the program uses are listed.  (The pattern is
    compiled with IGNORECASE, which changes nothing for digits, dots and
    spaces.) *)

(** 'd': r"(?P<d>3[0-1]|[1-2]\d|0[1-9]|[1-9]| [1-9])" *)
Definition re_d : regex :=
  Group "d"
    (Alt (Cat (Chr (chr "3")) (Range (chr "0") (chr "1")))
    (Alt (Cat (Range (chr "1") (chr "2")) Digit)
    (Alt (Cat (Chr (chr "0")) (Range (chr "1") (chr "9")))
    (Alt (Range (chr "1") (chr "9"))
         (Cat (Chr (chr " ")) (Range (chr "1") (chr "9"))))))).

(** 'm': r"(?P<m>1[0-2]|0[1-9]|[1-9])" *)
Definition re_m : regex :=
  Group "m"
    (Alt (Cat (Chr (chr "1")) (Range (chr "0") (chr "2")))
    (Alt (Cat (Chr (chr "0")) (Range (chr "1") (chr "9")))
         (Range (chr "1") (chr "9")))).

(** 'Y': r"(?P<Y>\d\d\d\d)" *)
Definition re_Y : regex :=
  Group "Y" (Cat Digit (Cat Digit (Cat Digit Digit))).

Definition directive (c : Z) : option regex :=
  if c =? chr "d" then Some re_d
  else if c =? chr "m" then Some re_m
  else if c =? chr "Y" then Some re_Y
  else None.

(** [TimeRE.pattern]: a directive is replaced by its group, any other
    character stands for itself (escaped). *)
Fixpoint pattern (fmt : str) : option regex :=
  match fmt with
  | [] => Some Eps
  | c :: t =>
      if c =? chr "%" then
        match t with
        | [] => None
        | k :: t' =>
            match directive k, pattern t' with
            | Some r, Some p => Some (Cat r p)
            | _, _ => None
            end
        end
      else
        match pattern t with
        | Some p => Some (Cat (Chr c) p)
        | None => None
        end
  end.

(** ASCII white space, which [int()] strips. *)
Definition is_space (c : Z) : bool :=
  (c =? 32) || ((9 <=? c) && (c <=? 13)) || ((28 <=? c) && (c <=? 31)).

Fixpoint lstrip (s : str) : str :=
  match s with
  | c :: t => if is_space c then lstrip t else s
  | [] => []
  end.

Definition strip (s : str) : str := rev (lstrip (rev (lstrip s))).

Fixpoint digits_value {U : UnicodeData} (acc : Z) (s : str) : option Z :=
  match s with
  | [] => Some acc
  | c :: t =>
      match decimal c with
      | Some v => digits_value (10 * acc + v) t
      | None => None
      end
  end.

(** [int(s)] on the text of a group: surrounding white space is stripped
    and every remaining character must be a decimal digit.  (Signs and
    underscores, which [int] also reads, cannot occur in a group.) *)
Definition int {U : UnicodeData} (s : str) : result Z :=
  match strip s with
  | [] => Raise (ValueError "invalid literal for int() with base 10")
  | t =>
      match digits_value 0 t with
      | Some v => Ok v
      | None => Raise (ValueError "invalid literal for int() with base 10")
      end
  end.

Definition group_int {U : UnicodeData}
    (name : string) (default : Z) (found : mstate) : result Z :=
  match group name found with
  | Some text => int text
  | None => Ok default
  end.

(** [datetime.strptime(data_string, format).date()] *)
Definition strptime {U : UnicodeData} (data_string format : str) : result date :=
  match pattern format with
  | None => Raise (ValueError "bad directive in format")
  | Some format_regex =>
      match re_match format_regex data_string with
      | None => Raise (ValueError "time data does not match format")
      | Some found =>
          if negb (Nat.eqb (List.length data_string) (pos found))
          then Raise (ValueError "unconverted data remains")
          else
            y <- group_int "Y" 1900 found ;;
            m <- group_int "m" 1 found ;;
            d <- group_int "d" 1 found ;;
            new y m d
      end
  end.

End datetime.

(** ** Birthday *)

Module Birthday.
Record t := mk { value : str }.

Definition FORMAT : str := lit "%d.%m.%Y".

Definition validate {U : UnicodeData} (value : str) : result bool :=
  match datetime.strptime value FORMAT with
  | Ok _ => Ok true
  | Raise (ValueError _) => Ok false
  | Raise e => Raise e
  end.

(** [Birthday(value)]: the constructor. *)
Definition new {U : UnicodeData} (value : str) : result t :=
  ok <- validate value ;;
  if negb ok
  then Raise (ValueError "Invalid date format. Use DD.MM.YYYY")
  else Ok (mk value).
End Birthday.

(** ** Record

    A method takes the object before the call and returns what the call
    returns or raises, together with the object after the call. *)

Definition method (S A : Type) : Type := S -> result A * S.

Definition mreturn {S A} (a : A) : method S A := fun self => (Ok a, self).

Definition mraise {S A} (e : exn) : method S A := fun self => (Raise e, self).

Definition mbind {S A B} (m : method S A) (k : A -> method S B) : method S B :=
  fun self =>
    match m self with
    | (Ok a, self') => k a self'
    | (Raise e, self') => (Raise e, self')
    end.

Notation "m1 ;;; m2" := (mbind m1 (fun _ => m2))
  (at level 62, right associativity).

(** [l.remove(x)]: drops the first element equal to [x]. *)
Fixpoint list_remove {A} (eqb : A -> A -> bool) (x : A) (l : list A)
  : result (list A) :=
  match l with
  | [] => Raise (ValueError "list.remove(x): x not in list")
  | y :: t =>
      if eqb y x then Ok t
      else t' <- list_remove eqb x t ;; Ok (y :: t')
  end.

Module Record_.
Record t := mk {
  name : Name.t;
  phones : list Phone.t;
  birthday : option Birthday.t
}.

Definition new (name : str) : t :=
  {| name := Name.mk name; phones := []; birthday := None |}.

Definition set_phones (l : list Phone.t) (self : t) : t :=
  {| name := name self; phones := l; birthday := birthday self |}.

Definition set_birthday (b : option Birthday.t) (self : t) : t :=
  {| name := name self; phones := phones self; birthday := b |}.

Definition add_phone {U : UnicodeData} (phone_number : str) : method t unit :=
  fun self =>
    match Phone.new phone_number with
    | Raise e => (Raise e, self)
    | Ok phone => (Ok tt, set_phones (phones self ++ [phone]) self)
    end.

Definition find_phone (phone_number : str) (self : t) : option Phone.t :=
  find (fun phone => str_eqb (Phone.value phone) phone_number) (phones self).

(** Phone objects define no equality of their own, so [list.remove] looks
    for the very object [find_phone] returned.  Objects of one list are told
    apart by position here; the first one that is the found object is the
    first one that carries its value. *)
Definition same_phone (a b : Phone.t) : bool :=
  str_eqb (Phone.value a) (Phone.value b).

Definition remove_phone (phone_number : str) : method t unit :=
  fun self =>
    match find_phone phone_number self with
    | Some phone =>
        match list_remove same_phone phone (phones self) with
        | Ok l => (Ok tt, set_phones l self)
        | Raise e => (Raise e, self)
        end
    | None => (Raise (ValueError "Phone number not found."), self)
    end.

Definition edit_phone {U : UnicodeData} (old_phone new_phone : str)
  : method t unit :=
  fun self =>
    if negb (Phone.validate new_phone)
    then (Raise (ValueError "New phone number must be a string of 10 digits."),
          self)
    else
      match find_phone old_phone self with
      | Some _ => (remove_phone old_phone ;;; add_phone new_phone) self
      | None => (Raise (ValueError "Old phone number not found."), self)
      end.

Definition add_birthday {U : UnicodeData} (birthday : str) : method t unit :=
  fun self =>
    match Birthday.new birthday with
    | Raise e => (Raise e, self)
    | Ok b => (Ok tt, set_birthday (Some b) self)
    end.
End Record_.

(** ** AddressBook *)

(** One element of the list [get_upcoming_birthdays] returns. *)
Record entry := mkentry { entry_name : str; congratulate_on : str }.

Module AddressBook.

(** [UserDict.data]: a dict, which keeps its keys in insertion order. *)
Definition t := list (str * Record_.t).

Definition empty : t := [].

(** [data[key] = value]: an existing key keeps its place. *)
Fixpoint setitem (key : str) (value : Record_.t) (data : t) : t :=
  match data with
  | [] => [(key, value)]
  | (k, v) :: data' =>
      if str_eqb k key then (k, value) :: data'
      else (k, v) :: setitem key value data'
  end.

Definition get (key : str) (data : t) : option Record_.t :=
  match find (fun kv => str_eqb (fst kv) key) data with
  | Some kv => Some (snd kv)
  | None => None
  end.

Definition keys (data : t) : list str := map fst data.

Definition values (data : t) : list Record_.t := map snd data.

Definition add_record (record : Record_.t) (self : t) : t :=
  setitem (Name.value (Record_.name record)) record self.

(** The body of the loop of [get_upcoming_birthdays] for one record: the
    entries it appends. *)
Definition upcoming {U : UnicodeData}
    (today : datetime.date) (record : Record_.t) : result (list entry) :=
  match Record_.birthday record with
  | None => Ok []
  | Some b =>
      bday <- datetime.strptime (Birthday.value b) Birthday.FORMAT ;;
      bday_this_year <- datetime.replace_year bday (datetime.year today) ;;
      bday_this_year <-
        (if datetime.ltb bday_this_year today
         then datetime.replace_year bday_this_year (datetime.year today + 1)
         else Ok bday_this_year) ;;
      let delta := datetime.sub_days bday_this_year today in
      if (0 <=? delta) && (delta <? 7) then
        greeting_day <-
          (let wd := datetime.weekday bday_this_year in
           if (wd =? 5) || (wd =? 6)
           then datetime.add_days bday_this_year (7 - wd)
           else Ok bday_this_year) ;;
        Ok [{| entry_name := Name.value (Record_.name record);
               congratulate_on := datetime.strftime_dmY greeting_day |}]
      else Ok []
  end.

Fixpoint upcoming_loop {U : UnicodeData} (today : datetime.date)
    (records : list Record_.t) (upcoming_birthdays : list entry)
  : result (list entry) :=
  match records with
  | [] => Ok upcoming_birthdays
  | record :: records' =>
      es <- upcoming today record ;;
      upcoming_loop today records' (upcoming_birthdays ++ es)
  end.

(** [today] stands for [datetime.now().date()]. *)
Definition get_upcoming_birthdays {U : UnicodeData}
    (today : datetime.date) (self : t) : result (list entry) :=
  upcoming_loop today (values self) [].

End AddressBook.

(** ** Persistence *)

Definition bytes := list Z.

(** What a file-system entry is. *)
Inductive node :=
| File (readable writable : bool) (content : bytes)
| Directory.

(** A place in the file system.  A path leads to one place, and several
    paths (a relative and an absolute one, a link) can lead to the same. *)
Inductive place := Place (canonical_path : str).

Definition place_eqb (a b : place) : bool :=
  match a, b with
  | Place x, Place y => str_eqb x y
  end.

(** The file system: where a path leads, what is at a place, for a path
    that leads to a place with nothing at it the error (if any) that
    creating a file there meets, and for a file the error (if any) that
    writing to it meets, with the number of bytes that get through before
    it. *)
Record filesystem := {
  locate : str -> place;
  node_at : place -> option node;
  create_error : str -> option exn;
  write_error : place -> option (nat * exn)
}.

(** [open(filename, "rb")] followed by reading the whole file. *)
Definition open_rb (filename : str) (fs : filesystem) : result bytes :=
  match node_at fs (locate fs filename) with
  | None => Raise FileNotFoundError
  | Some Directory => Raise IsADirectoryError
  | Some (File r _ content) => if r then Ok content else Raise PermissionError
  end.

(** The file system with [n] at the place [f]. *)
Definition write_file (f : place) (n : node) (fs : filesystem)
  : filesystem :=
  {| locate := locate fs;
     node_at := fun p => if place_eqb p f then Some n else node_at fs p;
     create_error := create_error fs;
     write_error := write_error fs |}.

(** [open(filename, "wb")]: a file that exists is cut to length zero, a
    file that does not is created, and this is done when [open] returns.
    The result is the place of the open file. *)
Definition open_wb (filename : str) (fs : filesystem)
  : result place * filesystem :=
  let f := locate fs filename in
  match node_at fs f with
  | None =>
      match create_error fs filename with
      | Some e => (Raise e, fs)
      | None => (Ok f, write_file f (File true true []) fs)
      end
  | Some Directory => (Raise IsADirectoryError, fs)
  | Some (File r w _) =>
      if w then (Ok f, write_file f (File r w []) fs)
      else (Raise PermissionError, fs)
  end.

(** Writing [data] to the open file at [f], up to and including the
    [close] at the end of the [with] block: all of [data] reaches the file,
    or an error stops the writing when only a beginning of it has.  ([open]
    has put a file at [f]; where there is none, nothing can be seen of the
    writing.) *)
Definition write_and_close (f : place) (data : bytes) (fs : filesystem)
  : result unit * filesystem :=
  match node_at fs f with
  | Some (File r w written) =>
      match write_error fs f with
      | Some (n, e) =>
          if (n <? List.length data)%nat
          then (Raise e, write_file f (File r w (written ++ firstn n data)) fs)
          else (Ok tt, write_file f (File r w (written ++ data)) fs)
      | None => (Ok tt, write_file f (File r w (written ++ data)) fs)
      end
  | _ => (Ok tt, fs)
  end.

(** The [pickle] module, as far as the program relies on it. *)
Class Pickle := {
  dumps : AddressBook.t -> bytes;
  loads : bytes -> result AddressBook.t
}.

Class PickleLaws (P : Pickle) : Prop := {
  loads_dumps : forall book, loads (dumps book) = Ok book
}.

(** The default of the [filename] parameter of both functions. *)
Definition DEFAULT_FILENAME : str := lit "addressbook.pkl".

(** [pickle.dump(book, f)] and the end of the [with] block. *)
Definition dump {P : Pickle} (book : AddressBook.t) (f : place)
  : method filesystem unit :=
  write_and_close f (dumps book).

Definition save_data {P : Pickle} (book : AddressBook.t) (filename : str)
  : method filesystem unit :=
  fun fs =>
    match open_wb filename fs with
    | (Ok f, fs) => dump book f fs
    | (Raise e, fs) => (Raise e, fs)
    end.

Definition load_data {P : Pickle} (filename : str) (fs : filesystem)
  : result AddressBook.t :=
  match (content <- open_rb filename fs ;; loads content) with
  | Ok book => Ok book
  | Raise FileNotFoundError => Ok AddressBook.empty
  | Raise e => Raise e
  end.

(** ** Auxiliary definitions for the statements and proofs

    The shapes of text the directives accept, written out. *)

Definition digit19 (c : Z) : bool := (49 <=? c) && (c <=? 57).

Definition day_text {U : UnicodeData} (t : str) : bool :=
  match t with
  | [a] => digit19 a
  | [a; b] =>
      ((a =? 51) && ((48 <=? b) && (b <=? 49)))
      || ((49 <=? a) && (a <=? 50) && is_decimal b)
      || ((a =? 48) && digit19 b)
      || ((a =? 32) && digit19 b)
  | _ => false
  end.

Definition month_text (t : str) : bool :=
  match t with
  | [a] => digit19 a
  | [a; b] =>
      ((a =? 49) && ((48 <=? b) && (b <=? 50)))
      || ((a =? 48) && digit19 b)
  | _ => false
  end.

Definition year_text {U : UnicodeData} (t : str) : bool :=
  (List.length t =? 4)%nat && forallb is_decimal t.

(** [captured name st w st']: from [st] the group [name] consumed [w] and left
    [st']. *)
Definition captured (name : string) (st : mstate) (w : str) (st' : mstate) : Prop :=
  rest st = w ++ rest st'
  /\ pos st' = (pos st + List.length w)%nat
  /\ groups st' = (name, w) :: groups st.

Definition consumed (st : mstate) (w : str) (st' : mstate) : Prop :=
  rest st = w ++ rest st'
  /\ pos st' = (pos st + List.length w)%nat
  /\ groups st' = groups st.

(** The pattern of "%d.%m.%Y". *)
Definition format_regex : regex :=
  Cat datetime.re_d (Cat (Chr 46) (Cat datetime.re_m
    (Cat (Chr 46) (Cat datetime.re_Y Eps)))).

(** The text of a date: day, dot, month, dot, year. *)
Definition dmy_text (dt mt yt : str) : str := dt ++ 46 :: mt ++ 46 :: yt.

Definition found_state (st : mstate) (dt mt yt : str) (st' : mstate) : Prop :=
  rest st = dmy_text dt mt yt ++ rest st'
  /\ pos st' = (pos st + List.length (dmy_text dt mt yt))%nat
  /\ groups st' = ("Y"%string, yt) :: ("m"%string, mt) :: ("d"%string, dt) :: groups st.

(** Following the words of the specification: [remove_phone] "removes the
    first/only match" of a number. *)
Fixpoint remove_first (number : str) (l : list Phone.t) : list Phone.t :=
  match l with
  | [] => []
  | p :: t => if str_eqb (Phone.value p) number then t else p :: remove_first number t
  end.

(** Following the words of the specification: the birthday's month and day
    placed in a year, and the occurrence the query looks at: the one of the
    current year, or of the next year when that one is strictly before today. *)
Definition placed (bday : datetime.date) (year : Z) : datetime.date :=
  datetime.mkdate year (datetime.month bday) (datetime.day bday).

Definition next_birthday (today bday : datetime.date) : datetime.date :=
  if datetime.ltb (placed bday (datetime.year today)) today
  then placed bday (datetime.year today + 1)
  else placed bday (datetime.year today).

(** Saturday is 5 and Sunday is 6. *)
Definition is_weekend (d : datetime.date) : bool :=
  (datetime.weekday d =? 5) || (datetime.weekday d =? 6).

(** The weekend rollover of [AddressBook.upcoming], on its own. *)
Definition rollover (d : datetime.date) : result datetime.date :=
  if is_weekend d then datetime.add_days d (7 - datetime.weekday d) else Ok d.

(** Following the words of the specification: a number written with
    [width] decimal digits, zero-padded, and a date written as DD.MM.YYYY
    (48 is the digit zero, 46 the dot). *)
Fixpoint zero_padded (width : nat) (n : Z) : str :=
  match width with
  | O => []
  | S width' => zero_padded width' (n / 10) ++ [48 + n mod 10]
  end.

Definition DD_MM_YYYY (d : datetime.date) : str :=
  zero_padded 2 (datetime.day d) ++ [46]
  ++ zero_padded 2 (datetime.month d) ++ [46]
  ++ zero_padded 4 (datetime.year d).

(** A book as [add_record] builds it: distinct keys, each the name of its
    record. *)
Definition well_keyed (book : AddressBook.t) : Prop :=
  NoDup (AddressBook.keys book)
  /\ forall key record, In (key, record) book ->
       key = Name.value (Record_.name record).

(** ** Sample data for the examples *)

Definition alice : Record_.t :=
  {| Record_.name := Name.mk (lit "Alice");
     Record_.phones := [Phone.mk (lit "0671112233")];
     Record_.birthday := Some (Birthday.mk (lit "01.01.1990")) |}.

Definition bob : Record_.t :=
  {| Record_.name := Name.mk (lit "Bob");
     Record_.phones := [Phone.mk (lit "0501234567"); Phone.mk (lit "0679876543")];
     Record_.birthday := Some (Birthday.mk (lit "29.02.2000")) |}.

Definition bob2 : Record_.t :=
  {| Record_.name := Name.mk (lit "Bob");
     Record_.phones := [Phone.mk (lit "0930000000")];
     Record_.birthday := None |}.

Definition carol : Record_.t :=
  {| Record_.name := Name.mk (lit "Carol");
     Record_.phones := [];
     Record_.birthday := Some (Birthday.mk (lit "15.06.1985")) |}.

Definition sample_book : AddressBook.t :=
  AddressBook.add_record carol
    (AddressBook.add_record bob2 (AddressBook.add_record alice [])).

(** Paths as a working directory resolves them: [./name] leads where
    [name] leads. *)
Definition sample_locate (path : str) : place :=
  match path with
  | 46 :: 47 :: rest => Place rest
  | _ => Place path
  end.

(** A file system with a directory, a file that is no pickle, a file that
    may not be read, and nothing else. *)
Definition sample_fs : filesystem :=
  {| locate := sample_locate;
     node_at := fun f =>
       match f with
       | Place p =>
           if str_eqb p (lit "backup") then Some Directory
           else if str_eqb p (lit "notes.txt") then Some (File true true [7])
           else if str_eqb p (lit "locked.pkl") then Some (File false true [])
           else None
       end;
     create_error := fun _ => None;
     write_error := fun _ => None |}.


(** ** A concrete pickle: length-prefixed fields

    Any serializer with [loads (dumps b) = Ok b] will do for the program; this
    one writes every string and list behind its length. *)

Definition enc_str (s : str) : bytes := Z.of_nat (List.length s) :: s.

Definition dec_str (b : bytes) : option (str * bytes) :=
  match b with
  | [] => None
  | n :: t =>
      if (0 <=? n) && (Z.to_nat n <=? List.length t)%nat
      then Some (firstn (Z.to_nat n) t, skipn (Z.to_nat n) t)
      else None
  end.

Definition enc_phones (l : list Phone.t) : bytes :=
  Z.of_nat (List.length l) :: flat_map (fun p => enc_str (Phone.value p)) l.

Fixpoint dec_items {A} (dec : bytes -> option (A * bytes)) (n : nat) (b : bytes)
  : option (list A * bytes) :=
  match n with
  | O => Some ([], b)
  | S n' =>
      match dec b with
      | None => None
      | Some (x, b') =>
          match dec_items dec n' b' with
          | None => None
          | Some (xs, b'') => Some (x :: xs, b'')
          end
      end
  end.

Definition dec_count {A} (dec : bytes -> option (A * bytes)) (b : bytes)
  : option (list A * bytes) :=
  match b with
  | [] => None
  | n :: t => if 0 <=? n then dec_items dec (Z.to_nat n) t else None
  end.

Definition dec_phone (b : bytes) : option (Phone.t * bytes) :=
  match dec_str b with
  | Some (s, b') => Some (Phone.mk s, b')
  | None => None
  end.

Definition enc_birthday (o : option Birthday.t) : bytes :=
  match o with
  | None => [0]
  | Some bd => 1 :: enc_str (Birthday.value bd)
  end.

Definition dec_birthday (b : bytes) : option (option Birthday.t * bytes) :=
  match b with
  | 0 :: t => Some (None, t)
  | 1 :: t =>
      match dec_str t with
      | Some (s, t') => Some (Some (Birthday.mk s), t')
      | None => None
      end
  | _ => None
  end.

Definition enc_record (r : Record_.t) : bytes :=
  enc_str (Name.value (Record_.name r))
  ++ enc_phones (Record_.phones r)
  ++ enc_birthday (Record_.birthday r).

Definition dec_record (b : bytes) : option (Record_.t * bytes) :=
  match dec_str b with
  | None => None
  | Some (n, b1) =>
      match dec_count dec_phone b1 with
      | None => None
      | Some (ps, b2) =>
          match dec_birthday b2 with
          | None => None
          | Some (bd, b3) => Some (Record_.mk (Name.mk n) ps bd, b3)
          end
      end
  end.

Definition enc_item (kv : str * Record_.t) : bytes :=
  enc_str (fst kv) ++ enc_record (snd kv).

Definition dec_item (b : bytes) : option ((str * Record_.t) * bytes) :=
  match dec_str b with
  | None => None
  | Some (k, b1) =>
      match dec_record b1 with
      | None => None
      | Some (r, b2) => Some ((k, r), b2)
      end
  end.

#[export] Instance prefixed_pickle : Pickle := {|
  dumps := fun book => Z.of_nat (List.length book) :: flat_map enc_item book;
  loads := fun b =>
    match dec_count dec_item b with
    | Some (book, []) => Ok book
    | _ => Raise UnpicklingError
    end
|}.

(** ** A stream that calls a function

    Python's unpickler runs the calls that a stream asks for.  This stream
    (protocol 0: GLOBAL [builtins open], MARK, UNICODE, TUPLE, REDUCE, STOP)
    asks for [open("no-such-file")]. *)
Definition open_call_stream : bytes :=
  lit "cbuiltins" ++ [10] ++ lit "open" ++ [10]
  ++ lit "(Vno-such-file" ++ [10] ++ lit "tR.".

(** The pickle above where nothing is at [no-such-file]: loading that
    stream raises what the call of [open] raises. *)
Definition calling_pickle : Pickle := {|
  dumps := @dumps prefixed_pickle;
  loads := fun b =>
    if str_eqb b open_call_stream then Raise FileNotFoundError
    else @loads prefixed_pickle b
|}.

(** The sample file system with that stream in the default file. *)
Definition crafted_fs : filesystem :=
  write_file (locate sample_fs DEFAULT_FILENAME)
    (File true true open_call_stream) sample_fs.

(** ** Further definitions: sequences of calls, counting, rendering *)

(** The calls a client can make on a [Record]. *)
Inductive record_call :=
| CallAddPhone (phone_number : str)
| CallRemovePhone (phone_number : str)
| CallEditPhone (old_phone new_phone : str)
| CallAddBirthday (birthday : str).

Definition do_call {U : UnicodeData} (c : record_call) : method Record_.t unit :=
  match c with
  | CallAddPhone n => Record_.add_phone n
  | CallRemovePhone n => Record_.remove_phone n
  | CallEditPhone o n => Record_.edit_phone o n
  | CallAddBirthday d => Record_.add_birthday d
  end.

(** The record after a sequence of calls, whether they returned or raised. *)
Definition after_calls {U : UnicodeData} (cs : list record_call)
    (self : Record_.t) : Record_.t :=
  fold_left (fun r c => snd (do_call c r)) cs self.

(** Every stored phone passes the phone validator and the birthday, if
    set, passes the birthday validator. *)
Definition fields_valid {U : UnicodeData} (r : Record_.t) : Prop :=
  Forall (fun p => Phone.validate (Phone.value p) = true) (Record_.phones r)
  /\ match Record_.birthday r with
     | None => True
     | Some b => Birthday.validate (Birthday.value b) = Ok true
     end.

(** How many of the phones carry a number. *)
Definition count_phone (number : str) (l : list Phone.t) : nat :=
  List.length (filter (fun p => str_eqb (Phone.value p) number) l).

(** [a] is [b] with some elements left out. *)
Inductive subseq {A : Type} : list A -> list A -> Prop :=
| subseq_nil : subseq [] []
| subseq_skip x a b : subseq a b -> subseq a (x :: b)
| subseq_keep x a b : subseq a b -> subseq (x :: a) (x :: b).

(** Records that differ at most in the year of the birthday. *)
Definition same_day {U : UnicodeData} (r r' : Record_.t) : Prop :=
  Record_.name r = Record_.name r'
  /\ match Record_.birthday r, Record_.birthday r' with
     | None, None => True
     | Some b, Some b' =>
         exists d d',
           datetime.strptime (Birthday.value b) Birthday.FORMAT = Ok d
           /\ datetime.strptime (Birthday.value b') Birthday.FORMAT = Ok d'
           /\ datetime.month d = datetime.month d'
           /\ datetime.day d = datetime.day d'
     | _, _ => False
     end.

(** Whether one of the phones carries the number. *)
Definition stores (number : str) (l : list Phone.t) : bool :=
  existsb (fun p => str_eqb (Phone.value p) number) l.

(** ** Rendering *)

(** [sep.join(texts)] *)
Fixpoint join (sep : str) (texts : list str) : str :=
  match texts with
  | [] => []
  | [t] => t
  | t :: rest => t ++ sep ++ join sep rest
  end.

(** [Record.__str__] *)
Definition Record_str (self : Record_.t) : str :=
  let phones :=
    match join (lit ", ") (map Phone.value (Record_.phones self)) with
    | [] => lit "No phones"
    | text => text
    end in
  let birthday :=
    match Record_.birthday self with
    | Some b => Birthday.value b
    | None => lit "No birthday"
    end in
  lit "Name: " ++ Name.value (Record_.name self) ++ lit ", Phones: " ++ phones
  ++ lit ", Birthday: " ++ birthday.

(** ** The command handlers

    A handler looks a record up in the book and then changes that very
    object, so here the Record objects live in a store, by address, and the
    book's dict maps a name to the address of its record. *)

Definition addr := nat.

Record store := {
  next : addr;                  (* the address the next new object gets *)
  objects : addr -> Record_.t;  (* the Record objects *)
  data : list (str * addr)      (* [book.data] *)
}.

Definition empty_store : store :=
  {| next := 0%nat; objects := fun _ => Record_.new []; data := [] |}.

(** The book as a value: each address replaced by the object at it. *)
Definition book_of (s : store) : AddressBook.t :=
  map (fun ka => (fst ka, objects s (snd ka))) (data s).

(** [data[key] = a] and [data.get(key)] on addresses. *)
Fixpoint dict_set (key : str) (a : addr) (d : list (str * addr))
  : list (str * addr) :=
  match d with
  | [] => [(key, a)]
  | (k, v) :: d' =>
      if str_eqb k key then (k, a) :: d' else (k, v) :: dict_set key a d'
  end.

Definition dict_get (key : str) (d : list (str * addr)) : option addr :=
  match find (fun kv => str_eqb (fst kv) key) d with
  | Some kv => Some (snd kv)
  | None => None
  end.

(** [Record(name)]: a new object. *)
Definition new_record (name : str) (s : store) : addr * store :=
  (next s,
   {| next := S (next s);
      objects := fun a => if Nat.eqb a (next s) then Record_.new name
                          else objects s a;
      data := data s |}).

(** [book.add_record(record)] for the object at [a]. *)
Definition add_record_at (a : addr) (s : store) : store :=
  {| next := next s;
     objects := objects s;
     data := dict_set (Name.value (Record_.name (objects s a))) a (data s) |}.

(** A method call on the object at [a]. *)
Definition call {A} (a : addr) (m : method Record_.t A) (s : store)
  : result A * store :=
  let '(outcome, r) := m (objects s a) in
  (outcome,
   {| next := next s;
      objects := fun x => if Nat.eqb x a then r else objects s x;
      data := data s |}).

(** What a handler may raise: the exceptions of the core, and the two the
    handlers raise themselves. *)
Inductive raised :=
| Core (e : exn)
| KeyError
| IndexError.

Inductive reply :=
| Return (text : str)
| Throw (e : raised).

Definition handler : Type := list str -> store -> reply * store.

(** The decorator. *)
Definition input_error (func : handler) : handler :=
  fun args s =>
    match func args s with
    | (Throw (Core (ValueError msg)), s') => (Return (lit msg), s')
    | (Throw KeyError, s') => (Return (lit "Contact not found."), s')
    | (Throw IndexError, s') => (Return (lit "Not enough arguments."), s')
    | other => other
    end.

(** The [ValueError] of an unpacking assignment that finds too few or too
    many values.  ([at_least] is for a target list with a starred name.  From
    Python 3.14 on the text for too many values also gives the count.) *)
Definition unpack_error (at_least : bool) (expected got : nat) : raised :=
  Core (ValueError
    (if (got <? expected)%nat then
       "not enough values to unpack (expected "
       ++ (if at_least then "at least " else "")
       ++ String (ascii_of_nat (48 + expected)%nat) ", got "
       ++ String (ascii_of_nat (48 + got)%nat) ")"
     else
       "too many values to unpack (expected "
       ++ String (ascii_of_nat (48 + expected)%nat) ")")%string).

Definition add_contact_body {U : UnicodeData} : handler :=
  fun args s =>
    match args with
    | name :: phone :: _ =>
        let '(record, message, s) :=
          match dict_get name (data s) with
          | Some a => (a, lit "Contact updated.", s)
          | None =>
              let '(a, s) := new_record name s in
              (a, lit "Contact added.", add_record_at a s)
          end in
        match phone with
        | [] => (Return message, s)
        | _ :: _ =>
            match call record (Record_.add_phone phone) s with
            | (Ok _, s) => (Return message, s)
            | (Raise e, s) => (Throw (Core e), s)
            end
        end
    | _ => (Throw (unpack_error true 2 (List.length args)), s)
    end.

Definition add_contact {U : UnicodeData} : handler :=
  input_error add_contact_body.

Definition change_contact_body {U : UnicodeData} : handler :=
  fun args s =>
    match args with
    | [name; old_phone; new_phone] =>
        match dict_get name (data s) with
        | None => (Throw (Core (ValueError "Contact not found.")), s)
        | Some record =>
            match call record (Record_.edit_phone old_phone new_phone) s with
            | (Ok _, s) => (Return (lit "Phone number updated."), s)
            | (Raise e, s) => (Throw (Core e), s)
            end
        end
    | _ => (Throw (unpack_error false 3 (List.length args)), s)
    end.

Definition change_contact {U : UnicodeData} : handler :=
  input_error change_contact_body.

Definition show_phone_body : handler :=
  fun args s =>
    match args with
    | [] => (Throw IndexError, s)
    | name :: _ =>
        match dict_get name (data s) with
        | Some record =>
            (Return (lit "Phones for " ++ name ++ lit ": "
                     ++ join (lit ", ")
                          (map Phone.value (Record_.phones (objects s record)))),
             s)
        | None => (Throw KeyError, s)
        end
    end.

Definition show_phone : handler := input_error show_phone_body.

Definition all_contacts_body : handler :=
  fun args s =>
    (Return (join [10] (map Record_str (AddressBook.values (book_of s)))), s).

Definition all_contacts : handler := input_error all_contacts_body.

Definition add_birthday_body {U : UnicodeData} : handler :=
  fun args s =>
    match args with
    | [name; birthday] =>
        match dict_get name (data s) with
        | None => (Throw (Core (ValueError "Contact not found.")), s)
        | Some record =>
            match call record (Record_.add_birthday birthday) s with
            | (Ok _, s) => (Return (lit "Birthday added."), s)
            | (Raise e, s) => (Throw (Core e), s)
            end
        end
    | _ => (Throw (unpack_error false 2 (List.length args)), s)
    end.

Definition add_birthday {U : UnicodeData} : handler :=
  input_error add_birthday_body.

Definition show_birthday_body : handler :=
  fun args s =>
    match args with
    | [] => (Throw IndexError, s)
    | name :: _ =>
        match dict_get name (data s) with
        | Some record =>
            (Return (name ++ lit "'s birthday: "
                     ++ match Record_.birthday (objects s record) with
                        | Some b => Birthday.value b
                        | None => lit "No birthday added."
                        end),
             s)
        | None => (Throw KeyError, s)
        end
    end.

Definition show_birthday : handler := input_error show_birthday_body.

(** [today] stands for the day on which the command runs. *)
Definition birthdays_body {U : UnicodeData} (today : datetime.date) : handler :=
  fun args s =>
    match AddressBook.get_upcoming_birthdays today (book_of s) with
    | Raise e => (Throw (Core e), s)
    | Ok [] => (Return (lit "No upcoming birthdays."), s)
    | Ok upcoming_birthdays =>
        (Return (join [10]
                   (map (fun entry =>
                           entry_name entry ++ lit " - " ++ congratulate_on entry)
                        upcoming_birthdays)),
         s)
    end.

Definition birthdays {U : UnicodeData} (today : datetime.date) : handler :=
  input_error (birthdays_body today).

(** The commands that reach a handler, with their arguments. *)
Inductive command :=
| Add | Change | Phone_ | All | AddBirthday | ShowBirthday | Birthdays.

Definition run {U : UnicodeData} (today : datetime.date) (c : command) : handler :=
  match c with
  | Add => add_contact
  | Change => change_contact
  | Phone_ => show_phone
  | All => all_contacts
  | AddBirthday => add_birthday
  | ShowBirthday => show_birthday
  | Birthdays => birthdays today
  end.

(** The store after a sequence of commands. *)
Definition run_all {U : UnicodeData} (today : datetime.date)
    (cs : list (command * list str)) (s : store) : store :=
  fold_left (fun s c => snd (run today (fst c) (snd c) s)) cs s.

(** The invariant of the store: the book's keys are distinct, no object is
    under two keys, every address in the book is in use, and a key is the
    name of its record. *)
Definition store_ok (s : store) : Prop :=
  NoDup (map fst (data s))
  /\ NoDup (map snd (data s))
  /\ forall k a, In (k, a) (data s) ->
       (a < next s)%nat /\ k = Name.value (Record_.name (objects s a)).

(** The store is in order and every record in the book has valid fields. *)
Definition session_ok {U : UnicodeData} (s : store) : Prop :=
  store_ok s
  /\ forall k a, In (k, a) (data s) -> fields_valid (objects s a).

(** ** More sample data *)

Definition sample_day : datetime.date := datetime.mkdate 2023 3 1.

Definition sample_commands : list (command * list str) :=
  [(Add, [lit "Alice"; lit "0671112233"]);
   (AddBirthday, [lit "Alice"; lit "01.01.1990"]);
   (Add, [lit "Bob"; lit "0501234567"]);
   (AddBirthday, [lit "Bob"; lit "29.02.2000"])].

Definition sample_store : store :=
  run_all sample_day sample_commands empty_store.

Definition alice_1985 : Record_.t :=
  {| Record_.name := Name.mk (lit "Alice");
     Record_.phones := [];
     Record_.birthday := Some (Birthday.mk (lit "1.1.1985")) |}.

(** * Proofs *)

(** ** Facts about dates *)

Module DateFacts.
Import datetime.

Lemma days_before_year_succ y :
  1 <= y -> days_before_year (y + 1) = days_before_year y + 365 + b2z (is_leap y).
Proof.
  intros Hy. unfold days_before_year, is_leap, b2z.
  replace (y + 1 - 1) with y by lia.
  destruct (y mod 4 =? 0) eqn:E4; destruct (y mod 100 =? 0) eqn:E100;
    destruct (y mod 400 =? 0) eqn:E400; simpl;
    rewrite ?Z.eqb_eq, ?Z.eqb_neq in *;
    Z.div_mod_to_equations; lia.
Qed.

Lemma year_div4 a b c e :
  0 <= b < 4 -> 0 <= c < 25 -> 0 <= e < 4 ->
  (400 * a + 100 * b + 4 * c + e) / 4 = 100 * a + 25 * b + c
  /\ (400 * a + 100 * b + 4 * c + e) / 100 = 4 * a + b
  /\ (400 * a + 100 * b + 4 * c + e) / 400 = a.
Proof.
  intros. repeat split; symmetry.
  - apply Z.div_unique with e; lia.
  - apply Z.div_unique with (4 * c + e); lia.
  - apply Z.div_unique with (100 * b + 4 * c + e); lia.
Qed.

Lemma days_before_year_decomp a b c e :
  0 <= b < 4 -> 0 <= c < 25 -> 0 <= e < 4 ->
  days_before_year (400 * a + 100 * b + 4 * c + e + 1)
  = DI400Y * a + DI100Y * b + DI4Y * c + 365 * e.
Proof.
  intros. unfold days_before_year, DI400Y, DI100Y, DI4Y.
  replace (400 * a + 100 * b + 4 * c + e + 1 - 1)
    with (400 * a + 100 * b + 4 * c + e) by lia.
  destruct (year_div4 a b c e) as (-> & -> & ->); lia.
Qed.

Lemma is_leap_decomp a b c e :
  0 <= b < 4 -> 0 <= c < 25 -> 0 <= e < 4 ->
  is_leap (400 * a + 100 * b + 4 * c + e + 1)
  = (e =? 3) && (negb (c =? 24) || (b =? 3)).
Proof.
  intros. unfold is_leap.
  set (y := 400 * a + 100 * b + 4 * c + e + 1).
  assert (M4 : y mod 4 = (e + 1) mod 4).
  { unfold y. replace (400 * a + 100 * b + 4 * c + e + 1)
      with ((e + 1) + (100 * a + 25 * b + c) * 4) by lia.
    apply Z.mod_add; lia. }
  assert (M100 : y mod 100 = (4 * c + e + 1) mod 100).
  { unfold y. replace (400 * a + 100 * b + 4 * c + e + 1)
      with ((4 * c + e + 1) + (4 * a + b) * 100) by lia.
    apply Z.mod_add; lia. }
  assert (M400 : y mod 400 = (100 * b + 4 * c + e + 1) mod 400).
  { unfold y. replace (400 * a + 100 * b + 4 * c + e + 1)
      with ((100 * b + 4 * c + e + 1) + a * 400) by lia.
    apply Z.mod_add; lia. }
  rewrite M4, M100, M400.
  destruct (e =? 3) eqn:E3; destruct (c =? 24) eqn:E24; destruct (b =? 3) eqn:Eb;
  cbn [andb orb negb];
  repeat match goal with
  | |- context [?x mod ?k =? 0] => destruct (x mod k =? 0) eqn:?
  end; cbn [andb orb negb]; try reflexivity;
  rewrite ?Z.eqb_eq, ?Z.eqb_neq in *;
  Z.div_mod_to_equations; lia.
Qed.


Lemma month_day_ok_all leapyear n :
  0 <= n < 365 + b2z leapyear -> month_day_ok leapyear n = true.
Proof.
  intros Hn.
  assert (A : forallb (fun k => month_day_ok leapyear (Z.of_nat k)) (seq 0 (if leapyear then 366 else 365)) = true).
  { destruct leapyear; vm_compute; reflexivity. }
  rewrite forallb_forall in A.
  rewrite <- (Z2Nat.id n) by lia. apply A. apply in_seq.
  destruct leapyear; simpl in Hn; lia.
Qed.

Lemma ord2ymd_spec n :
  1 <= n <= MAXORDINAL ->
  let '(y, m, d) := ord2ymd n in
  check_date_fields y m d = true /\ ymd2ord y m d = n.
Proof.
  intros Hn. unfold ord2ymd. cbv zeta.
  set (n0 := n - 1).
  set (n400 := n0 / DI400Y). set (r400 := n0 mod DI400Y).
  set (n100 := r400 / DI100Y). set (r100 := r400 mod DI100Y).
  set (n4 := r100 / DI4Y). set (r4 := r100 mod DI4Y).
  set (n1 := r4 / 365). set (r1 := r4 mod 365).
  assert (E400 : n0 = DI400Y * n400 + r400 /\ 0 <= r400 < DI400Y).
  { unfold n400, r400. split; [apply Z.div_mod | apply Z.mod_pos_bound];
      unfold DI400Y; lia. }
  assert (E100 : r400 = DI100Y * n100 + r100 /\ 0 <= r100 < DI100Y).
  { unfold n100, r100. split; [apply Z.div_mod | apply Z.mod_pos_bound];
      unfold DI100Y; lia. }
  assert (E4 : r100 = DI4Y * n4 + r4 /\ 0 <= r4 < DI4Y).
  { unfold n4, r4. split; [apply Z.div_mod | apply Z.mod_pos_bound];
      unfold DI4Y; lia. }
  assert (E1 : r4 = 365 * n1 + r1 /\ 0 <= r1 < 365).
  { unfold n1, r1. split; [apply Z.div_mod | apply Z.mod_pos_bound]; lia. }
  assert (B : 0 <= n400 < 25 /\ 0 <= n100 <= 4 /\ 0 <= n4 < 25 /\ 0 <= n1 <= 4
              /\ 0 <= r1 < 365
              /\ n0 = DI400Y * n400 + DI100Y * n100 + DI4Y * n4 + 365 * n1 + r1
              /\ (n100 = 4 -> n4 = 0 /\ n1 = 0 /\ r1 = 0)
              /\ (n1 = 4 -> r1 = 0 /\ n4 < 24)).
  { clearbody n400 n100 n4 n1 r1 r400 r100 r4. unfold n0 in *.
    unfold MAXORDINAL, DI400Y, DI100Y, DI4Y in *. lia. }
  clearbody n400 n100 n4 n1 r1 r400 r100 r4.
  destruct B as (B400 & B100 & B4 & B1 & Br & Bn & S100 & S1).
  clear E400 E100 E4 E1 r400 r100 r4.
  destruct ((n1 =? 4) || (n100 =? 4)) eqn:Special.
  - (* the last day of a leap year *)
    assert (exists b c, 0 <= b < 4 /\ 0 <= c < 25 /\ (c = 24 -> b = 3) /\
              n400 * 400 + 1 + (n100 * 100 + n4 * 4 + n1) - 1
              = 400 * n400 + 100 * b + 4 * c + 3 + 1 /\
              n0 = DI400Y * n400 + DI100Y * b + DI4Y * c + 365 * 3 + 365)
      as (b & c & Hb & Hc & Hbc & Ey & En).
    { apply orb_true_iff in Special. rewrite !Z.eqb_eq in Special.
      destruct (Z.eq_dec n100 4) as [E|E].
      - exists 3, 24. destruct (S100 E) as (-> & -> & ->). subst n100.
        unfold DI400Y, DI100Y, DI4Y in *. lia.
      - exists n100, n4. destruct Special as [E1|E1]; [|lia].
        destruct (S1 E1) as (-> & ?). subst n1.
        unfold DI400Y, DI100Y, DI4Y in *. lia. }
    rewrite Ey. unfold check_date_fields, ymd2ord, days_in_month, days_before_month.
    rewrite days_before_year_decomp, is_leap_decomp by lia.
    replace ((3 =? 3) && (negb (c =? 24) || (b =? 3))) with true.
    2:{ destruct (Z.eq_dec c 24) as [E|E].
        - rewrite (Hbc E), E. reflexivity.
        - apply Z.eqb_neq in E. rewrite E. reflexivity. }
    unfold n0, MAXORDINAL, MINYEAR, MAXYEAR, DI400Y, DI100Y, DI4Y in *.
    change (DAYS_BEFORE_MONTH 12) with 334. change (DAYS_IN_MONTH 12) with 31.
    change (12 =? 2) with false. change (2 <? 12) with true.
    cbn [andb b2z].
    split; [|lia].
    repeat (apply andb_true_iff; split); apply Z.leb_le; lia.
  - apply orb_false_iff in Special. rewrite !Z.eqb_neq in Special.
    replace (n400 * 400 + 1 + (n100 * 100 + n4 * 4 + n1))
      with (400 * n400 + 100 * n100 + 4 * n4 + n1 + 1) by lia.
    set (leapyear := (n1 =? 3) && (negb (n4 =? 24) || (n100 =? 3))).
    set (y := 400 * n400 + 100 * n100 + 4 * n4 + n1 + 1).
    assert (Ly : is_leap y = leapyear)
      by (apply is_leap_decomp; lia).
    assert (Dy : days_before_year y = n0 - r1).
    { unfold y. rewrite days_before_year_decomp by lia. lia. }
    assert (Yr : 1 <= y <= 9999).
    { unfold y, n0, MAXORDINAL, DI400Y, DI100Y, DI4Y in *. lia. }
    pose proof (month_day_ok_all leapyear r1) as MD.
    unfold month_day_ok, month_day in MD. cbv zeta in MD.
    destruct (r1 <? _) eqn:Est;
      (lapply MD; [clear MD; intros MD | destruct leapyear; simpl; lia]);
      rewrite !andb_true_iff in MD;
      destruct MD as ((((M1 & M2) & D1) & D2) & Sum);
      unfold check_date_fields, ymd2ord, days_in_month, days_before_month;
      rewrite Ly, Dy;
      rewrite M1, M2, D1, D2;
      apply Z.eqb_eq in Sum;
      (split; [| unfold n0 in *; lia]);
      unfold MINYEAR, MAXYEAR;
      repeat (apply andb_true_iff; split); try reflexivity; apply Z.leb_le; lia.
Qed.

Lemma valid_fields_bounds y m d :
  check_date_fields y m d = true ->
  1 <= y <= 9999 /\ 1 <= m <= 12 /\ 1 <= d <= days_in_month y m.
Proof.
  unfold check_date_fields, MINYEAR, MAXYEAR.
  rewrite !andb_true_iff, !Z.leb_le. lia.
Qed.

Lemma days_before_year_mono y1 y2 :
  y1 <= y2 -> days_before_year y1 <= days_before_year y2.
Proof.
  unfold days_before_year. intros. Z.div_mod_to_equations. lia.
Qed.

Lemma month_span leap m :
  1 <= m <= 12 ->
  0 <= DAYS_BEFORE_MONTH m + b2z ((2 <? m) && leap)
  /\ DAYS_BEFORE_MONTH m + b2z ((2 <? m) && leap)
     + (if (m =? 2) && leap then 29 else DAYS_IN_MONTH m) <= 365 + b2z leap.
Proof.
  intros Vm.
  assert (Hm : m = 1 \/ m = 2 \/ m = 3 \/ m = 4 \/ m = 5 \/ m = 6 \/ m = 7
               \/ m = 8 \/ m = 9 \/ m = 10 \/ m = 11 \/ m = 12) by lia.
  destruct leap; repeat (destruct Hm as [-> | Hm]); try subst m;
    vm_compute; split; discriminate.
Qed.

Lemma days_in_month_bounds y m :
  1 <= m <= 12 -> 28 <= days_in_month y m <= 31.
Proof.
  intros Vm. unfold days_in_month.
  assert (Hm : m = 1 \/ m = 2 \/ m = 3 \/ m = 4 \/ m = 5 \/ m = 6 \/ m = 7
               \/ m = 8 \/ m = 9 \/ m = 10 \/ m = 11 \/ m = 12) by lia.
  destruct (is_leap y); repeat (destruct Hm as [-> | Hm]); try subst m;
    vm_compute; split; discriminate.
Qed.

Lemma ymd2ord_bounds y m d :
  check_date_fields y m d = true -> 1 <= ymd2ord y m d <= MAXORDINAL.
Proof.
  intros V. apply valid_fields_bounds in V. destruct V as (Vy & Vm & Vd).
  assert (In_year : 1 <= days_before_month y m + d <= 365 + b2z (is_leap y)).
  { pose proof (month_span (is_leap y) m Vm).
    unfold days_in_month, days_before_month in *. lia. }
  unfold ymd2ord.
  pose proof (days_before_year_succ y ltac:(lia)) as Sy.
  pose proof (days_before_year_mono 1 y ltac:(lia)) as Lo.
  pose proof (days_before_year_mono (y + 1) 10000 ltac:(lia)) as Hi.
  change (days_before_year 1) with 0 in Lo.
  change (days_before_year 10000) with 3652059 in Hi.
  unfold MAXORDINAL. lia.
Qed.
End DateFacts.

(** ** Facts about the matcher *)

Section ExecFacts.
Context {U : UnicodeData}.

Lemma in_step_if p st st' :
  In st' (step_if p st) <->
  exists c t, rest st = c :: t /\ p c = true
              /\ st' = {| pos := S (pos st); rest := t; groups := groups st |}.
Proof.
  unfold step_if. destruct (rest st) as [|c t].
  - split; [intros [] | intros (? & ? & ? & _); discriminate].
  - destruct (p c) eqn:E; split.
    + intros [<- | []]. eauto.
    + intros (c' & t' & [= <- <-] & _ & ->). now left.
    + intros [].
    + intros (c' & t' & [= <- <-] & E' & _). congruence.
Qed.

Lemma in_exec_Cat r1 r2 st st'' :
  In st'' (exec (Cat r1 r2) st) <->
  exists st', In st' (exec r1 st) /\ In st'' (exec r2 st').
Proof. simpl. apply in_flat_map. Qed.

Lemma in_exec_Alt r1 r2 st st' :
  In st' (exec (Alt r1 r2) st) <-> In st' (exec r1 st) \/ In st' (exec r2 st).
Proof. simpl. apply in_app_iff. Qed.

Lemma in_exec_Group name r st st'' :
  In st'' (exec (Group name r) st) <->
  exists st', In st' (exec r st) /\ st'' = capture name st st'.
Proof.
  simpl. rewrite in_map_iff. split; intros (st' & A & B); eauto.
Qed.

Lemma in_exec_Eps st st' : In st' (exec Eps st) <-> st' = st.
Proof. simpl. intuition. Qed.

Lemma exec_Rep_S n r st :
  exec (Rep (S n) r) st = flat_map (exec (Rep n r)) (exec r st).
Proof. reflexivity. Qed.

Lemma in_exec_Rep_S n r st st'' :
  In st'' (exec (Rep (S n) r) st) <->
  exists st', In st' (exec r st) /\ In st'' (exec (Rep n r) st').
Proof. rewrite exec_Rep_S. apply in_flat_map. Qed.

Lemma in_exec_Rep_O r st st' : In st' (exec (Rep 0 r) st) <-> st' = st.
Proof. simpl. intuition. Qed.

End ExecFacts.

Ltac norm_chr :=
  change (chr " ") with 32 in *; change (chr "%") with 37 in *;
  change (chr ".") with 46 in *; change (chr "0") with 48 in *;
  change (chr "1") with 49 in *; change (chr "2") with 50 in *;
  change (chr "3") with 51 in *; change (chr "9") with 57 in *.

Ltac tests_to_props :=
  repeat match goal with
  | H : _ && _ = true |- _ => apply andb_true_iff in H; destruct H
  | H : _ || _ = true |- _ => apply orb_true_iff in H; destruct H
  | H : (_ =? _) = true |- _ => apply Z.eqb_eq in H
  | H : (_ <=? _) = true |- _ => apply Z.leb_le in H
  end.

Ltac props_to_tests :=
  rewrite ?orb_true_iff, ?andb_true_iff, ?Z.eqb_eq, ?Z.leb_le.

Section GroupFacts.
Context {U : UnicodeData}.

Lemma mstate_eq (a b : mstate) :
  pos a = pos b -> rest a = rest b -> groups a = groups b -> a = b.
Proof. destruct a, b; simpl; intros; subst; reflexivity. Qed.

Lemma step_consumed st c t :
  rest st = c :: t ->
  consumed st [c] {| pos := S (pos st); rest := t; groups := groups st |}.
Proof. intros R. repeat split; simpl; [assumption | lia]. Qed.

Lemma consumed_trans st w st1 w' st2 :
  consumed st w st1 -> consumed st1 w' st2 -> consumed st (w ++ w') st2.
Proof.
  intros (R1 & P1 & G1) (R2 & P2 & G2). repeat split.
  - rewrite R1, R2. apply app_assoc.
  - rewrite P2, P1, length_app. lia.
  - congruence.
Qed.

Lemma capture_captured name st w st1 :
  consumed st w st1 -> captured name st w (capture name st st1).
Proof.
  intros (R & P & G). unfold captured, capture; cbn [pos rest groups].
  repeat split; try assumption.
  rewrite G, P, R. f_equal. f_equal.
  replace (pos st + List.length w - pos st)%nat with (List.length w + 0)%nat by lia.
  rewrite firstn_app_2. simpl. apply app_nil_r.
Qed.

Lemma captured_unique name st w st1 st2 :
  captured name st w st1 -> captured name st w st2 -> st1 = st2.
Proof.
  intros (R1 & P1 & G1) (R2 & P2 & G2). apply mstate_eq; try congruence.
  rewrite R1 in R2. now apply app_inv_head in R2.
Qed.

Lemma consumed_unique st w st1 st2 :
  consumed st w st1 -> consumed st w st2 -> st1 = st2.
Proof.
  intros (R1 & P1 & G1) (R2 & P2 & G2). apply mstate_eq; try congruence.
  rewrite R1 in R2. now apply app_inv_head in R2.
Qed.

(** One character classes. *)
Lemma in_step_consumed p st st' :
  In st' (step_if p st) <-> exists c, p c = true /\ consumed st [c] st'.
Proof.
  rewrite in_step_if. split.
  - intros (c & t & R & P & ->). exists c. split; [assumption|].
    now apply step_consumed.
  - intros (c & P & C). exists c, (rest st'). destruct C as (R & Ps & G).
    repeat split; try assumption.
    simpl in Ps. apply mstate_eq; simpl; [lia | reflexivity | assumption].
Qed.

Lemma group_reach name r st w st1 st' :
  In st1 (exec r st) -> consumed st w st1 -> captured name st w st' ->
  In st' (exec (Group name r) st).
Proof.
  intros I C K. apply in_exec_Group. exists st1. split; [assumption|].
  eapply captured_unique; [eassumption | now apply capture_captured].
Qed.

End GroupFacts.

(** Takes a hypothesis that a state is reached apart, step by step. *)
Ltac invert_exec H :=
  repeat match type of H with
  | In _ (exec (Cat _ _) _) =>
      let st := fresh "st" in let H1 := fresh "M" in
      apply in_exec_Cat in H; destruct H as (st & H1 & H); invert_exec H1
  | In _ (exec (Alt _ _) _) =>
      apply in_exec_Alt in H; destruct H as [H | H]
  | In _ (exec (Group _ _) _) =>
      let st := fresh "st" in let E := fresh "E" in
      apply in_exec_Group in H; destruct H as (st & H & E); invert_exec H
  | In _ (exec Eps _) => apply in_exec_Eps in H
  | In _ (exec (Chr _) _) =>
      let c := fresh "c" in let P := fresh "P" in
      apply in_step_consumed in H; destruct H as (c & P & H)
  | In _ (exec (Range _ _) _) =>
      let c := fresh "c" in let P := fresh "P" in
      apply in_step_consumed in H; destruct H as (c & P & H)
  | In _ (exec Digit _) =>
      let c := fresh "c" in let P := fresh "P" in
      apply in_step_consumed in H; destruct H as (c & P & H)
  end.

(** Builds a proof that a state is reached, choosing the alternative. *)
Ltac reach side :=
  lazymatch goal with
  | |- In _ (exec (Alt _ _) _) =>
      apply in_exec_Alt; first [ left; solve [reach side] | right; solve [reach side] ]
  | |- In _ (exec (Cat _ _) _) =>
      apply in_exec_Cat; eexists; split; [reach side | reach side]
  | |- In _ (exec Eps _) => apply in_exec_Eps; reflexivity
  | |- In _ (exec _ _) =>
      apply in_step_if; do 2 eexists;
      split; [reflexivity | split; [solve [side] | reflexivity]]
  end.

Ltac chain :=
  first [ eassumption | eapply consumed_trans; [eassumption | chain] ].

Ltac side_test := first [assumption | props_to_tests; lia].

Ltac reach_group :=
  lazymatch goal with
  | C : captured _ {| pos := ?p; rest := _; groups := ?g |} ?w ?st' |- _ =>
      eapply group_reach
        with (st1 := {| pos := (List.length w + p)%nat; rest := rest st';
                        groups := g |});
      [ reach side_test
      | repeat split; simpl; (lia || reflexivity)
      | eassumption ]
  end.

Section Directives.
Context {U : UnicodeData}.

Lemma exec_re_d st st' :
  In st' (exec datetime.re_d st) <->
  exists t, day_text t = true /\ captured "d" st t st'.
Proof.
  unfold datetime.re_d. norm_chr. split.
  - intros H. invert_exec H; subst st';
      (eexists; split;
       [| apply capture_captured; chain ]);
      tests_to_props; subst; unfold day_text, digit19; cbn [app];
      props_to_tests; try (rewrite P0); intuition lia.
  - intros (t & T & C).
    destruct st as [p r g]. pose proof C as (R & _ & _). cbn in R. subst r.
    destruct t as [|a [|b [|? ?]]]; try discriminate T;
      unfold day_text, digit19 in T; tests_to_props.
    all: reach_group.
Qed.

Lemma exec_re_m st st' :
  In st' (exec datetime.re_m st) <->
  exists t, month_text t = true /\ captured "m" st t st'.
Proof.
  unfold datetime.re_m. norm_chr. split.
  - intros H. invert_exec H; subst st';
      (eexists; split; [| apply capture_captured; chain ]);
      tests_to_props; subst; unfold month_text, digit19; cbn [app];
      props_to_tests; intuition lia.
  - intros (t & T & C).
    destruct st as [p r g]. pose proof C as (R & _ & _). cbn in R. subst r.
    destruct t as [|a [|b [|? ?]]]; try discriminate T;
      unfold month_text, digit19 in T; tests_to_props.
    all: reach_group.
Qed.

Lemma exec_re_Y st st' :
  In st' (exec datetime.re_Y st) <->
  exists t, year_text t = true /\ captured "Y" st t st'.
Proof.
  unfold datetime.re_Y. split.
  - intros H. invert_exec H; subst st';
      (eexists; split; [| apply capture_captured; chain ]).
    unfold year_text. cbn. now rewrite P, P0, P1, P2.
  - intros (t & T & C).
    destruct st as [p r g]. pose proof C as (R & _ & _). cbn in R. subst r.
    unfold year_text in T. apply andb_true_iff in T. destruct T as (T1 & T2).
    destruct t as [|a [|b [|c [|d [|? ?]]]]]; try discriminate T1.
    cbn in T2. rewrite !andb_true_iff in T2.
    destruct T2 as (? & ? & ? & ? & _).
    reach_group.
Qed.

Lemma pattern_FORMAT : datetime.pattern Birthday.FORMAT = Some format_regex.
Proof. reflexivity. Qed.

Lemma exec_format_regex st found :
  In found (exec format_regex st) <->
  exists dt mt yt,
    day_text dt = true /\ month_text mt = true /\ year_text yt = true
    /\ found_state st dt mt yt found.
Proof.
  unfold format_regex. split.
  - intros H.
    apply in_exec_Cat in H. destruct H as (s1 & H1 & H).
    apply in_exec_Cat in H. destruct H as (s2 & H2 & H).
    apply in_exec_Cat in H. destruct H as (s3 & H3 & H).
    apply in_exec_Cat in H. destruct H as (s4 & H4 & H).
    apply in_exec_Cat in H. destruct H as (s5 & H5 & H).
    apply in_exec_Eps in H. subst found.
    apply exec_re_d in H1. destruct H1 as (dt & Td & R1 & P1 & G1).
    apply in_step_consumed in H2. destruct H2 as (c2 & E2 & R2 & P2 & G2).
    apply exec_re_m in H3. destruct H3 as (mt & Tm & R3 & P3 & G3).
    apply in_step_consumed in H4. destruct H4 as (c4 & E4 & R4 & P4 & G4).
    apply exec_re_Y in H5. destruct H5 as (yt & Ty & R5 & P5 & G5).
    apply Z.eqb_eq in E2, E4. subst c2 c4.
    exists dt, mt, yt. repeat split; try assumption.
    + rewrite R1, R2, R3, R4, R5. unfold dmy_text.
      repeat (rewrite <- ?app_assoc; cbn [app]). reflexivity.
    + rewrite P5, P4, P3, P2, P1. unfold dmy_text.
      rewrite !length_app. cbn [List.length]. rewrite !length_app.
      cbn [List.length]. lia.
    + congruence.
  - intros (dt & mt & yt & Td & Tm & Ty & R & P & G).
    unfold dmy_text in *.
    set (s1 := {| pos := (pos st + List.length dt)%nat;
                  rest := 46 :: mt ++ 46 :: yt ++ rest found;
                  groups := ("d"%string, dt) :: groups st |}).
    set (s2 := {| pos := S (pos s1); rest := mt ++ 46 :: yt ++ rest found;
                  groups := groups s1 |}).
    set (s3 := {| pos := (pos s2 + List.length mt)%nat;
                  rest := 46 :: yt ++ rest found;
                  groups := ("m"%string, mt) :: groups s2 |}).
    set (s4 := {| pos := S (pos s3); rest := yt ++ rest found;
                  groups := groups s3 |}).
    apply in_exec_Cat. exists s1. split.
    { apply exec_re_d. exists dt. split; [assumption|].
      repeat split. cbn. rewrite R.
      repeat (rewrite <- ?app_assoc; cbn [app]). reflexivity. }
    apply in_exec_Cat. exists s2. split.
    { apply in_step_consumed. exists 46. split; [reflexivity|].
      repeat split. cbn. lia. }
    apply in_exec_Cat. exists s3. split.
    { apply exec_re_m. exists mt. split; [assumption|]. repeat split. }
    apply in_exec_Cat. exists s4. split.
    { apply in_step_consumed. exists 46. split; [reflexivity|].
      repeat split. cbn. lia. }
    apply in_exec_Cat. exists found. split; [|now apply in_exec_Eps].
    apply exec_re_Y. exists yt. split; [assumption|].
    repeat split; cbn; [| assumption].
    rewrite P. rewrite !length_app. cbn [List.length]. rewrite !length_app.
    cbn [List.length]. lia.
Qed.

End Directives.

Section Parsing.
Context {U : UnicodeData} {L : UnicodeLaws U}.

Lemma is_decimal_ascii c :
  0 <= c < 128 -> is_decimal c = (48 <=? c) && (c <=? 57).
Proof.
  intros H. unfold is_decimal. rewrite decimal_ascii by assumption.
  unfold ascii_decimal. now destruct ((48 <=? c) && (c <=? 57)).
Qed.

Lemma dot_not_decimal : is_decimal 46 = false.
Proof. now rewrite is_decimal_ascii by lia. Qed.

Lemma day_text_no_dot a b : day_text [a; b] = true -> b <> 46.
Proof.
  intros T ->. unfold day_text, digit19 in T. rewrite dot_not_decimal in T.
  tests_to_props; try lia; discriminate.
Qed.

Lemma month_text_no_dot a b : month_text [a; b] = true -> b <> 46.
Proof.
  intros T ->. unfold month_text, digit19 in T. tests_to_props; lia.
Qed.

Lemma year_text_length t : year_text t = true -> List.length t = 4%nat.
Proof.
  unfold year_text. intros T. apply andb_true_iff in T.
  now apply Nat.eqb_eq.
Qed.

(** A text splits into day, month and year in one way at most. *)
Lemma dmy_text_unique dt mt yt r dt' mt' yt' r' :
  day_text dt = true -> month_text mt = true -> year_text yt = true ->
  day_text dt' = true -> month_text mt' = true -> year_text yt' = true ->
  dmy_text dt mt yt ++ r = dmy_text dt' mt' yt' ++ r' ->
  dt = dt' /\ mt = mt' /\ yt = yt' /\ r = r'.
Proof.
  intros Td Tm Ty Td' Tm' Ty' E. unfold dmy_text in E.
  assert (Ed : dt = dt' /\ mt ++ 46 :: yt ++ r = mt' ++ 46 :: yt' ++ r').
  { destruct dt as [|a [|b [|? ?]]]; try discriminate Td;
    destruct dt' as [|a' [|b' [|? ?]]]; try discriminate Td';
    repeat (rewrite <- ?app_assoc in E; cbn [app] in E);
    injection E; intros; subst; auto.
    - now apply day_text_no_dot in Td'.
    - now apply day_text_no_dot in Td. }
  destruct Ed as (-> & E'). clear E.
  assert (Em : mt = mt' /\ yt ++ r = yt' ++ r').
  { destruct mt as [|a [|b [|? ?]]]; try discriminate Tm;
    destruct mt' as [|a' [|b' [|? ?]]]; try discriminate Tm';
    cbn [app] in E'; injection E'; intros; subst; auto.
    - now apply month_text_no_dot in Tm'.
    - now apply month_text_no_dot in Tm. }
  destruct Em as (-> & E''). clear E'.
  apply year_text_length in Ty, Ty'.
  destruct yt as [|y1 [|y2 [|y3 [|y4 [|? ?]]]]]; try discriminate Ty.
  destruct yt' as [|z1 [|z2 [|z3 [|z4 [|? ?]]]]]; try discriminate Ty'.
  cbn [app] in E''. injection E''; intros; subst; auto.
Qed.

Lemma is_space_not_decimal c : is_decimal c = true -> datetime.is_space c = false.
Proof.
  intros D. destruct (datetime.is_space c) eqn:E; [|reflexivity].
  unfold datetime.is_space in E. tests_to_props;
    rewrite is_decimal_ascii in D by lia; tests_to_props; lia.
Qed.

Lemma hd_error_in {A} (l : list A) x : hd_error l = Some x -> In x l.
Proof. destruct l; simpl; [discriminate | intros [= ->]; now left]. Qed.

Lemma new_ok y m d dt :
  datetime.new y m d = Ok dt <->
  datetime.check_date_fields y m d = true /\ dt = datetime.mkdate y m d.
Proof.
  unfold datetime.new, datetime.check_date_fields.
  destruct (datetime.MINYEAR <=? y), (y <=? datetime.MAXYEAR), (1 <=? m),
    (m <=? 12), (1 <=? d), (d <=? datetime.days_in_month y m); cbn;
    split; intros H; try discriminate; try (destruct H; discriminate).
  - injection H as <-. auto.
  - destruct H as [_ ->]. reflexivity.
Qed.

Lemma new_raises_ValueError y m d e :
  datetime.new y m d = Raise e -> exists msg, e = ValueError msg.
Proof.
  unfold datetime.new.
  repeat match goal with
  | |- context [if ?b then _ else _] => destruct b
  end; intros [= <-]; eauto.
Qed.

Lemma int_raises_ValueError s e :
  datetime.int s = Raise e -> exists msg, e = ValueError msg.
Proof.
  unfold datetime.int. destruct (datetime.strip s); [intros [= <-]; eauto|].
  destruct (datetime.digits_value _ _); intros [= <-]; eauto.
Qed.

Lemma strptime_raises_ValueError s f e :
  datetime.strptime s f = Raise e -> exists msg, e = ValueError msg.
Proof.
  unfold datetime.strptime, datetime.group_int.
  destruct (datetime.pattern f); [|intros [= <-]; eauto].
  destruct (re_match _ _) as [found|]; [|intros [= <-]; eauto].
  destruct (negb _); [intros [= <-]; eauto|].
  repeat match goal with
  | |- context [group ?n ?f] => destruct (group n f)
  end;
  repeat match goal with
  | |- context [datetime.int ?t] =>
      let E := fresh "E" in
      destruct (datetime.int t) eqn:E;
      [| apply int_raises_ValueError in E; destruct E as [? ->];
         cbn [bind]; intros [= <-]; eauto ]
  end; cbn [bind]; apply new_raises_ValueError.
Qed.

(** A text that splits into day, month and year is parsed into the date of
    the three numbers, if there is such a date. *)
Lemma strptime_of_text s dt mt yt y m d :
  s = dmy_text dt mt yt ->
  day_text dt = true -> month_text mt = true -> year_text yt = true ->
  datetime.int dt = Ok d -> datetime.int mt = Ok m -> datetime.int yt = Ok y ->
  datetime.strptime s Birthday.FORMAT = datetime.new y m d.
Proof.
  intros Es Td Tm Ty Id Im Iy.
  unfold datetime.strptime. rewrite pattern_FORMAT. unfold re_match.
  assert (I : In {| pos := List.length s; rest := [];
                    groups := [("Y"%string, yt); ("m"%string, mt); ("d"%string, dt)] |}
                (exec format_regex (start s))).
  { apply exec_format_regex. exists dt, mt, yt. repeat split; try assumption.
    - cbn. now rewrite app_nil_r.
    - cbn. now rewrite Es. }
  destruct (exec format_regex (start s)) as [|found l] eqn:El; [destruct I|].
  cbn [hd_error].
  assert (F : In found (exec format_regex (start s)))
    by (rewrite El; now left).
  apply exec_format_regex in F.
  destruct F as (dt' & mt' & yt' & Td' & Tm' & Ty' & R & P & G).
  cbn [start rest pos groups] in R, P, G.
  pose proof Es as Es'.
  rewrite <- (app_nil_r (dmy_text dt mt yt)) in Es'. rewrite Es' in R.
  destruct (dmy_text_unique _ _ _ _ _ _ _ _ Td Tm Ty Td' Tm' Ty' R)
    as (<- & <- & <- & Er).
  rewrite P, Es, Nat.eqb_refl. cbn [negb].
  unfold datetime.group_int, group. rewrite G.
  cbn [find fst snd String.eqb Ascii.eqb Bool.eqb].
  rewrite Iy, Im, Id. reflexivity.
Qed.

(** What [strptime] accepts under "%d.%m.%Y", and what it returns. *)
Theorem strptime_dmY s date :
  datetime.strptime s Birthday.FORMAT = Ok date <->
  exists dt mt yt y m d,
    s = dmy_text dt mt yt
    /\ day_text dt = true /\ month_text mt = true /\ year_text yt = true
    /\ datetime.int dt = Ok d /\ datetime.int mt = Ok m /\ datetime.int yt = Ok y
    /\ datetime.check_date_fields y m d = true
    /\ date = datetime.mkdate y m d.
Proof.
  split.
  - unfold datetime.strptime. rewrite pattern_FORMAT. unfold re_match.
    destruct (hd_error _) as [found|] eqn:H; [|discriminate].
    apply hd_error_in in H. pose proof H as I.
    apply exec_format_regex in I.
    destruct I as (dt & mt & yt & Td & Tm & Ty & R & P & G).
    cbn [start rest pos groups] in R, P, G.
    destruct (negb _) eqn:Len; [discriminate|].
    apply negb_false_iff, Nat.eqb_eq in Len.
    assert (Er : rest found = []).
    { apply length_zero_iff_nil. rewrite R, length_app in Len. lia. }
    rewrite Er, app_nil_r in R.
    unfold datetime.group_int, group. rewrite G.
    cbn [find fst snd String.eqb Ascii.eqb Bool.eqb].
    destruct (datetime.int yt) as [y|] eqn:Iy; [|discriminate].
    destruct (datetime.int mt) as [m|] eqn:Im; [|discriminate].
    destruct (datetime.int dt) as [d|] eqn:Id; [|discriminate].
    cbn [bind]. intros N. apply new_ok in N. destruct N as (N & ->).
    exists dt, mt, yt, y, m, d. repeat split; assumption.
  - intros (dt & mt & yt & y & m & d & Es & Td & Tm & Ty & Id & Im & Iy & V & ->).
    rewrite (strptime_of_text s dt mt yt y m d) by assumption.
    apply new_ok. auto.
Qed.
End Parsing.

Section IntFacts.
Context {U : UnicodeData} {L : UnicodeLaws U}.

Lemma decimal_digit_chr v : 0 <= v <= 9 -> decimal (datetime.digit_chr v) = Some v.
Proof.
  intros H. unfold datetime.digit_chr. rewrite decimal_ascii by lia.
  unfold ascii_decimal.
  replace ((48 <=? 48 + v) && (48 + v <=? 57)) with true.
  - f_equal; lia.
  - symmetry. apply andb_true_iff. split; apply Z.leb_le; lia.
Qed.

Lemma is_decimal_digit_chr v : 0 <= v <= 9 -> is_decimal (datetime.digit_chr v) = true.
Proof. intros H. unfold is_decimal. now rewrite decimal_digit_chr. Qed.

Lemma is_space_digit_chr v : 0 <= v <= 9 -> datetime.is_space (datetime.digit_chr v) = false.
Proof. intros H. now apply is_space_not_decimal, is_decimal_digit_chr. Qed.

Lemma int_digit v : 0 <= v <= 9 -> datetime.int [datetime.digit_chr v] = Ok v.
Proof.
  intros H. unfold datetime.int, datetime.strip. cbn [datetime.lstrip rev app].
  rewrite is_space_digit_chr by assumption. cbn [datetime.lstrip rev app].
  rewrite is_space_digit_chr by assumption. cbn [rev app datetime.digits_value].
  rewrite decimal_digit_chr by assumption. f_equal; lia.
Qed.

Lemma int_2_digits p q :
  0 <= p <= 9 -> 0 <= q <= 9 ->
  datetime.int [datetime.digit_chr p; datetime.digit_chr q] = Ok (10 * p + q).
Proof.
  intros Hp Hq. unfold datetime.int, datetime.strip. cbn [datetime.lstrip rev app].
  rewrite (is_space_digit_chr p) by assumption. cbn [datetime.lstrip rev app].
  rewrite (is_space_digit_chr q) by assumption. cbn [rev app datetime.digits_value].
  rewrite !decimal_digit_chr by assumption. f_equal; lia.
Qed.

Lemma int_4_digits a b c d :
  0 <= a <= 9 -> 0 <= b <= 9 -> 0 <= c <= 9 -> 0 <= d <= 9 ->
  datetime.int [datetime.digit_chr a; datetime.digit_chr b;
                datetime.digit_chr c; datetime.digit_chr d]
  = Ok (1000 * a + 100 * b + 10 * c + d).
Proof.
  intros Ha Hb Hc Hd. unfold datetime.int, datetime.strip.
  cbn [datetime.lstrip rev app].
  rewrite (is_space_digit_chr a) by assumption. cbn [datetime.lstrip rev app].
  rewrite (is_space_digit_chr d) by assumption. cbn [rev app datetime.digits_value].
  rewrite !decimal_digit_chr by assumption. f_equal; lia.
Qed.

(** Parsing what [strftime] wrote gives the date back. *)
Lemma strptime_strftime d :
  datetime.valid d ->
  datetime.strptime (datetime.strftime_dmY d) Birthday.FORMAT = Ok d.
Proof.
  intros V. destruct d as [y m dd]. unfold datetime.valid in V. cbn in V.
  pose proof (DateFacts.valid_fields_bounds _ _ _ V) as (By & Bm & Bd).
  assert (Bd' : 1 <= dd <= 31)
    by (pose proof (DateFacts.days_in_month_bounds y m Bm); lia).
  apply strptime_dmY.
  exists [datetime.digit_chr (dd / 10); datetime.digit_chr (dd mod 10)],
         [datetime.digit_chr (m / 10); datetime.digit_chr (m mod 10)],
         [datetime.digit_chr (y / 1000); datetime.digit_chr (y / 100 mod 10);
          datetime.digit_chr (y / 10 mod 10); datetime.digit_chr (y mod 10)],
         y, m, dd.
  assert (0 <= dd / 10 <= 3 /\ 0 <= dd mod 10 <= 9 /\ dd = 10 * (dd / 10) + dd mod 10)
    as (D1 & D2 & D3) by (Z.div_mod_to_equations; lia).
  assert (0 <= m / 10 <= 1 /\ 0 <= m mod 10 <= 9 /\ m = 10 * (m / 10) + m mod 10)
    as (M1 & M2 & M3) by (Z.div_mod_to_equations; lia).
  assert (0 <= y / 1000 <= 9 /\ 0 <= y / 100 mod 10 <= 9 /\ 0 <= y / 10 mod 10 <= 9
          /\ 0 <= y mod 10 <= 9
          /\ y = 1000 * (y / 1000) + 100 * (y / 100 mod 10) + 10 * (y / 10 mod 10) + y mod 10)
    as (Y1 & Y2 & Y3 & Y4 & Y5) by (Z.div_mod_to_equations; lia).
  repeat split.
  - unfold day_text, digit19. rewrite is_decimal_digit_chr by lia.
    unfold datetime.digit_chr. props_to_tests. lia.
  - unfold month_text, digit19, datetime.digit_chr. props_to_tests. lia.
  - unfold year_text. cbn [List.length forallb Nat.eqb].
    rewrite !is_decimal_digit_chr by lia. reflexivity.
  - rewrite int_2_digits by lia. f_equal; lia.
  - rewrite int_2_digits by lia. f_equal; lia.
  - rewrite int_4_digits by lia. f_equal; lia.
  - assumption.
Qed.

End IntFacts.

(** ** The excerpt satisfies the laws *)

Lemma excerpt_laws : UnicodeLaws excerpt.
Proof.
  split.
  - intros c Hc. cbn [decimal excerpt]. unfold excerpt_decimal, ascii_decimal, digit_blocks.
    cbn [find]. change (48 + 9) with 57.
    destruct ((48 <=? c) && (c <=? 57)) eqn:E; [reflexivity|].
    + repeat match goal with
      | |- context [(?z <=? c) && _] =>
          replace (z <=? c) with false by (symmetry; apply Z.leb_gt; lia);
          cbn [andb]
      end. reflexivity.
  - intros c v. cbn [decimal excerpt]. unfold excerpt_decimal.
    destruct (find _ _) as [z|] eqn:F; [|discriminate].
    apply find_some in F. destruct F as (_ & F). tests_to_props.
    intros [= <-]. lia.
Qed.

#[export] Existing Instance excerpt_laws.

Section ValidateFacts.
Context {U : UnicodeData} {L : UnicodeLaws U}.

Lemma Birthday_validate_true s :
  Birthday.validate s = Ok true <->
  exists date, datetime.strptime s Birthday.FORMAT = Ok date.
Proof.
  unfold Birthday.validate.
  destruct (datetime.strptime s Birthday.FORMAT) as [date|e] eqn:E.
  - split; eauto.
  - apply strptime_raises_ValueError in E. destruct E as [msg ->].
    split; [discriminate | intros [? ?]; discriminate].
Qed.

Lemma Birthday_validate_total s :
  Birthday.validate s = Ok true \/ Birthday.validate s = Ok false.
Proof.
  unfold Birthday.validate.
  destruct (datetime.strptime s Birthday.FORMAT) as [date|e] eqn:E; auto.
  apply strptime_raises_ValueError in E. destruct E as [msg ->]. auto.
Qed.

(** Runs of digits. *)
Lemma exec_Rep_Digit n st st' :
  In st' (exec (Rep n Digit) st) <->
  exists w, List.length w = n /\ forallb is_decimal w = true /\ consumed st w st'.
Proof.
  revert st. induction n as [|n IH]; intros st.
  - rewrite in_exec_Rep_O. split.
    + intros ->. exists []. repeat split. cbn. lia.
    + intros (w & Lw & _ & C). destruct w; [|discriminate].
      destruct C as (R & P & G). cbn in R, P.
      symmetry. apply mstate_eq; [lia | assumption | congruence].
  - rewrite in_exec_Rep_S. split.
    + intros (st1 & H1 & H2). cbn [exec] in H1.
      apply in_step_consumed in H1. destruct H1 as (c & Dc & C1).
      apply IH in H2. destruct H2 as (w & Lw & Dw & C2).
      exists (c :: w). cbn. rewrite Lw, Dc, Dw. repeat split.
      * destruct (consumed_trans _ _ _ _ _ C1 C2) as (R & _). exact R.
      * destruct (consumed_trans _ _ _ _ _ C1 C2) as (_ & P & _). exact P.
      * destruct (consumed_trans _ _ _ _ _ C1 C2) as (_ & _ & G). exact G.
    + intros (w & Lw & Dw & R & P & G).
      destruct w as [|c w]; [discriminate|].
      cbn in Dw. apply andb_true_iff in Dw. destruct Dw as (Dc & Dw).
      exists {| pos := S (pos st); rest := w ++ rest st'; groups := groups st |}.
      split.
      * cbn [exec]. apply in_step_consumed. exists c. split; [assumption|].
        apply step_consumed. exact R.
      * apply IH. exists w. cbn in Lw. repeat split; cbn; try assumption; try lia.
        cbn in P. lia.
Qed.

Lemma in_exec_Bol st st' : In st' (exec Bol st) <-> pos st = 0%nat /\ st' = st.
Proof.
  cbn [exec]. destruct (pos st); cbn; intuition congruence.
Qed.

Lemma in_exec_Eol st st' :
  In st' (exec Eol st) <-> (rest st = [] \/ rest st = [10]) /\ st' = st.
Proof.
  cbn [exec]. destruct (rest st) as [|c [|c' t]].
  - cbn. intuition congruence.
  - destruct c as [|c|c]; try (cbn; intuition congruence).
    do 4 (destruct c as [c|c|]; try (cbn; intuition congruence)).
  - destruct c as [|c|c]; try (cbn; intuition congruence).
    do 4 (destruct c as [c|c|]; try (cbn; intuition congruence)).
Qed.

Lemma hd_error_some_iff {A} (l : list A) :
  (exists x, hd_error l = Some x) <-> (exists x, In x l).
Proof.
  destruct l; cbn; split; intros [x H]; try discriminate; try contradiction; eauto.
Qed.

(** What the phone pattern accepts: ten decimal digits, and possibly a final
    newline after them. *)
Lemma Phone_validate_spec s :
  Phone.validate s = true <->
  exists ds, List.length ds = 10%nat /\ forallb is_decimal ds = true
             /\ (s = ds \/ s = ds ++ [10]).
Proof.
  unfold Phone.validate, re_match.
  transitivity (exists found, In found (exec Phone.pattern (start s))).
  { rewrite <- hd_error_some_iff.
    destruct (hd_error _); split; eauto; try discriminate.
    intros [? ?]; discriminate. }
  unfold Phone.pattern. split.
  - intros (found & H).
    apply in_exec_Cat in H. destruct H as (s0 & H0 & H).
    apply in_exec_Cat in H. destruct H as (s1 & H1 & H).
    apply in_exec_Bol in H0. destruct H0 as (_ & ->).
    apply exec_Rep_Digit in H1. destruct H1 as (ds & Lds & Dds & R & _).
    apply in_exec_Eol in H. destruct H as (E & _). cbn in R.
    exists ds. repeat split; try assumption.
    destruct E as [E|E]; rewrite E in R; [left | right]; [now rewrite app_nil_r in R | assumption].
  - intros (ds & Lds & Dds & E).
    exists {| pos := 10; rest := if list_eq_dec Z.eq_dec s ds then [] else [10];
              groups := [] |}.
    apply in_exec_Cat. exists (start s). split; [now apply in_exec_Bol|].
    apply in_exec_Cat. eexists. split; [|apply in_exec_Eol; split; [|reflexivity]].
    + apply exec_Rep_Digit. exists ds. repeat split; try assumption.
      * cbn. destruct (list_eq_dec Z.eq_dec s ds) as [->|N].
        -- now rewrite app_nil_r.
        -- destruct E; congruence.
      * cbn. lia.
    + cbn. destruct (list_eq_dec Z.eq_dec s ds); auto.
Qed.

End ValidateFacts.

(** ** The concrete pickle satisfies the law *)

Lemma dec_enc_str s r : dec_str (enc_str s ++ r) = Some (s, r).
Proof.
  unfold dec_str, enc_str. cbn [app].
  rewrite Nat2Z.id, length_app.
  replace (0 <=? Z.of_nat (List.length s)) with true by (symmetry; apply Z.leb_le; lia).
  replace (List.length s <=? List.length s + List.length r)%nat with true
    by (symmetry; apply Nat.leb_le; lia).
  cbn [andb]. rewrite firstn_app, skipn_app, Nat.sub_diag, firstn_all, skipn_all.
  cbn. now rewrite app_nil_r.
Qed.

Lemma dec_enc_items {A} (enc : A -> bytes) dec :
  (forall x r, dec (enc x ++ r) = Some (x, r)) ->
  forall l r, dec_count dec (Z.of_nat (List.length l) :: flat_map enc l ++ r) = Some (l, r).
Proof.
  intros H l r. unfold dec_count.
  replace (0 <=? Z.of_nat (List.length l)) with true by (symmetry; apply Z.leb_le; lia).
  rewrite Nat2Z.id. induction l as [|x l IH]; cbn; [reflexivity|].
  rewrite <- app_assoc, H, IH. reflexivity.
Qed.

Lemma dec_enc_record x r : dec_record (enc_record x ++ r) = Some (x, r).
Proof.
  unfold dec_record, enc_record, enc_phones. destruct x as [[n] ps bd].
  cbn [Record_.name Record_.phones Record_.birthday Name.value].
  rewrite <- !app_assoc.
  rewrite (dec_enc_str n). cbn [app].
  rewrite (dec_enc_items (fun p => enc_str (Phone.value p)) dec_phone).
  - destruct bd as [[s]|]; cbn [enc_birthday dec_birthday app Birthday.value];
      [|reflexivity].
    now rewrite (dec_enc_str s r).
  - intros [s] r'. unfold dec_phone. cbn [Phone.value].
    now rewrite (dec_enc_str s r').
Qed.

Lemma dec_enc_item x r : dec_item (enc_item x ++ r) = Some (x, r).
Proof.
  unfold dec_item, enc_item. destruct x as [k v]. cbn [fst snd].
  rewrite <- app_assoc. rewrite (dec_enc_str k).
  now rewrite (dec_enc_record v r).
Qed.

Lemma prefixed_pickle_laws : PickleLaws prefixed_pickle.
Proof.
  split. intros book. cbn [loads dumps prefixed_pickle].
  rewrite <- (app_nil_r (flat_map enc_item book)).
  now rewrite (dec_enc_items enc_item dec_item dec_enc_item).
Qed.

#[export] Existing Instance prefixed_pickle_laws.

(** ** Facts about records and books *)

Lemma str_eqb_eq a b : str_eqb a b = true <-> a = b.
Proof.
  unfold str_eqb. destruct (list_eq_dec Z.eq_dec a b); split; congruence.
Qed.

Lemma str_eqb_refl a : str_eqb a a = true.
Proof. now apply str_eqb_eq. Qed.

Lemma str_eqb_neq a b : str_eqb a b = false <-> a <> b.
Proof.
  unfold str_eqb. destruct (list_eq_dec Z.eq_dec a b); split; congruence.
Qed.

(** Removing the object that [find] returned removes the first element that
    carries the value. *)
Lemma list_remove_found old l phone :
  find (fun p => str_eqb (Phone.value p) old) l = Some phone ->
  list_remove Record_.same_phone phone l = Ok (remove_first old l).
Proof.
  induction l as [|p l IH]; cbn; [discriminate|].
  unfold Record_.same_phone at 1.
  destruct (str_eqb (Phone.value p) old) eqn:E.
  - intros [= <-]. now rewrite str_eqb_refl.
  - intros F. pose proof (find_some _ _ F) as (_ & V). apply str_eqb_eq in V.
    rewrite V, E. now rewrite IH.
Qed.

Lemma find_phone_present old self :
  In old (map Phone.value (Record_.phones self)) ->
  exists phone, Record_.find_phone old self = Some phone.
Proof.
  unfold Record_.find_phone. intros I. apply in_map_iff in I.
  destruct I as (p & V & I).
  destruct (find _ _) as [q|] eqn:F; [eauto|].
  apply (find_none _ _ F) in I. rewrite V, str_eqb_refl in I. discriminate.
Qed.

Lemma keys_setitem key value data :
  AddressBook.keys (AddressBook.setitem key value data)
  = if existsb (fun k => str_eqb k key) (AddressBook.keys data)
    then AddressBook.keys data
    else AddressBook.keys data ++ [key].
Proof.
  unfold AddressBook.keys.
  induction data as [|[k v] data IH]; cbn; [reflexivity|].
  destruct (str_eqb k key) eqn:E; cbn; [reflexivity|].
  rewrite IH. now destruct (existsb _ _).
Qed.

Lemma setitem_NoDup key value data :
  NoDup (AddressBook.keys data) ->
  NoDup (AddressBook.keys (AddressBook.setitem key value data)).
Proof.
  intros N. rewrite keys_setitem.
  destruct (existsb _ _) eqn:E; [assumption|].
  apply NoDup_app; [assumption | repeat constructor; intros [] |].
  intros k Ik [-> | []].
  assert (existsb (fun k' => str_eqb k' k) (AddressBook.keys data) = true)
    by (apply existsb_exists; exists k; split; [assumption | apply str_eqb_refl]).
  congruence.
Qed.

Lemma get_setitem key value data :
  AddressBook.get key (AddressBook.setitem key value data) = Some value.
Proof.
  unfold AddressBook.get.
  induction data as [|[k v] data IH]; cbn.
  - now rewrite str_eqb_refl.
  - destruct (str_eqb k key) eqn:E; cbn; rewrite E; [reflexivity | exact IH].
Qed.

Lemma filter_absent key (data : AddressBook.t) :
  ~ In key (AddressBook.keys data) ->
  filter (fun kv => str_eqb (fst kv) key) data = [].
Proof.
  induction data as [|[k v] data IH]; cbn; intros N; [reflexivity|].
  destruct (str_eqb k key) eqn:E.
  - apply str_eqb_eq in E. tauto.
  - apply IH. tauto.
Qed.

Lemma entries_setitem key value data :
  NoDup (AddressBook.keys data) ->
  filter (fun kv => str_eqb (fst kv) key) (AddressBook.setitem key value data)
  = [(key, value)].
Proof.
  induction data as [|[k v] data IH]; cbn; intros N.
  - now rewrite str_eqb_refl.
  - inversion N as [|? ? Nk N']; subst.
    destruct (str_eqb k key) eqn:E; cbn; rewrite E.
    + apply str_eqb_eq in E. subst k. f_equal. now apply filter_absent.
    + now apply IH.
Qed.

(** ** Claims: records and books *)

(** C5.  [edit_phone] with a new number that fails validation raises the
    validation error and leaves the record as it was: the phone sequence is
    unchanged, and looking up the old number gives what it gave before. *)
Theorem edit_phone_atomic {U : UnicodeData} (self : Record_.t)
    (old_phone new_phone : str) :
  Phone.validate new_phone = false ->
  let '(outcome, self') := Record_.edit_phone old_phone new_phone self in
  outcome = Raise (ValueError "New phone number must be a string of 10 digits.")
  /\ self' = self
  /\ Record_.phones self' = Record_.phones self
  /\ Record_.find_phone old_phone self' = Record_.find_phone old_phone self.
Proof.
  intros V. unfold Record_.edit_phone. rewrite V. cbn [negb]. auto.
Qed.

Lemma edit_phone_atomic_witness :
  Phone.validate (lit "123") = false
  /\ let '(outcome, self') :=
       Record_.edit_phone (lit "0501234567") (lit "123") bob in
     outcome = Raise (ValueError "New phone number must be a string of 10 digits.")
     /\ self' = bob
     /\ Record_.phones self' = Record_.phones bob
     /\ Record_.find_phone (lit "0501234567") self'
        = Record_.find_phone (lit "0501234567") bob.
Proof.
  split; [reflexivity|].
  apply (edit_phone_atomic bob (lit "0501234567") (lit "123")). reflexivity.
Defined.

Lemma remove_first_split old (before after : list Phone.t) phone :
  Phone.value phone = old ->
  ~ In old (map Phone.value before) ->
  remove_first old (before ++ phone :: after) = before ++ after.
Proof.
  intros E N. induction before as [|p before IH]; cbn [app remove_first].
  - rewrite E, str_eqb_refl. reflexivity.
  - cbn [map] in N.
    assert (D : str_eqb (Phone.value p) old = false).
    { apply str_eqb_neq. intros H. apply N. now left. }
    rewrite D. f_equal. apply IH. intros H. apply N. now right.
Qed.

(** C8.  When the old number is present and the new one is valid,
    [edit_phone] and [remove_phone] followed by [add_phone] both succeed and
    leave the same record, whose phone sequence is the one before with the
    first occurrence of the old number taken out and the new number put at
    the end: with [before] the phones ahead of the first one that carries
    the old number and [after] those behind it, the sequence is [before],
    [after], the new number.  Name and birthday are as they were. *)
Theorem edit_phone_remove_add {U : UnicodeData} (self : Record_.t)
    (old_phone new_phone : str) :
  In old_phone (map Phone.value (Record_.phones self)) ->
  Phone.validate new_phone = true ->
  let edited := Record_.edit_phone old_phone new_phone self in
  let chained :=
    (Record_.remove_phone old_phone ;;; Record_.add_phone new_phone) self in
  fst edited = Ok tt
  /\ fst chained = Ok tt
  /\ Record_.phones (snd edited) = Record_.phones (snd chained)
  /\ Record_.phones (snd edited)
     = remove_first old_phone (Record_.phones self) ++ [Phone.mk new_phone]
  /\ (forall before phone after,
        Record_.phones self = before ++ phone :: after ->
        Phone.value phone = old_phone ->
        ~ In old_phone (map Phone.value before) ->
        Record_.phones (snd edited) = before ++ after ++ [Phone.mk new_phone])
  /\ Record_.name (snd edited) = Record_.name self
  /\ Record_.birthday (snd edited) = Record_.birthday self
  /\ snd edited = snd chained.
Proof.
  intros I V edited chained.
  assert (E : edited = chained).
  { destruct (find_phone_present _ _ I) as (phone & F).
    unfold edited, chained, Record_.edit_phone. rewrite V, F. reflexivity. }
  assert (C : chained
              = (Ok tt,
                 {| Record_.name := Record_.name self;
                    Record_.phones :=
                      remove_first old_phone (Record_.phones self)
                      ++ [Phone.mk new_phone];
                    Record_.birthday := Record_.birthday self |})).
  { destruct (find_phone_present _ _ I) as (phone & F).
    unfold chained, mbind, Record_.remove_phone. rewrite F.
    unfold Record_.find_phone in F. rewrite (list_remove_found _ _ _ F).
    unfold Record_.add_phone, Phone.new. rewrite V. cbn [negb].
    reflexivity. }
  rewrite E, C. cbn [fst snd Record_.phones Record_.name Record_.birthday].
  split; [reflexivity|]. split; [reflexivity|]. split; [reflexivity|].
  split; [reflexivity|]. split; [|repeat split].
  intros before phone after S Ev N. rewrite S.
  rewrite (remove_first_split old_phone before after phone Ev N).
  now rewrite <- app_assoc.
Qed.

Lemma edit_phone_remove_add_witness :
  Record_.phones
    (snd (Record_.edit_phone (lit "0501234567") (lit "0441112233") bob))
  = [Phone.mk (lit "0679876543"); Phone.mk (lit "0441112233")]
  /\ Record_.phones
       (snd ((Record_.remove_phone (lit "0501234567") ;;;
              Record_.add_phone (lit "0441112233")) bob))
     = [Phone.mk (lit "0679876543"); Phone.mk (lit "0441112233")].
Proof.
  destruct (edit_phone_remove_add bob (lit "0501234567") (lit "0441112233"))
    as (_ & _ & Same & _ & Split & _).
  - cbn. auto.
  - reflexivity.
  - rewrite <- Same.
    assert (E : Record_.phones
                  (snd (Record_.edit_phone (lit "0501234567")
                          (lit "0441112233") bob))
                = [] ++ [Phone.mk (lit "0679876543")]
                  ++ [Phone.mk (lit "0441112233")]).
    { apply (Split [] (Phone.mk (lit "0501234567"))
                   [Phone.mk (lit "0679876543")]).
      - reflexivity.
      - reflexivity.
      - intros []. }
    split; exact E.
Defined.

(** C9.  In a book (a dict: its keys are distinct) [add_record] of two
    records with one name leaves exactly one entry under that name, the
    second record, and the keys of the book are still distinct. *)
Theorem add_record_twice (book : AddressBook.t) (r1 r2 : Record_.t) :
  NoDup (AddressBook.keys book) ->
  Record_.name r1 = Record_.name r2 ->
  let key := Name.value (Record_.name r2) in
  let book' := AddressBook.add_record r2 (AddressBook.add_record r1 book) in
  filter (fun kv => str_eqb (fst kv) key) book' = [(key, r2)]
  /\ AddressBook.get key book' = Some r2
  /\ NoDup (AddressBook.keys book').
Proof.
  intros N E key book'. unfold book', AddressBook.add_record. fold key.
  rewrite E. fold key.
  assert (N1 : NoDup (AddressBook.keys (AddressBook.setitem key r1 book)))
    by now apply setitem_NoDup.
  repeat split.
  - now apply entries_setitem.
  - apply get_setitem.
  - now apply setitem_NoDup.
Qed.

Lemma add_record_twice_witness :
  let key := lit "Bob" in
  let book' := AddressBook.add_record bob2 (AddressBook.add_record bob []) in
  filter (fun kv => str_eqb (fst kv) key) book' = [(key, bob2)]
  /\ AddressBook.get key book' = Some bob2
  /\ NoDup (AddressBook.keys book').
Proof.
  apply (add_record_twice [] bob bob2).
  - constructor.
  - reflexivity.
Defined.

(** ** Claims: validation *)

(** C4 (defect).  The phone validator accepts a string of eleven characters:
    ten digits followed by a newline, because [$] also matches before a
    final newline. *)
Theorem Phone_validate_trailing_newline :
  Phone.validate (lit "1234567890" ++ [10]) = true.
Proof. reflexivity. Qed.

(** It also accepts ten digits that are not ASCII (here Arabic-Indic), since
    [\d] is any Unicode decimal digit. *)
Example Phone_validate_arabic_indic :
  Phone.validate [1632; 1633; 1634; 1635; 1636; 1637; 1638; 1639; 1640; 1641]
  = true.
Proof. reflexivity. Qed.

(** C3, as stated, fails: the day and the month may have one digit. *)
Lemma Birthday_validate_one_digit :
  Birthday.validate (lit "1.1.2020") = Ok true.
Proof. reflexivity. Qed.

Section BirthdayValidate.
Context {U : UnicodeData} {L : UnicodeLaws U}.

Lemma Birthday_validate_of_text s dt mt yt y m d :
  s = dmy_text dt mt yt ->
  day_text dt = true -> month_text mt = true -> year_text yt = true ->
  datetime.int dt = Ok d -> datetime.int mt = Ok m -> datetime.int yt = Ok y ->
  Birthday.validate s = Ok (datetime.check_date_fields y m d).
Proof.
  intros. unfold Birthday.validate.
  rewrite (strptime_of_text s dt mt yt y m d) by assumption.
  destruct (datetime.new y m d) as [date|e] eqn:N.
  - apply new_ok in N. destruct N as (-> & _). reflexivity.
  - destruct (datetime.check_date_fields y m d) eqn:V.
    + assert (datetime.new y m d = Ok (datetime.mkdate y m d))
        by (apply new_ok; auto). congruence.
    + apply new_raises_ValueError in N. destruct N as [msg ->]. reflexivity.
Qed.

Lemma year_text_digits a b c d :
  0 <= a <= 9 -> 0 <= b <= 9 -> 0 <= c <= 9 -> 0 <= d <= 9 ->
  year_text [datetime.digit_chr a; datetime.digit_chr b;
             datetime.digit_chr c; datetime.digit_chr d] = true.
Proof.
  intros. unfold year_text. cbn [List.length Nat.eqb forallb andb].
  now rewrite !is_decimal_digit_chr by assumption.
Qed.

(** C3, amended.  The validator always answers; it answers true exactly for
    the texts made of a day, a dot, a month, a dot and a year, where the day
    is one or two digits (3[0-1], [1-2] and a digit, 0[1-9], [1-9], or a
    space and [1-9]), the month is one or two digits (1[0-2], 0[1-9], [1-9]),
    the year is four digits, and the three numbers are an existing date with
    a year from 1 to 9999.  So every date written DD.MM.YYYY is accepted,
    "31.02.2024" and "00.01.2020" are rejected, and "1.1.2020" is accepted. *)
Theorem Birthday_validate_spec :
  (forall s, Birthday.validate s = Ok true \/ Birthday.validate s = Ok false)
  /\ (forall s,
        Birthday.validate s = Ok true <->
        exists dt mt yt y m d,
          s = dt ++ [chr "."] ++ mt ++ [chr "."] ++ yt
          /\ day_text dt = true /\ month_text mt = true /\ year_text yt = true
          /\ datetime.int dt = Ok d /\ datetime.int mt = Ok m
          /\ datetime.int yt = Ok y
          /\ datetime.check_date_fields y m d = true)
  /\ (forall date, datetime.valid date ->
        Birthday.validate (datetime.strftime_dmY date) = Ok true)
  /\ Birthday.validate (lit "31.02.2024") = Ok false
  /\ Birthday.validate (lit "00.01.2020") = Ok false
  /\ Birthday.validate (lit "1.1.2020") = Ok true.
Proof.
  split; [exact Birthday_validate_total|].
  assert (Spec : forall s,
        Birthday.validate s = Ok true <->
        exists dt mt yt y m d,
          s = dt ++ [chr "."] ++ mt ++ [chr "."] ++ yt
          /\ day_text dt = true /\ month_text mt = true /\ year_text yt = true
          /\ datetime.int dt = Ok d /\ datetime.int mt = Ok m
          /\ datetime.int yt = Ok y
          /\ datetime.check_date_fields y m d = true).
  { intros s. rewrite Birthday_validate_true. split.
    - intros (date & H). apply strptime_dmY in H.
      destruct H as (dt & mt & yt & y & m & d & H). exists dt, mt, yt, y, m, d.
      unfold dmy_text in H. intuition.
    - intros (dt & mt & yt & y & m & d & H).
      exists (datetime.mkdate y m d). apply strptime_dmY.
      exists dt, mt, yt, y, m, d. unfold dmy_text. intuition. }
  split; [exact Spec|].
  split.
  { intros date V. apply Birthday_validate_true. exists date.
    now apply strptime_strftime. }
  split.
  { rewrite (Birthday_validate_of_text (lit "31.02.2024")
               [datetime.digit_chr 3; datetime.digit_chr 1]
               [datetime.digit_chr 0; datetime.digit_chr 2]
               [datetime.digit_chr 2; datetime.digit_chr 0;
                datetime.digit_chr 2; datetime.digit_chr 4] 2024 2 31);
      try reflexivity.
    - apply year_text_digits; lia.
    - apply (int_2_digits 3 1); lia.
    - apply (int_2_digits 0 2); lia.
    - apply (int_4_digits 2 0 2 4); lia. }
  split.
  { destruct (Birthday_validate_total (lit "00.01.2020")) as [T|F];
      [exfalso | exact F].
    apply Spec in T. destruct T as (dt & mt & yt & y & m & d & Es & Td & _).
    destruct dt as [|a [|b [|? ?]]]; try discriminate Td;
      cbn in Es; injection Es; intros; subst; discriminate Td. }
  rewrite (Birthday_validate_of_text (lit "1.1.2020")
             [datetime.digit_chr 1] [datetime.digit_chr 1]
             [datetime.digit_chr 2; datetime.digit_chr 0;
              datetime.digit_chr 2; datetime.digit_chr 0] 2020 1 1);
    try reflexivity.
  - apply year_text_digits; lia.
  - apply (int_digit 1); lia.
  - apply (int_digit 1); lia.
  - apply (int_4_digits 2 0 2 0); lia.
Qed.

End BirthdayValidate.

Lemma Birthday_validate_spec_witness :
  datetime.valid (datetime.mkdate 2024 2 29)
  /\ Birthday.validate (lit "29.02.2024") = Ok true.
Proof.
  split; [reflexivity|].
  exact (proj1 (proj2 (proj2 (@Birthday_validate_spec excerpt excerpt_laws)))
           (datetime.mkdate 2024 2 29) eq_refl).
Defined.

(** ** Claims: persistence *)

Lemma place_eqb_refl f : place_eqb f f = true.
Proof. destruct f. apply str_eqb_refl. Qed.

Lemma place_eqb_neq a b : place_eqb a b = false <-> a <> b.
Proof.
  destruct a as [x], b as [y]. cbn [place_eqb]. rewrite str_eqb_neq.
  split; intros H E; apply H; congruence.
Qed.

(** What [load_data] gets right: on a path with nothing at it it returns an
    empty book, and an error of opening or reading the file, or of
    unpickling its content, other than [FileNotFoundError], reaches the
    caller unchanged. *)
Lemma load_data_errors {P : Pickle} (filename : str) (fs : filesystem) :
  (node_at fs (locate fs filename) = None ->
     load_data filename fs = Ok AddressBook.empty)
  /\ (forall e, open_rb filename fs = Raise e -> e <> FileNotFoundError ->
        load_data filename fs = Raise e)
  /\ (forall content e,
        open_rb filename fs = Ok content -> loads content = Raise e ->
        e <> FileNotFoundError -> load_data filename fs = Raise e).
Proof.
  unfold load_data. repeat split.
  - intros H. unfold open_rb. now rewrite H.
  - intros e H N. rewrite H. cbn [bind]. now destruct e.
  - intros content e H H' N. rewrite H. cbn [bind]. rewrite H'. now destruct e.
Qed.

Lemma load_data_errors_witness :
  load_data DEFAULT_FILENAME sample_fs = Ok AddressBook.empty
  /\ load_data (lit "backup") sample_fs = Raise IsADirectoryError
  /\ load_data (lit "locked.pkl") sample_fs = Raise PermissionError
  /\ load_data (lit "notes.txt") sample_fs = Raise UnpicklingError.
Proof.
  split; [|split; [|split]].
  - apply (proj1 (load_data_errors DEFAULT_FILENAME sample_fs)). reflexivity.
  - apply (proj1 (proj2 (load_data_errors (lit "backup") sample_fs)));
      [reflexivity | discriminate].
  - apply (proj1 (proj2 (load_data_errors (lit "locked.pkl") sample_fs)));
      [reflexivity | discriminate].
  - apply (proj2 (proj2 (load_data_errors (lit "notes.txt") sample_fs)) [7]);
      [reflexivity | reflexivity | discriminate].
Defined.

(** The handler of [load_data] encloses the unpickling too: when the file
    is there and read, and unpickling its content raises
    [FileNotFoundError], that error is taken for a missing file. *)
Lemma load_data_swallows {P : Pickle} (filename : str) (fs : filesystem)
    (content : bytes) :
  open_rb filename fs = Ok content ->
  loads content = Raise FileNotFoundError ->
  load_data filename fs = Ok AddressBook.empty.
Proof. intros R L. unfold load_data. rewrite R. cbn [bind]. now rewrite L. Qed.

(** C6.  The claim fails where the file exists: the default file is there,
    can be read and holds a stream whose unpickling raises
    [FileNotFoundError]; [load_data] does not let that error through but
    returns an empty book, as if there were no file. *)
Theorem load_data_swallows_unpickling_error :
  node_at crafted_fs (locate crafted_fs DEFAULT_FILENAME)
  = Some (File true true open_call_stream)
  /\ open_rb DEFAULT_FILENAME crafted_fs = Ok open_call_stream
  /\ @loads calling_pickle open_call_stream = Raise FileNotFoundError
  /\ @load_data calling_pickle DEFAULT_FILENAME crafted_fs
     = Ok AddressBook.empty.
Proof.
  assert (R : open_rb DEFAULT_FILENAME crafted_fs = Ok open_call_stream)
    by reflexivity.
  assert (L : @loads calling_pickle open_call_stream = Raise FileNotFoundError)
    by reflexivity.
  split; [reflexivity|]. split; [exact R|]. split; [exact L|].
  exact (@load_data_swallows calling_pickle _ _ _ R L).
Qed.

(** What [save_data] does, case by case: it leaves where paths lead and
    every other place alone; when it returns, the file holds the pickled
    book; when it raises, either [open] failed and nothing has changed, or
    the writing failed and the file, already cut, holds a beginning of the
    pickled book that is not all of it. *)
Lemma save_data_cases {P : Pickle} (book : AddressBook.t) (filename : str)
    (fs : filesystem) :
  let f := locate fs filename in
  let outcome := fst (save_data book filename fs) in
  let fs' := snd (save_data book filename fs) in
  locate fs' = locate fs
  /\ (forall p, p <> f -> node_at fs' p = node_at fs p)
  /\ match outcome with
     | Ok _ => exists r w, node_at fs' f = Some (File r w (dumps book))
     | Raise e =>
         fs' = fs
         \/ exists r w n,
              write_error fs f = Some (n, e)
              /\ (n < List.length (dumps book))%nat
              /\ node_at fs' f = Some (File r w (firstn n (dumps book)))
     end.
Proof.
  cbv zeta. unfold save_data, open_wb, dump.
  set (f := locate fs filename).
  assert (Step : forall r w,
    let fs1 := write_file f (File r w []) fs in
    let out := write_and_close f (dumps book) fs1 in
    locate (snd out) = locate fs
    /\ (forall p, p <> f -> node_at (snd out) p = node_at fs p)
    /\ match fst out with
       | Ok _ => exists r w, node_at (snd out) f = Some (File r w (dumps book))
       | Raise e =>
           snd out = fs
           \/ exists r w n,
                write_error fs f = Some (n, e)
                /\ (n < List.length (dumps book))%nat
                /\ node_at (snd out) f = Some (File r w (firstn n (dumps book)))
       end).
  { intros r w. cbv zeta. unfold write_and_close.
    cbn [write_file node_at write_error]. rewrite place_eqb_refl.
    assert (Other : forall n1 n2 p, p <> f ->
              node_at (write_file f n2 (write_file f n1 fs)) p = node_at fs p).
    { intros n1 n2 p D. cbn [write_file node_at].
      apply place_eqb_neq in D. now rewrite D. }
    assert (Here : forall n1 n2,
              node_at (write_file f n2 (write_file f n1 fs)) f = Some n2).
    { intros n1 n2. cbn [write_file node_at]. now rewrite place_eqb_refl. }
    destruct (write_error fs f) as [[n e]|] eqn:We.
    - destruct (n <? List.length (dumps book))%nat eqn:Lt; cbn [fst snd app].
      + split; [reflexivity|]. split; [now apply Other|].
        right. exists r, w, n. split; [reflexivity|].
        split; [now apply Nat.ltb_lt | apply Here].
      + split; [reflexivity|]. split; [now apply Other|].
        exists r, w. apply Here.
    - cbn [fst snd app]. split; [reflexivity|]. split; [now apply Other|].
      exists r, w. apply Here. }
  destruct (node_at fs f) as [[r w c|]|].
  - destruct w.
    + apply (Step r true).
    + cbn [fst snd]. split; [reflexivity|]. split; [reflexivity|]. now left.
  - cbn [fst snd]. split; [reflexivity|]. split; [reflexivity|]. now left.
  - destruct (create_error fs filename).
    + cbn [fst snd]. split; [reflexivity|]. split; [reflexivity|]. now left.
    + apply (Step true true).
Qed.

(** Saving to a free path that can be created and written succeeds, and
    the file can be read back. *)
Lemma save_data_fresh {P : Pickle} (book : AddressBook.t) (filename : str)
    (fs : filesystem) :
  node_at fs (locate fs filename) = None ->
  create_error fs filename = None ->
  write_error fs (locate fs filename) = None ->
  exists fs', save_data book filename fs = (Ok tt, fs')
              /\ open_rb filename fs' = Ok (dumps book).
Proof.
  intros N C W. unfold save_data, open_wb, dump, write_and_close.
  rewrite N, C. cbn [write_file node_at write_error].
  rewrite place_eqb_refl, W. eexists. split; [reflexivity|].
  unfold open_rb. cbn [write_file node_at locate app].
  now rewrite place_eqb_refl.
Qed.

(** C2.  After [save_data] has written a book to a file that can be read,
    [load_data] of that file returns the book itself: the same names in the
    same order, and under each name the record with the same phone sequence
    and the same birthday. *)
Theorem save_load_roundtrip {P : Pickle} {PL : PickleLaws P}
    (book : AddressBook.t) (filename : str) (fs fs' : filesystem) :
  save_data book filename fs = (Ok tt, fs') ->
  (exists content, open_rb filename fs' = Ok content) ->
  exists loaded,
    load_data filename fs' = Ok loaded
    /\ loaded = book
    /\ AddressBook.keys loaded = AddressBook.keys book
    /\ forall name record,
         AddressBook.get name book = Some record ->
         exists record',
           AddressBook.get name loaded = Some record'
           /\ Record_.phones record' = Record_.phones record
           /\ Record_.birthday record' = Record_.birthday record.
Proof.
  intros S (content & R). exists book.
  assert (C : content = dumps book).
  { pose proof (save_data_cases book filename fs) as H. cbv zeta in H.
    rewrite S in H. cbn [fst snd] in H. destruct H as (L & _ & r & w & N).
    unfold open_rb in R. rewrite L, N in R. destruct r; congruence. }
  subst content. unfold load_data. rewrite R. cbn [bind].
  rewrite loads_dumps. repeat split. eauto.
Qed.

Lemma save_load_roundtrip_witness :
  let book := AddressBook.add_record bob2 (AddressBook.add_record alice []) in
  let fs' := snd (save_data book DEFAULT_FILENAME sample_fs) in
  exists loaded,
    load_data DEFAULT_FILENAME fs' = Ok loaded
    /\ loaded = book
    /\ AddressBook.keys loaded = AddressBook.keys book
    /\ forall name record,
         AddressBook.get name book = Some record ->
         exists record',
           AddressBook.get name loaded = Some record'
           /\ Record_.phones record' = Record_.phones record
           /\ Record_.birthday record' = Record_.birthday record.
Proof.
  intros book fs'.
  apply (save_load_roundtrip book DEFAULT_FILENAME sample_fs fs').
  - reflexivity.
  - eexists. reflexivity.
Defined.

(** ** Facts about the upcoming-birthdays query *)

Lemma replace_year_ok d y t :
  datetime.replace_year d y = Ok t <->
  datetime.valid (placed d y) /\ t = placed d y.
Proof. unfold datetime.replace_year, placed, datetime.valid. apply new_ok. Qed.

Lemma fromordinal_ok n :
  1 <= n <= datetime.MAXORDINAL ->
  exists g, datetime.fromordinal n = Ok g /\ datetime.valid g
            /\ datetime.toordinal g = n.
Proof.
  intros H. pose proof (DateFacts.ord2ymd_spec n H) as S.
  unfold datetime.fromordinal. destruct (datetime.ord2ymd n) as [[y m] d].
  destruct S as (V & O). exists (datetime.mkdate y m d).
  repeat split; try assumption. apply new_ok. auto.
Qed.

Lemma toordinal_bounds d :
  datetime.valid d -> 1 <= datetime.toordinal d <= datetime.MAXORDINAL.
Proof. apply DateFacts.ymd2ord_bounds. Qed.

Lemma weekday_range d : 0 <= datetime.weekday d <= 6.
Proof. unfold datetime.weekday. Z.div_mod_to_equations. lia. Qed.

(** The rollover of a date succeeds; it moves a Saturday or Sunday to the
    Monday after it and leaves any other day. *)
Lemma rollover_ok d :
  datetime.valid d ->
  exists g, rollover d = Ok g /\ datetime.valid g
    /\ datetime.toordinal g
       = datetime.toordinal d + (if is_weekend d then 7 - datetime.weekday d else 0)
    /\ 0 <= datetime.weekday g <= 4
    /\ (is_weekend d = true -> datetime.weekday g = 0).
Proof.
  intros V. pose proof (toordinal_bounds d V) as B.
  pose proof (weekday_range d) as W.
  unfold rollover. destruct (is_weekend d) eqn:E.
  - unfold is_weekend in E.
    assert (Wd : datetime.weekday d = 5 \/ datetime.weekday d = 6)
      by (tests_to_props; auto).
    unfold datetime.add_days.
    assert (Bo : 1 <= datetime.toordinal d + (7 - datetime.weekday d)
                 <= datetime.MAXORDINAL).
    { unfold datetime.weekday, datetime.MAXORDINAL in *.
      Z.div_mod_to_equations. lia. }
    replace ((0 <? _) && (_ <=? datetime.MAXORDINAL)) with true
      by (symmetry; apply andb_true_iff; split;
          [apply Z.ltb_lt | apply Z.leb_le]; lia).
    destruct (fromordinal_ok _ Bo) as (g & F & Vg & Og).
    exists g. repeat split; try assumption.
    + unfold datetime.weekday in *. rewrite Og. Z.div_mod_to_equations. lia.
    + unfold datetime.weekday in *. rewrite Og. Z.div_mod_to_equations. lia.
    + unfold datetime.weekday in *. rewrite Og. Z.div_mod_to_equations. lia.
  - exists d. pose proof E as E'. unfold is_weekend in E'.
    apply orb_false_iff in E'. rewrite !Z.eqb_neq in E'.
    repeat split; try assumption; try lia; try discriminate.
Qed.

Section Upcoming.
Context {U : UnicodeData}.

(** What one turn of the loop does, step by step. *)
Lemma upcoming_unfold today record b bday :
  Record_.birthday record = Some b ->
  datetime.strptime (Birthday.value b) Birthday.FORMAT = Ok bday ->
  datetime.valid (placed bday (datetime.year today)) ->
  datetime.valid (next_birthday today bday) ->
  AddressBook.upcoming today record
  = (let target := next_birthday today bday in
     let ahead := datetime.toordinal target - datetime.toordinal today in
     if (0 <=? ahead) && (ahead <? 7) then
       g <- rollover target ;;
       Ok [{| entry_name := Name.value (Record_.name record);
              congratulate_on := datetime.strftime_dmY g |}]
     else Ok []).
Proof.
  intros Hb Hp V1 V2. unfold AddressBook.upcoming. rewrite Hb, Hp. cbn [bind].
  assert (R1 : datetime.replace_year bday (datetime.year today)
               = Ok (placed bday (datetime.year today)))
    by (apply replace_year_ok; auto).
  rewrite R1. cbn [bind]. unfold next_birthday in *.
  destruct (datetime.ltb _ today).
  - assert (R2 : datetime.replace_year (placed bday (datetime.year today))
                   (datetime.year today + 1)
                 = Ok (placed bday (datetime.year today + 1)))
      by (apply replace_year_ok; auto).
    rewrite R2. reflexivity.
  - reflexivity.
Qed.

(** If the loop body returns, the dates it built exist. *)
Lemma upcoming_returns today record es :
  AddressBook.upcoming today record = Ok es ->
  match Record_.birthday record with
  | None => es = []
  | Some b =>
      exists bday,
        datetime.strptime (Birthday.value b) Birthday.FORMAT = Ok bday
        /\ datetime.valid (placed bday (datetime.year today))
        /\ datetime.valid (next_birthday today bday)
  end.
Proof.
  unfold AddressBook.upcoming.
  destruct (Record_.birthday record) as [b|]; [|now intros [= <-]].
  destruct (datetime.strptime _ _) as [bday|] eqn:P; [|discriminate].
  cbn [bind]. exists bday. split; [reflexivity|].
  destruct (datetime.replace_year bday _) as [t|] eqn:R1; [|discriminate].
  apply replace_year_ok in R1. destruct R1 as (V1 & ->).
  split; [assumption|]. cbn [bind] in H. unfold next_birthday.
  destruct (datetime.ltb _ today); [|assumption].
  destruct (datetime.replace_year _ _) as [t|] eqn:R2; [|discriminate].
  apply replace_year_ok in R2. now destruct R2 as (V2 & _).
Qed.

Lemma upcoming_loop_ok today records acc result :
  AddressBook.upcoming_loop today records acc = Ok result <->
  exists ess,
    Forall2 (fun r es => AddressBook.upcoming today r = Ok es) records ess
    /\ result = acc ++ List.concat ess.
Proof.
  revert acc. induction records as [|r records IH]; intros acc; cbn.
  - split.
    + intros [= <-]. exists []. split; [constructor | now rewrite app_nil_r].
    + intros (ess & F & ->). inversion F. cbn. now rewrite app_nil_r.
  - destruct (AddressBook.upcoming today r) as [es|e] eqn:E; cbn [bind].
    + rewrite IH. split.
      * intros (ess & F & ->). exists (es :: ess). split; [now constructor|].
        cbn. now rewrite app_assoc.
      * intros (ess & F & ->). inversion F as [|? es' ? ess' E' F']; subst.
        exists ess'. split; [assumption|].
        cbn. rewrite app_assoc. congruence.
    + split; [discriminate|]. intros (ess & F & _). inversion F; congruence.
Qed.

Lemma upcoming_loop_raises today records acc record :
  In record records -> raises (AddressBook.upcoming today record) ->
  raises (AddressBook.upcoming_loop today records acc).
Proof.
  revert acc. induction records as [|r records IH]; intros acc; [intros []|].
  intros [-> | I] R; cbn.
  - destruct R as [e ->]. now exists e.
  - destruct (AddressBook.upcoming today r); cbn [bind]; [now apply IH|].
    now eexists.
Qed.

Lemma in_upcoming_result today records result e :
  AddressBook.upcoming_loop today records [] = Ok result ->
  In e result <->
  exists record es, In record records
    /\ AddressBook.upcoming today record = Ok es /\ In e es.
Proof.
  intros H. apply upcoming_loop_ok in H. destruct H as (ess & F & ->).
  cbn [app]. rewrite in_concat. split.
  - intros (es & Ies & Ie).
    induction F as [|r es' records ess E F IH]; [destruct Ies|].
    destruct Ies as [-> | Ies].
    + exists r, es. repeat split; [now left | assumption | assumption].
    + destruct (IH Ies) as (r' & es'' & ? & ? & ?). exists r', es''.
      repeat split; [now right | assumption | assumption].
  - intros (r & es & Ir & E & Ie).
    induction F as [|r' es' records ess E' F IH]; [destruct Ir|].
    destruct Ir as [-> | Ir].
    + exists es. split; [left; congruence | assumption].
    + destruct (IH Ir) as (es'' & ? & ?). exists es''. split; [now right | assumption].
Qed.

Lemma upcoming_loop_total today records acc :
  (forall r, In r records -> exists es, AddressBook.upcoming today r = Ok es) ->
  exists result, AddressBook.upcoming_loop today records acc = Ok result.
Proof.
  revert acc. induction records as [|r records IH]; intros acc H; cbn.
  - eauto.
  - destruct (H r (or_introl eq_refl)) as (es & ->). cbn [bind].
    apply IH. intros r' I. apply H. now right.
Qed.

End Upcoming.

Lemma NoDup_keys_functional {A B} (l : list (A * B)) k a b :
  NoDup (map fst l) -> In (k, a) l -> In (k, b) l -> a = b.
Proof.
  induction l as [|[k' v] l IH]; cbn; [intros _ []|].
  intros N Ia Ib. inversion N as [|? ? Nk N']; subst.
  destruct Ia as [Ea | Ia]; destruct Ib as [Eb | Ib].
  - congruence.
  - injection Ea as -> ->. exfalso. apply Nk. apply in_map_iff. now exists (k, b).
  - injection Eb as -> ->. exfalso. apply Nk. apply in_map_iff. now exists (k, a).
  - now apply IH.
Qed.

Lemma well_keyed_names book r r' :
  well_keyed book ->
  In r (AddressBook.values book) -> In r' (AddressBook.values book) ->
  Name.value (Record_.name r) = Name.value (Record_.name r') -> r = r'.
Proof.
  intros (N & K) I I' E. unfold AddressBook.values in *.
  apply in_map_iff in I, I'.
  destruct I as ([k v] & <- & I), I' as ([k' v'] & <- & I'). cbn [snd] in *.
  pose proof (K _ _ I) as Ek. pose proof (K _ _ I') as Ek'.
  assert (Ekk : k' = k) by congruence. rewrite Ekk in I'.
  exact (NoDup_keys_functional _ _ _ _ N I I').
Qed.

(** ** Claims: the upcoming-birthdays query *)

Section UpcomingClaims.
Context {U : UnicodeData}.

(** C7.  With a record whose birthday is a 29 February in the book, and a
    current year that is not a leap year, placing the birthday in the
    current year raises [ValueError], and so [get_upcoming_birthdays] raises
    instead of returning a list. *)
Theorem upcoming_birthdays_feb29 (today : datetime.date) (book : AddressBook.t)
    (record : Record_.t) (b : Birthday.t) (bday : datetime.date) :
  In record (AddressBook.values book) ->
  Record_.birthday record = Some b ->
  datetime.strptime (Birthday.value b) Birthday.FORMAT = Ok bday ->
  datetime.month bday = 2 -> datetime.day bday = 29 ->
  datetime.is_leap (datetime.year today) = false ->
  (exists msg, datetime.replace_year bday (datetime.year today)
               = Raise (ValueError msg))
  /\ raises (AddressBook.get_upcoming_birthdays today book).
Proof.
  intros I Hb Hp Hm Hd Leap.
  assert (R : exists msg, datetime.replace_year bday (datetime.year today)
                          = Raise (ValueError msg)).
  { unfold datetime.replace_year, datetime.new. rewrite Hm, Hd.
    unfold datetime.days_in_month. rewrite Leap.
    destruct (negb _); [eauto|]. vm_compute. eauto. }
  split; [exact R|].
  unfold AddressBook.get_upcoming_birthdays.
  apply (upcoming_loop_raises today _ [] record I).
  unfold AddressBook.upcoming. rewrite Hb, Hp. cbn [bind].
  destruct R as (msg & ->). cbn [bind]. now eexists.
Qed.

End UpcomingClaims.

Lemma upcoming_birthdays_feb29_witness :
  (exists msg, datetime.replace_year (datetime.mkdate 2000 2 29) 2023
               = Raise (ValueError msg))
  /\ raises (AddressBook.get_upcoming_birthdays (datetime.mkdate 2023 3 1)
               (AddressBook.add_record bob (AddressBook.add_record alice []))).
Proof.
  apply (upcoming_birthdays_feb29 (datetime.mkdate 2023 3 1)
           (AddressBook.add_record bob (AddressBook.add_record alice []))
           bob (Birthday.mk (lit "29.02.2000")) (datetime.mkdate 2000 2 29)).
  - cbn. auto.
  - reflexivity.
  - reflexivity.
  - reflexivity.
  - reflexivity.
  - reflexivity.
Defined.

Section UpcomingWeekdays.
Context {U : UnicodeData} {L : UnicodeLaws U}.

(** C10.  Whatever the book and the day, every entry that
    [get_upcoming_birthdays] returns carries the text of a date that falls on
    Monday to Friday. *)
Theorem greeting_not_on_weekend (today : datetime.date) (book : AddressBook.t)
    (result : list entry) :
  AddressBook.get_upcoming_birthdays today book = Ok result ->
  forall e, In e result ->
    exists g,
      datetime.strptime (congratulate_on e) Birthday.FORMAT = Ok g
      /\ 0 <= datetime.weekday g <= 4.
Proof.
  intros H e Ie. unfold AddressBook.get_upcoming_birthdays in H.
  apply (in_upcoming_result _ _ _ e H) in Ie.
  destruct Ie as (record & es & _ & E & Ie).
  pose proof (upcoming_returns _ _ _ E) as R.
  destruct (Record_.birthday record) as [b|] eqn:Hb; [|subst es; destruct Ie].
  destruct R as (bday & Hp & V1 & V2).
  rewrite (upcoming_unfold today record b bday Hb Hp V1 V2) in E. cbv zeta in E.
  destruct (_ && _); [|injection E as <-; destruct Ie].
  destruct (rollover_ok _ V2) as (g & Rg & Vg & _ & Wg & _).
  rewrite Rg in E. cbn [bind] in E. injection E as <-.
  destruct Ie as [<- | []]. cbn [congratulate_on].
  exists g. split; [now apply strptime_strftime | assumption].
Qed.

End UpcomingWeekdays.

Lemma greeting_not_on_weekend_witness :
  AddressBook.get_upcoming_birthdays (datetime.mkdate 2022 12 27) sample_book
  = Ok [{| entry_name := lit "Alice"; congratulate_on := lit "02.01.2023" |}]
  /\ exists g,
       datetime.strptime (lit "02.01.2023") Birthday.FORMAT = Ok g
       /\ 0 <= datetime.weekday g <= 4.
Proof.
  assert (H : AddressBook.get_upcoming_birthdays (datetime.mkdate 2022 12 27)
                sample_book
              = Ok [{| entry_name := lit "Alice";
                       congratulate_on := lit "02.01.2023" |}])
    by reflexivity.
  split; [exact H|].
  apply (greeting_not_on_weekend _ _ _ H
           {| entry_name := lit "Alice"; congratulate_on := lit "02.01.2023" |}).
  now left.
Defined.

(** What [strftime] writes for a date is the date as DD.MM.YYYY. *)
Lemma strftime_dmY_text d :
  datetime.valid d -> datetime.strftime_dmY d = DD_MM_YYYY d.
Proof.
  intros V. destruct d as [y m dd]. unfold datetime.valid in V. cbn in V.
  pose proof (DateFacts.valid_fields_bounds _ _ _ V) as (By & Bm & Bd).
  assert (Bd' : 1 <= dd <= 31)
    by (pose proof (DateFacts.days_in_month_bounds y m Bm); lia).
  unfold datetime.strftime_dmY, DD_MM_YYYY, datetime.digit_chr.
  cbn [datetime.day datetime.month datetime.year zero_padded app].
  change (chr ".") with 46.
  assert (Ed : dd / 10 = (dd / 10) mod 10) by (Z.div_mod_to_equations; lia).
  assert (Em : m / 10 = (m / 10) mod 10) by (Z.div_mod_to_equations; lia).
  assert (E3 : y / 1000 = (y / 10 / 10 / 10) mod 10)
    by (Z.div_mod_to_equations; lia).
  assert (E2 : y / 100 mod 10 = (y / 10 / 10) mod 10)
    by (Z.div_mod_to_equations; lia).
  now rewrite <- Ed, <- Em, <- E3, <- E2.
Qed.

Section UpcomingWindow.
Context {U : UnicodeData}.

(** C1.  Take a book whose birthdays can be placed in the current year, and
    in the next year where that is needed.  Then [get_upcoming_birthdays]
    returns a list, and for every record with a birthday: with [target] the
    birthday's month and day in the current year, or in the next year when
    that date is strictly before today, the list has an entry under the
    record's name if and only if [target] is 0 to 6 days after today; the
    entry's date is [target] itself, or, when [target] is a Saturday or a
    Sunday, [target] plus 7 minus its weekday, which is a Monday; the text
    of the entry is that date written as DD.MM.YYYY: two digits of the day,
    a dot, two digits of the month, a dot, four digits of the year. *)
Theorem upcoming_birthdays_window (today : datetime.date) (book : AddressBook.t) :
  well_keyed book ->
  (forall record b,
     In record (AddressBook.values book) -> Record_.birthday record = Some b ->
     exists bday,
       datetime.strptime (Birthday.value b) Birthday.FORMAT = Ok bday
       /\ datetime.valid (placed bday (datetime.year today))
       /\ datetime.valid (next_birthday today bday)) ->
  exists result,
    AddressBook.get_upcoming_birthdays today book = Ok result
    /\ forall record b bday,
         In record (AddressBook.values book) ->
         Record_.birthday record = Some b ->
         datetime.strptime (Birthday.value b) Birthday.FORMAT = Ok bday ->
         let target := next_birthday today bday in
         let ahead := datetime.toordinal target - datetime.toordinal today in
         exists greeting,
           (if is_weekend target
            then datetime.add_days target (7 - datetime.weekday target)
                 = Ok greeting
                 /\ datetime.toordinal greeting
                    = datetime.toordinal target + (7 - datetime.weekday target)
                 /\ datetime.weekday greeting = 0
            else greeting = target)
           /\ forall e,
                entry_name e = Name.value (Record_.name record) ->
                (In e result <->
                 0 <= ahead <= 6
                 /\ congratulate_on e = DD_MM_YYYY greeting).
Proof.
  intros WK Placeable.
  destruct (upcoming_loop_total today (AddressBook.values book) [])
    as (result & Hres).
  { intros r I. destruct (Record_.birthday r) as [b|] eqn:Hb.
    - destruct (Placeable r b I Hb) as (bday & Hp & V1 & V2).
      rewrite (upcoming_unfold today r b bday Hb Hp V1 V2). cbv zeta.
      destruct (_ && _); [|eauto].
      destruct (rollover_ok _ V2) as (g & -> & _). cbn [bind]. eauto.
    - unfold AddressBook.upcoming. rewrite Hb. eauto. }
  exists result. split; [exact Hres|].
  intros record b bday I Hb Hp target ahead.
  destruct (Placeable record b I Hb) as (bday' & Hp' & V1 & V2).
  assert (bday' = bday) by congruence. subst bday'.
  destruct (rollover_ok _ V2) as (g & Rg & Vg & Og & Wg & Mg).
  fold target in Rg, Og, Mg.
  assert (Up : AddressBook.upcoming today record
               = if (0 <=? ahead) && (ahead <? 7)
                 then Ok [{| entry_name := Name.value (Record_.name record);
                             congratulate_on := datetime.strftime_dmY g |}]
                 else Ok []).
  { rewrite (upcoming_unfold today record b bday Hb Hp V1 V2). cbv zeta.
    fold target. fold ahead. rewrite Rg. reflexivity. }
  exists g. split.
  - unfold rollover in Rg. destruct (is_weekend target); [|congruence].
    repeat split; [assumption | assumption | now apply Mg].
  - intros e Ee. rewrite (in_upcoming_result today _ result e Hres). split.
    + intros (r' & es & I' & E' & Ie).
      assert (r' = record).
      { apply (well_keyed_names book); try assumption.
        pose proof (upcoming_returns _ _ _ E') as R.
        destruct (Record_.birthday r') as [b'|] eqn:Hb'; [|subst es; destruct Ie].
        destruct R as (bd' & Hq & V1' & V2').
        rewrite (upcoming_unfold today r' b' bd' Hb' Hq V1' V2') in E'.
        cbv zeta in E'.
        match type of E' with
        | (if ?c then _ else _) = _ =>
            destruct c; [|injection E' as <-; destruct Ie]
        end.
        destruct (rollover (next_birthday today bd')); [|discriminate].
        cbn [bind] in E'.
        injection E' as <-. destruct Ie as [<- | []].
        cbn [entry_name] in Ee. congruence. }
      subst r'. rewrite Up in E'.
      destruct ((0 <=? ahead) && (ahead <? 7)) eqn:W;
        [|injection E' as <-; destruct Ie].
      injection E' as <-. destruct Ie as [<- | []]. cbn [congratulate_on].
      apply andb_true_iff in W. destruct W as (W1 & W2).
      apply Z.leb_le in W1. apply Z.ltb_lt in W2.
      split; [lia | now apply strftime_dmY_text].
    + intros (W & Ec).
      exists record, [{| entry_name := Name.value (Record_.name record);
                         congratulate_on := datetime.strftime_dmY g |}].
      split; [assumption|]. split.
      * rewrite Up.
        replace ((0 <=? ahead) && (ahead <? 7)) with true; [reflexivity|].
        symmetry. apply andb_true_iff. split; [apply Z.leb_le | apply Z.ltb_lt]; lia.
      * left. destruct e as [n c]. cbn [entry_name congratulate_on] in Ee, Ec.
        rewrite (strftime_dmY_text g Vg). now subst.
Qed.

End UpcomingWindow.

Lemma sample_book_well_keyed : well_keyed sample_book.
Proof.
  split.
  - repeat constructor; cbn; intuition discriminate.
  - intros key record I. cbn in I.
    repeat (destruct I as [I | I]; [injection I as <- <-; reflexivity|]).
    destruct I.
Qed.

Lemma upcoming_birthdays_window_witness :
  exists result,
    AddressBook.get_upcoming_birthdays (datetime.mkdate 2022 12 27) sample_book
    = Ok result
    /\ In {| entry_name := lit "Alice"; congratulate_on := lit "02.01.2023" |}
         result.
Proof.
  destruct (upcoming_birthdays_window (datetime.mkdate 2022 12 27) sample_book
              sample_book_well_keyed)
    as (result & E & H).
  - intros record b I Hb. cbn in I.
    destruct I as [<- | [<- | [<- | []]]]; try discriminate Hb;
      injection Hb as <-; eexists; (split; [reflexivity | split; reflexivity]).
  - exists result. split; [exact E|].
    destruct (H alice (Birthday.mk (lit "01.01.1990")) (datetime.mkdate 1990 1 1))
      as (greeting & G & Iff).
    + cbn. auto.
    + reflexivity.
    + reflexivity.
    + apply Iff; [reflexivity|]. cbn in G. destruct G as (A & _).
      injection A as <-. split; [vm_compute; split; discriminate | reflexivity].
Defined.

(** * Further properties of the code *)

(** ** Validators *)

(** X1.  The phone validator accepts exactly the strings made of ten decimal
    digits, possibly followed by one newline character. *)
Theorem Phone_validate_accepts {U : UnicodeData} (s : str) :
  Phone.validate s = true <->
  exists ds, List.length ds = 10%nat /\ forallb is_decimal ds = true
             /\ (s = ds \/ s = ds ++ [10]).
Proof. exact (Phone_validate_spec s). Qed.

Section LeapDay.
Context {U : UnicodeData} {L : UnicodeLaws U}.

(** X2.  For a year from 1 to 9999, the text of 29 February of that year is
    a valid birthday exactly when the year is a leap year. *)
Theorem Birthday_validate_leap_day (y : Z) :
  1 <= y <= 9999 ->
  Birthday.validate (datetime.strftime_dmY (datetime.mkdate y 2 29))
  = Ok (datetime.is_leap y).
Proof.
  intros Hy.
  assert (0 <= y / 1000 <= 9 /\ 0 <= y / 100 mod 10 <= 9 /\ 0 <= y / 10 mod 10 <= 9
          /\ 0 <= y mod 10 <= 9
          /\ y = 1000 * (y / 1000) + 100 * (y / 100 mod 10) + 10 * (y / 10 mod 10) + y mod 10)
    as (Y1 & Y2 & Y3 & Y4 & Y5) by (Z.div_mod_to_equations; lia).
  rewrite (Birthday_validate_of_text _
             [datetime.digit_chr 2; datetime.digit_chr 9]
             [datetime.digit_chr 0; datetime.digit_chr 2]
             [datetime.digit_chr (y / 1000); datetime.digit_chr (y / 100 mod 10);
              datetime.digit_chr (y / 10 mod 10); datetime.digit_chr (y mod 10)]
             y 2 29); try reflexivity.
  - f_equal. unfold datetime.check_date_fields, datetime.days_in_month,
      datetime.MINYEAR, datetime.MAXYEAR.
    replace (1 <=? y) with true by (symmetry; apply Z.leb_le; lia).
    replace (y <=? 9999) with true by (symmetry; apply Z.leb_le; lia).
    destruct (datetime.is_leap y); reflexivity.
  - unfold day_text. rewrite (is_decimal_digit_chr 9) by lia. reflexivity.
  - apply year_text_digits; lia.
  - apply (int_2_digits 2 9); lia.
  - apply (int_2_digits 0 2); lia.
  - rewrite int_4_digits by lia. f_equal. lia.
Qed.

End LeapDay.

Lemma Birthday_validate_leap_day_witness :
  1 <= 2023 <= 9999
  /\ Birthday.validate (lit "29.02.2023") = Ok false.
Proof.
  split; [lia|].
  exact (@Birthday_validate_leap_day excerpt excerpt_laws 2023 ltac:(lia)).
Defined.

(** ** Records *)

Lemma remove_first_subseq n l : subseq (remove_first n l) l.
Proof.
  induction l as [|p l IH]; cbn; [constructor|].
  destruct (str_eqb (Phone.value p) n).
  - constructor. clear IH. induction l; constructor; assumption.
  - now constructor.
Qed.

Lemma subseq_refl {A} (l : list A) : subseq l l.
Proof. induction l; constructor; assumption. Qed.

Lemma subseq_Forall {A} (P : A -> Prop) a b :
  subseq a b -> Forall P b -> Forall P a.
Proof.
  induction 1; intros F; [constructor | |]; inversion F; subst; auto.
Qed.

Lemma count_remove_first n m l :
  count_phone m (remove_first n l)
  = if str_eqb m n
    then Nat.pred (count_phone m l)
    else count_phone m l.
Proof.
  unfold count_phone. induction l as [|p l IH]; cbn.
  - now destruct (str_eqb m n).
  - destruct (str_eqb (Phone.value p) n) eqn:E.
    + apply str_eqb_eq in E. rewrite E.
      destruct (str_eqb m n) eqn:E'.
      * apply str_eqb_eq in E'. subst m. now rewrite str_eqb_refl.
      * assert (str_eqb n m = false).
        { apply str_eqb_neq. apply str_eqb_neq in E'. congruence. }
        now rewrite H.
    + cbn. destruct (str_eqb (Phone.value p) m) eqn:E2; cbn; rewrite IH.
      * apply str_eqb_eq in E2. rewrite <- E2, E.  reflexivity.
      * reflexivity.
Qed.

Lemma find_phone_spec number self :
  match Record_.find_phone number self with
  | Some phone =>
      Phone.value phone = number /\ In phone (Record_.phones self)
  | None => ~ In number (map Phone.value (Record_.phones self))
  end.
Proof.
  unfold Record_.find_phone.
  destruct (find _ _) as [p|] eqn:F.
  - apply find_some in F. destruct F as (I & E). apply str_eqb_eq in E. auto.
  - intros I. apply in_map_iff in I. destruct I as (p & E & I).
    apply (find_none _ _ F) in I. rewrite E, str_eqb_refl in I. discriminate.
Qed.

Lemma remove_phone_present number self :
  In number (map Phone.value (Record_.phones self)) ->
  Record_.remove_phone number self
  = (Ok tt, Record_.set_phones (remove_first number (Record_.phones self)) self).
Proof.
  intros I. destruct (find_phone_present _ _ I) as (phone & F).
  unfold Record_.remove_phone. rewrite F.
  unfold Record_.find_phone in F. now rewrite (list_remove_found _ _ _ F).
Qed.

Lemma remove_phone_absent number self :
  ~ In number (map Phone.value (Record_.phones self)) ->
  Record_.remove_phone number self
  = (Raise (ValueError "Phone number not found."), self).
Proof.
  intros N. unfold Record_.remove_phone.
  pose proof (find_phone_spec number self) as S.
  destruct (Record_.find_phone number self) as [p|]; [|reflexivity].
  destruct S as (E & I). exfalso. apply N. apply in_map_iff. eauto.
Qed.

Lemma in_values_dec number (l : list Phone.t) :
  {In number (map Phone.value l)} + {~ In number (map Phone.value l)}.
Proof. apply in_dec. apply (list_eq_dec Z.eq_dec). Qed.

Lemma record_eta (r : Record_.t) :
  Record_.set_phones (Record_.phones r) r = r.
Proof. now destruct r. Qed.

Section RecordProps.
Context {U : UnicodeData}.

Lemma add_phone_valid number self :
  Phone.validate number = true ->
  Record_.add_phone number self
  = (Ok tt, Record_.set_phones (Record_.phones self ++ [Phone.mk number]) self).
Proof.
  intros V. unfold Record_.add_phone, Phone.new. now rewrite V.
Qed.

Lemma add_phone_invalid number self :
  Phone.validate number = false ->
  Record_.add_phone number self
  = (Raise (ValueError "Phone number must be a string of 10 digits."), self).
Proof.
  intros V. unfold Record_.add_phone, Phone.new. now rewrite V.
Qed.

(** X3.  [find_phone] returns the first stored phone that carries the
    number, and nothing exactly when no stored phone carries it. *)
Theorem find_phone_first (number : str) (self : Record_.t) :
  match Record_.find_phone number self with
  | Some phone =>
      exists before after,
        Record_.phones self = before ++ phone :: after
        /\ Phone.value phone = number
        /\ ~ In number (map Phone.value before)
  | None => ~ In number (map Phone.value (Record_.phones self))
  end.
Proof.
  pose proof (find_phone_spec number self) as S.
  unfold Record_.find_phone in *.
  destruct (find _ _) as [p|] eqn:F; [|exact S]. clear S.
  induction (Record_.phones self) as [|q l IH]; cbn in F; [discriminate|].
  destruct (str_eqb (Phone.value q) number) eqn:E.
  - injection F as <-. exists [], l. apply str_eqb_eq in E. cbn. auto.
  - destruct (IH F) as (before & after & -> & V & N).
    exists (q :: before), after. repeat split; try assumption.
    cbn. intros [H | H]; [|auto]. apply str_eqb_neq in E. auto.
Qed.

(** X4.  [add_phone] with a valid number always succeeds, also when the
    number is already stored: the number is appended, so it is stored once
    more than before and [find_phone] finds it; name, birthday and the other
    phones are untouched.  With an invalid number it raises [ValueError] and
    the record is unchanged. *)
Theorem add_phone_appends (number : str) (self : Record_.t) :
  let '(outcome, self') := Record_.add_phone number self in
  if Phone.validate number then
    outcome = Ok tt
    /\ Record_.phones self' = Record_.phones self ++ [Phone.mk number]
    /\ count_phone number (Record_.phones self')
       = S (count_phone number (Record_.phones self))
    /\ (exists phone, Record_.find_phone number self' = Some phone)
    /\ Record_.name self' = Record_.name self
    /\ Record_.birthday self' = Record_.birthday self
  else
    outcome = Raise (ValueError "Phone number must be a string of 10 digits.")
    /\ self' = self.
Proof.
  destruct (Phone.validate number) eqn:V.
  - rewrite (add_phone_valid _ _ V). cbn [Record_.set_phones Record_.phones
      Record_.name Record_.birthday]. repeat split.
    + unfold count_phone. rewrite filter_app, length_app. cbn.
      rewrite str_eqb_refl. cbn. lia.
    + apply find_phone_present. cbn [Record_.phones Record_.set_phones].
      rewrite map_app. apply in_or_app. right. now left.
  - rewrite (add_phone_invalid _ _ V). auto.
Qed.

(** X5.  [remove_phone] of a stored number succeeds and takes out one
    occurrence of it, the first: the other phones keep their order, and no
    other number is affected.  When the number is not stored it raises
    [ValueError] "Phone number not found." and the record is unchanged. *)
Theorem remove_phone_first (number : str) (self : Record_.t) :
  let '(outcome, self') := Record_.remove_phone number self in
  (In number (map Phone.value (Record_.phones self)) ->
     outcome = Ok tt
     /\ Record_.phones self' = remove_first number (Record_.phones self)
     /\ subseq (Record_.phones self') (Record_.phones self)
     /\ S (count_phone number (Record_.phones self'))
        = count_phone number (Record_.phones self)
     /\ (forall other, other <> number ->
           count_phone other (Record_.phones self')
           = count_phone other (Record_.phones self))
     /\ Record_.name self' = Record_.name self
     /\ Record_.birthday self' = Record_.birthday self)
  /\ (~ In number (map Phone.value (Record_.phones self)) ->
        outcome = Raise (ValueError "Phone number not found.")
        /\ self' = self).
Proof.
  destruct (in_values_dec number (Record_.phones self)) as [I|N].
  - rewrite (remove_phone_present _ _ I).
    cbn [Record_.set_phones Record_.phones Record_.name Record_.birthday].
    split; [intros _ | tauto]. repeat split.
    + apply remove_first_subseq.
    + rewrite count_remove_first, str_eqb_refl.
      assert (0 < count_phone number (Record_.phones self))%nat; [|lia].
      unfold count_phone. apply in_map_iff in I. destruct I as (p & E & I).
      assert (In p (filter (fun p => str_eqb (Phone.value p) number)
                           (Record_.phones self)))
        by (apply filter_In; split; [assumption | now apply str_eqb_eq]).
      destruct (filter _ _); [contradiction | cbn; lia].
    + intros other D. rewrite count_remove_first.
      apply str_eqb_neq in D. now rewrite D.
  - rewrite (remove_phone_absent _ _ N). split; [tauto | auto].
Qed.

(** X6.  Adding a valid number that is not stored yet and then removing it
    gives the record back as it was. *)
Theorem add_then_remove_phone (number : str) (self : Record_.t) :
  Phone.validate number = true ->
  ~ In number (map Phone.value (Record_.phones self)) ->
  (Record_.add_phone number ;;; Record_.remove_phone number) self = (Ok tt, self).
Proof.
  intros V N. unfold mbind. rewrite (add_phone_valid _ _ V).
  rewrite remove_phone_present.
  2:{ cbn [Record_.set_phones Record_.phones]. rewrite map_app.
      apply in_or_app. right. now left. }
  cbn [Record_.set_phones Record_.phones Record_.name Record_.birthday].
  assert (R : remove_first number (Record_.phones self ++ [Phone.mk number])
              = Record_.phones self).
  { induction (Record_.phones self) as [|p l IH]; cbn.
    - now rewrite str_eqb_refl.
    - cbn in N. destruct (str_eqb (Phone.value p) number) eqn:E.
      + apply str_eqb_eq in E. tauto.
      + f_equal. apply IH. tauto. }
  rewrite R. now destruct self.
Qed.

Lemma edit_phone_old_missing_aux (old_phone new_phone : str) (self : Record_.t) :
  ~ In old_phone (map Phone.value (Record_.phones self)) ->
  Record_.edit_phone old_phone new_phone self
  = if Phone.validate new_phone
    then (Raise (ValueError "Old phone number not found."), self)
    else (Raise (ValueError "New phone number must be a string of 10 digits."),
          self).
Proof.
  intros N. unfold Record_.edit_phone.
  destruct (Phone.validate new_phone); cbn [negb]; [|reflexivity].
  pose proof (find_phone_spec old_phone self) as S.
  destruct (Record_.find_phone old_phone self) as [p|]; [|reflexivity].
  destruct S as (E & I). exfalso. apply N. apply in_map_iff. eauto.
Qed.

(** X7.  [edit_phone] checks the new number before it looks for the old
    one: with a valid new number and an old number that is not stored it
    raises [ValueError] "Old phone number not found." and the record is
    unchanged; with an invalid new number the error is the validation error
    whether or not the old number is stored. *)
Theorem edit_phone_old_missing (old_phone new_phone : str) (self : Record_.t) :
  ~ In old_phone (map Phone.value (Record_.phones self)) ->
  Record_.edit_phone old_phone new_phone self
  = if Phone.validate new_phone
    then (Raise (ValueError "Old phone number not found."), self)
    else (Raise (ValueError "New phone number must be a string of 10 digits."),
          self).
Proof. exact (edit_phone_old_missing_aux old_phone new_phone self). Qed.

Lemma edit_phone_keeps_length_aux (old_phone new_phone : str) (self : Record_.t) :
  let self' := snd (Record_.edit_phone old_phone new_phone self) in
  List.length (Record_.phones self') = List.length (Record_.phones self)
  /\ Record_.name self' = Record_.name self
  /\ Record_.birthday self' = Record_.birthday self.
Proof.
  cbv zeta. destruct (in_values_dec old_phone (Record_.phones self)) as [I|N].
  - unfold Record_.edit_phone.
    destruct (Phone.validate new_phone) eqn:V; cbn [negb]; [|auto].
    destruct (find_phone_present _ _ I) as (p & ->).
    unfold mbind. rewrite (remove_phone_present _ _ I).
    rewrite (add_phone_valid _ _ V).
    cbn [snd Record_.set_phones Record_.phones Record_.name Record_.birthday].
    repeat split. rewrite length_app. cbn [List.length].
    assert (S (List.length (remove_first old_phone (Record_.phones self)))
            = List.length (Record_.phones self)); [|lia].
    clear - I. induction (Record_.phones self) as [|q l IH]; [destruct I|].
    cbn. destruct (str_eqb (Phone.value q) old_phone) eqn:E; [reflexivity|].
    cbn. f_equal. apply IH. cbn in I. destruct I as [H|H]; [|assumption].
    apply str_eqb_neq in E. contradiction.
  - rewrite (edit_phone_old_missing_aux old_phone new_phone self N).
    destruct (Phone.validate new_phone); auto.
Qed.

(** X8.  Whatever its arguments and whether it returns or raises,
    [edit_phone] leaves the number of stored phones, the name and the
    birthday as they were. *)
Theorem edit_phone_keeps_length (old_phone new_phone : str) (self : Record_.t) :
  let self' := snd (Record_.edit_phone old_phone new_phone self) in
  List.length (Record_.phones self') = List.length (Record_.phones self)
  /\ Record_.name self' = Record_.name self
  /\ Record_.birthday self' = Record_.birthday self.
Proof. exact (edit_phone_keeps_length_aux old_phone new_phone self). Qed.

End RecordProps.

Section RecordInvariant.
Context {U : UnicodeData}.

Lemma add_birthday_cases birthday self :
  Record_.add_birthday birthday self
  = match Birthday.validate birthday with
    | Ok true => (Ok tt, Record_.set_birthday (Some (Birthday.mk birthday)) self)
    | Ok false => (Raise (ValueError "Invalid date format. Use DD.MM.YYYY"), self)
    | Raise e => (Raise e, self)
    end.
Proof.
  unfold Record_.add_birthday, Birthday.new.
  destruct (Birthday.validate birthday) as [[|]|e]; reflexivity.
Qed.

Lemma do_call_preserves c r :
  Record_.name (snd (do_call c r)) = Record_.name r
  /\ (fields_valid r -> fields_valid (snd (do_call c r))).
Proof.
  destruct c as [n | n | o n | d]; cbn [do_call].
  - destruct (Phone.validate n) eqn:V.
    + rewrite (add_phone_valid _ _ V). cbn. split; [reflexivity|].
      intros (F & B). split; [|assumption].
      apply Forall_app. split; [assumption|]. now repeat constructor.
    + rewrite (add_phone_invalid _ _ V). auto.
  - destruct (in_values_dec n (Record_.phones r)) as [I|N].
    + rewrite (remove_phone_present _ _ I). cbn. split; [reflexivity|].
      intros (F & B). split; [|assumption].
      eapply subseq_Forall; [apply remove_first_subseq | assumption].
    + rewrite (remove_phone_absent _ _ N). auto.
  - destruct (in_values_dec o (Record_.phones r)) as [I|N].
    + unfold Record_.edit_phone.
      destruct (Phone.validate n) eqn:V; cbn [negb]; [|auto].
      destruct (find_phone_present _ _ I) as (p & ->).
      unfold mbind. rewrite (remove_phone_present _ _ I).
      rewrite (add_phone_valid _ _ V). cbn. split; [reflexivity|].
      intros (F & B). split; [|assumption].
      apply Forall_app. split; [|now repeat constructor].
      eapply subseq_Forall; [apply remove_first_subseq | assumption].
    + rewrite (edit_phone_old_missing_aux o n r N).
      destruct (Phone.validate n); auto.
  - rewrite add_birthday_cases.
    destruct (Birthday.validate d) as [[|]|e] eqn:V; cbn; auto.
    split; [reflexivity|]. intros (F & _). split; assumption.
Qed.

(** X9.  A record made by [Record(name)] and then used through any sequence
    of [add_phone], [remove_phone], [edit_phone] and [add_birthday] calls,
    failed ones included, still has the name it was made with, only phones
    that pass the phone validator, and a birthday that is unset or passes
    the birthday validator. *)
Theorem record_fields_stay_valid (name : str) (calls : list record_call) :
  let r := after_calls calls (Record_.new name) in
  Record_.name r = Name.mk name /\ fields_valid r.
Proof.
  cbv zeta. unfold after_calls.
  assert (G : forall r0,
            Record_.name r0 = Name.mk name -> fields_valid r0 ->
            Record_.name (fold_left (fun r c => snd (do_call c r)) calls r0)
            = Name.mk name
            /\ fields_valid (fold_left (fun r c => snd (do_call c r)) calls r0)).
  { induction calls as [|c calls IH]; intros r0 Hn Hv; cbn [fold_left]; [auto|].
    destruct (do_call_preserves c r0) as (En & Ev).
    apply IH; [congruence | auto]. }
  apply G; [reflexivity|]. split; [constructor | exact I].
Qed.

(** X10.  [add_birthday] with a text the birthday validator accepts stores
    that very text, replacing whatever birthday was set, and touches nothing
    else; with any other text it raises [ValueError] "Invalid date format.
    Use DD.MM.YYYY" and the record, its old birthday included, is unchanged. *)
Theorem add_birthday_replaces (birthday : str)
    (self : Record_.t) :
  (Birthday.validate birthday = Ok true
   /\ Record_.add_birthday birthday self
      = (Ok tt,
         {| Record_.name := Record_.name self;
            Record_.phones := Record_.phones self;
            Record_.birthday := Some (Birthday.mk birthday) |}))
  \/ (Birthday.validate birthday = Ok false
      /\ Record_.add_birthday birthday self
         = (Raise (ValueError "Invalid date format. Use DD.MM.YYYY"), self)).
Proof.
  rewrite add_birthday_cases.
  destruct (Birthday_validate_total birthday) as [-> | ->]; auto.
Qed.

End RecordInvariant.

(** ** The book *)

Lemma get_setitem_other key k value data :
  k <> key ->
  AddressBook.get k (AddressBook.setitem key value data) = AddressBook.get k data.
Proof.
  intros D. unfold AddressBook.get.
  induction data as [|[k' v] data IH]; cbn.
  - apply str_eqb_neq in D.
    assert (E : str_eqb key k = false)
      by (apply str_eqb_neq; apply str_eqb_neq in D; congruence).
    now rewrite E.
  - destruct (str_eqb k' key) eqn:E; cbn.
    + apply str_eqb_eq in E. subst k'.
      assert (E : str_eqb key k = false) by (apply str_eqb_neq; congruence).
      now rewrite E.
    + destruct (str_eqb k' k); [reflexivity | exact IH].
Qed.

Lemma in_setitem key value data k r :
  In (k, r) (AddressBook.setitem key value data) ->
  (k = key /\ r = value) \/ In (k, r) data.
Proof.
  induction data as [|[k' v] data IH]; cbn.
  - intros [[= <- <-] | []]. auto.
  - destruct (str_eqb k' key) eqn:E; cbn.
    + intros [[= <- <-] | I]; [|auto]. apply str_eqb_eq in E. auto.
    + intros [I | I]; [auto|]. destruct (IH I); auto.
Qed.

Lemma add_record_well_keyed record book :
  well_keyed book -> well_keyed (AddressBook.add_record record book).
Proof.
  intros (N & K). unfold AddressBook.add_record. split.
  - now apply setitem_NoDup.
  - intros k r I. apply in_setitem in I. destruct I as [(-> & ->) | I]; auto.
Qed.

(** X11.  After [add_record], looking up the record's name gives the
    record, and looking up any other name gives what it gave before; a new
    name goes to the end of the book and a known name keeps its place. *)
Theorem add_record_get (record : Record_.t) (book : AddressBook.t) :
  let name := Name.value (Record_.name record) in
  let book' := AddressBook.add_record record book in
  AddressBook.get name book' = Some record
  /\ (forall other, other <> name ->
        AddressBook.get other book' = AddressBook.get other book)
  /\ AddressBook.keys book'
     = if existsb (fun k => str_eqb k name) (AddressBook.keys book)
       then AddressBook.keys book
       else AddressBook.keys book ++ [name].
Proof.
  cbv zeta. unfold AddressBook.add_record. split; [apply get_setitem|].
  split; [intros other D; now apply get_setitem_other | apply keys_setitem].
Qed.

(** X12.  A book filled from empty by [add_record] calls alone has distinct
    keys, and every key is the name of the record stored under it. *)
Theorem add_record_keeps_keys (records : list Record_.t) :
  well_keyed
    (fold_left (fun book r => AddressBook.add_record r book) records
               AddressBook.empty).
Proof.
  assert (G : forall book, well_keyed book ->
            well_keyed (fold_left (fun book r => AddressBook.add_record r book)
                                  records book)).
  { induction records as [|r records IH]; intros book W; cbn; [assumption|].
    apply IH. now apply add_record_well_keyed. }
  apply G. split; [constructor | intros ? ? []].
Qed.

Lemma is_leap_next y : datetime.is_leap y = true -> datetime.is_leap (y + 1) = false.
Proof.
  unfold datetime.is_leap. intros H. apply andb_true_iff in H.
  destruct H as (H & _). apply Z.eqb_eq in H.
  apply andb_false_iff. left. apply Z.eqb_neq.
  Z.div_mod_to_equations. lia.
Qed.

Lemma ltb_irrefl d : datetime.ltb d d = false.
Proof.
  unfold datetime.ltb. rewrite !Z.ltb_irrefl, !Z.eqb_refl. reflexivity.
Qed.

Section UpcomingProps.
Context {U : UnicodeData}.

Lemma upcoming_raises_ValueError today record e :
  AddressBook.upcoming today record = Raise e -> exists msg, e = ValueError msg.
Proof.
  unfold AddressBook.upcoming.
  destruct (Record_.birthday record) as [b|]; [|discriminate].
  destruct (datetime.strptime _ _) as [bday|e0] eqn:P; cbn [bind].
  2:{ intros [= <-]. eapply strptime_raises_ValueError; eassumption. }
  destruct (datetime.replace_year bday _) as [t|e1] eqn:R1; cbn [bind].
  2:{ intros [= <-]. eapply new_raises_ValueError; eassumption. }
  apply replace_year_ok in R1. destruct R1 as (V1 & ->).
  destruct (datetime.ltb _ today).
  - destruct (datetime.replace_year _ _) as [t|e2] eqn:R2; cbn [bind].
    2:{ intros [= <-]. eapply new_raises_ValueError; eassumption. }
    apply replace_year_ok in R2. destruct R2 as (V2 & ->).
    destruct (_ && _); [|discriminate].
    destruct (rollover_ok _ V2) as (g & Rg & _). unfold rollover, is_weekend in Rg.
    rewrite Rg. discriminate.
  - cbn [bind]. destruct (_ && _); [|discriminate].
    destruct (rollover_ok _ V1) as (g & Rg & _). unfold rollover, is_weekend in Rg.
    rewrite Rg. discriminate.
Qed.

Lemma upcoming_loop_raise_inv today records acc e :
  AddressBook.upcoming_loop today records acc = Raise e ->
  exists record, In record records /\ AddressBook.upcoming today record = Raise e.
Proof.
  revert acc. induction records as [|r records IH]; intros acc; cbn; [discriminate|].
  destruct (AddressBook.upcoming today r) as [es|e0] eqn:E; cbn [bind].
  - intros H. destruct (IH _ H) as (r' & I & R). eauto.
  - intros [= <-]. eauto.
Qed.

(** X13.  For a book in which no record has a birthday, the empty book
    included, [get_upcoming_birthdays] returns the empty list on any day. *)
Theorem upcoming_birthdays_none (today : datetime.date) (book : AddressBook.t) :
  (forall record, In record (AddressBook.values book) ->
     Record_.birthday record = None) ->
  AddressBook.get_upcoming_birthdays today book = Ok [].
Proof.
  unfold AddressBook.get_upcoming_birthdays. intros H.
  induction (AddressBook.values book) as [|r l IH]; cbn; [reflexivity|].
  unfold AddressBook.upcoming at 1. rewrite (H r (or_introl eq_refl)).
  cbn [bind app]. apply IH. intros r' I. apply H. now right.
Qed.

(** X14.  The names in the list [get_upcoming_birthdays] returns come in
    the order of the book, each record giving one entry at most: the list of
    names is the book's list of names with some left out. *)
Theorem upcoming_birthdays_order (today : datetime.date) (book : AddressBook.t)
    (result : list entry) :
  AddressBook.get_upcoming_birthdays today book = Ok result ->
  subseq (map entry_name result)
         (map (fun r => Name.value (Record_.name r)) (AddressBook.values book)).
Proof.
  unfold AddressBook.get_upcoming_birthdays. intros H.
  apply upcoming_loop_ok in H. destruct H as (ess & F & ->). cbn [app].
  induction F as [|r es records ess E F IH]; cbn; [constructor|].
  rewrite map_app.
  assert (C : es = [] \/ exists c, es = [{| entry_name := Name.value (Record_.name r);
                                             congratulate_on := c |}]).
  { pose proof (upcoming_returns _ _ _ E) as R.
    destruct (Record_.birthday r) as [b|] eqn:Hb; [|auto].
    destruct R as (bday & Hp & V1 & V2).
    rewrite (upcoming_unfold today r b bday Hb Hp V1 V2) in E. cbv zeta in E.
    match type of E with
    | (if ?c then _ else _) = _ => destruct c; [|injection E as <-; auto]
    end.
    destruct (rollover _); [|discriminate]. cbn [bind] in E.
    injection E as <-. eauto. }
  destruct C as [-> | (c & ->)]; cbn; now constructor.
Qed.

(** X16.  [get_upcoming_birthdays] raises nothing but [ValueError]: the
    rollover of a date never leaves the range of dates. *)
Theorem upcoming_birthdays_only_ValueError (today : datetime.date)
    (book : AddressBook.t) (e : exn) :
  AddressBook.get_upcoming_birthdays today book = Raise e ->
  exists msg, e = ValueError msg.
Proof.
  unfold AddressBook.get_upcoming_birthdays. intros H.
  apply upcoming_loop_raise_inv in H. destruct H as (r & _ & H).
  eapply upcoming_raises_ValueError; eassumption.
Qed.

(** X17.  A birthday on 29 February makes [get_upcoming_birthdays] raise
    also in a leap year, from the day after 29 February on: the date is then
    placed in the next year, which is no leap year. *)
Theorem upcoming_birthdays_feb29_passed (today : datetime.date)
    (book : AddressBook.t) (record : Record_.t) (b : Birthday.t)
    (bday : datetime.date) :
  In record (AddressBook.values book) ->
  Record_.birthday record = Some b ->
  datetime.strptime (Birthday.value b) Birthday.FORMAT = Ok bday ->
  datetime.month bday = 2 -> datetime.day bday = 29 ->
  datetime.is_leap (datetime.year today) = true ->
  datetime.ltb (datetime.mkdate (datetime.year today) 2 29) today = true ->
  raises (AddressBook.get_upcoming_birthdays today book).
Proof.
  intros I Hb Hp Hm Hd Leap After.
  unfold AddressBook.get_upcoming_birthdays.
  apply (upcoming_loop_raises today _ [] record I).
  unfold AddressBook.upcoming. rewrite Hb, Hp. cbn [bind].
  destruct (datetime.replace_year bday _) as [t|e1] eqn:R1; cbn [bind];
    [|now eexists].
  apply replace_year_ok in R1. destruct R1 as (V1 & ->).
  unfold placed at 1. rewrite Hm, Hd, After.
  assert (R : exists msg,
            datetime.replace_year (placed bday (datetime.year today))
                                  (datetime.year today + 1)
            = Raise (ValueError msg)).
  { unfold datetime.replace_year, datetime.new, placed. cbn [datetime.month datetime.day].
    rewrite Hm, Hd. unfold datetime.days_in_month. rewrite (is_leap_next _ Leap).
    destruct (negb _); [eauto|]. vm_compute. eauto. }
  destruct R as (msg & ->). cbn [bind]. now eexists.
Qed.

Lemma upcoming_same_day today r r' :
  same_day r r' -> AddressBook.upcoming today r = AddressBook.upcoming today r'.
Proof.
  intros (En & Hb). unfold AddressBook.upcoming. rewrite En.
  destruct (Record_.birthday r) as [b|], (Record_.birthday r') as [b'|];
    try contradiction; [|reflexivity].
  destruct Hb as (d & d' & -> & -> & Em & Ed). cbn [bind].
  unfold datetime.replace_year. rewrite Em, Ed. reflexivity.
Qed.

(** X18.  The year of birth plays no part: two books whose records agree in
    order and names, and in the month and day of every birthday, get the
    same answer from [get_upcoming_birthdays], be it a list or an error. *)
Theorem upcoming_birthdays_ignore_year (today : datetime.date)
    (book book' : AddressBook.t) :
  Forall2 same_day (AddressBook.values book) (AddressBook.values book') ->
  AddressBook.get_upcoming_birthdays today book
  = AddressBook.get_upcoming_birthdays today book'.
Proof.
  unfold AddressBook.get_upcoming_birthdays. intros F.
  generalize (@nil entry).
  induction F as [|r r' l l' S F IH]; intros acc; cbn; [reflexivity|].
  rewrite (upcoming_same_day today r r' S).
  destruct (AddressBook.upcoming today r'); cbn [bind]; [apply IH | reflexivity].
Qed.

(** X19.  A birthday whose month and day are today's is in the list: when
    [get_upcoming_birthdays] returns, it has an entry with the record's name
    and with today's date, rolled over if today is a Saturday or Sunday. *)
Theorem upcoming_birthdays_today (today : datetime.date) (book : AddressBook.t)
    (record : Record_.t) (b : Birthday.t) (bday : datetime.date)
    (result : list entry) :
  datetime.valid today ->
  In record (AddressBook.values book) ->
  Record_.birthday record = Some b ->
  datetime.strptime (Birthday.value b) Birthday.FORMAT = Ok bday ->
  datetime.month bday = datetime.month today ->
  datetime.day bday = datetime.day today ->
  AddressBook.get_upcoming_birthdays today book = Ok result ->
  exists g,
    rollover today = Ok g
    /\ In {| entry_name := Name.value (Record_.name record);
             congratulate_on := datetime.strftime_dmY g |} result.
Proof.
  intros V I Hb Hp Hm Hd H.
  assert (P : placed bday (datetime.year today) = today).
  { unfold placed. rewrite Hm, Hd. now destruct today. }
  assert (N : next_birthday today bday = today).
  { unfold next_birthday. rewrite P, ltb_irrefl. reflexivity. }
  destruct (rollover_ok _ V) as (g & Rg & _).
  exists g. split; [assumption|].
  unfold AddressBook.get_upcoming_birthdays in H.
  apply (in_upcoming_result today _ result _ H).
  exists record,
    [{| entry_name := Name.value (Record_.name record);
        congratulate_on := datetime.strftime_dmY g |}].
  split; [assumption|]. split; [|now left].
  rewrite (upcoming_unfold today record b bday Hb Hp); rewrite ?P, ?N; try assumption.
  cbv zeta. rewrite Z.sub_diag. cbn [Z.leb Z.ltb Z.compare andb].
  rewrite Rg. reflexivity.
Qed.

End UpcomingProps.

Section UpcomingBound.
Context {U : UnicodeData} {L : UnicodeLaws U}.

(** X15.  Every entry [get_upcoming_birthdays] returns carries a date that
    is today or later, and at most 8 days after today. *)
Theorem greeting_within_8_days (today : datetime.date) (book : AddressBook.t)
    (result : list entry) :
  AddressBook.get_upcoming_birthdays today book = Ok result ->
  forall e, In e result ->
    exists g,
      datetime.strptime (congratulate_on e) Birthday.FORMAT = Ok g
      /\ 0 <= datetime.toordinal g - datetime.toordinal today <= 8.
Proof.
  intros H e Ie. unfold AddressBook.get_upcoming_birthdays in H.
  apply (in_upcoming_result _ _ _ e H) in Ie.
  destruct Ie as (record & es & _ & E & Ie).
  pose proof (upcoming_returns _ _ _ E) as R.
  destruct (Record_.birthday record) as [b|] eqn:Hb; [|subst es; destruct Ie].
  destruct R as (bday & Hp & V1 & V2).
  rewrite (upcoming_unfold today record b bday Hb Hp V1 V2) in E. cbv zeta in E.
  match type of E with
  | (if ?c then _ else _) = _ =>
      destruct c eqn:W; [|injection E as <-; destruct Ie]
  end.
  destruct (rollover_ok _ V2) as (g & Rg & Vg & Og & _).
  rewrite Rg in E. cbn [bind] in E. injection E as <-.
  destruct Ie as [<- | []]. cbn [congratulate_on].
  exists g. split; [now apply strptime_strftime|].
  apply andb_true_iff in W. destruct W as (W1 & W2).
  apply Z.leb_le in W1. apply Z.ltb_lt in W2. rewrite Og.
  pose proof (weekday_range (next_birthday today bday)) as Wr.
  unfold is_weekend. 
  destruct (datetime.weekday (next_birthday today bday) =? 5) eqn:E5;
    destruct (datetime.weekday (next_birthday today bday) =? 6) eqn:E6;
    cbn [orb]; rewrite ?Z.eqb_eq, ?Z.eqb_neq in *; lia.
Qed.

End UpcomingBound.

(** ** The command handlers *)

Lemma dict_get_spec key d :
  match dict_get key d with
  | Some a => In (key, a) d
  | None => ~ In key (map fst d)
  end.
Proof.
  unfold dict_get. destruct (find _ d) as [[k a]|] eqn:F.
  - apply find_some in F. destruct F as (I & E). apply str_eqb_eq in E.
    cbn in E. now subst.
  - intros I. apply in_map_iff in I. destruct I as ([k a] & E & I).
    apply (find_none _ _ F) in I. cbn in *. subst k.
    rewrite str_eqb_refl in I. discriminate.
Qed.

Lemma dict_set_absent key a d :
  ~ In key (map fst d) -> dict_set key a d = d ++ [(key, a)].
Proof.
  induction d as [|[k v] d IH]; cbn; intros N; [reflexivity|].
  destruct (str_eqb k key) eqn:E.
  - apply str_eqb_eq in E. tauto.
  - f_equal. apply IH. tauto.
Qed.

Lemma dict_get_set key a d : dict_get key (dict_set key a d) = Some a.
Proof.
  unfold dict_get. induction d as [|[k v] d IH]; cbn.
  - now rewrite str_eqb_refl.
  - destruct (str_eqb k key) eqn:E; cbn; rewrite E; [reflexivity | exact IH].
Qed.

Lemma get_book_of key s :
  AddressBook.get key (book_of s)
  = match dict_get key (data s) with
    | Some a => Some (objects s a)
    | None => None
    end.
Proof.
  unfold AddressBook.get, dict_get, book_of.
  induction (data s) as [|[k a] d IH]; cbn; [reflexivity|].
  destruct (str_eqb k key); [reflexivity | exact IH].
Qed.

(** The book after the object under [key] is replaced, when no other key
    has that object. *)
Lemma book_of_update (objs : addr -> Record_.t) key a r d :
  NoDup (map fst d) -> NoDup (map snd d) -> In (key, a) d ->
  map (fun ka => (fst ka, if Nat.eqb (snd ka) a then r else objs (snd ka))) d
  = AddressBook.setitem key r (map (fun ka => (fst ka, objs (snd ka))) d).
Proof.
  induction d as [|[k x] d IH]; cbn; intros Nk Na I; [destruct I|].
  inversion Nk as [|? ? Nk1 Nk2]; inversion Na as [|? ? Na1 Na2]; subst.
  destruct I as [[= -> ->] | I].
  - rewrite Nat.eqb_refl, str_eqb_refl. f_equal.
    apply map_ext_in. intros [k' x'] I'. cbn.
    destruct (Nat.eqb x' a) eqn:E; [|reflexivity].
    apply Nat.eqb_eq in E. subst x'. exfalso. apply Na1.
    apply in_map_iff. now exists (k', a).
  - assert (Ek : str_eqb k key = false).
    { apply str_eqb_neq. intros ->. apply Nk1. apply in_map_iff.
      now exists (key, a). }
    assert (Ea : Nat.eqb x a = false).
    { apply Nat.eqb_neq. intros ->. apply Na1. apply in_map_iff.
      now exists (key, a). }
    rewrite Ek, Ea. f_equal. now apply IH.
Qed.

Lemma book_of_call {A} a (m : method Record_.t A) s key :
  store_ok s -> In (key, a) (data s) ->
  book_of (snd (call a m s))
  = AddressBook.setitem key (snd (m (objects s a))) (book_of s).
Proof.
  intros (Nk & Na & _) I. unfold call.
  destruct (m (objects s a)) as [out r]. cbn [snd]. unfold book_of.
  cbn [objects data]. now apply book_of_update.
Qed.

Lemma setitem_same key r (book : AddressBook.t) :
  NoDup (AddressBook.keys book) -> In (key, r) book ->
  AddressBook.setitem key r book = book.
Proof.
  unfold AddressBook.keys.
  induction book as [|[k v] book IH]; cbn; intros N I; [destruct I|].
  inversion N as [|? ? N1 N2]; subst.
  destruct I as [[= -> ->] | I].
  - now rewrite str_eqb_refl.
  - assert (Ek : str_eqb k key = false).
    { apply str_eqb_neq. intros ->. apply N1. apply in_map_iff.
      now exists (key, r). }
    rewrite Ek. f_equal. now apply IH.
Qed.

Lemma keys_book_of s : AddressBook.keys (book_of s) = map fst (data s).
Proof.
  unfold AddressBook.keys, book_of. rewrite map_map. reflexivity.
Qed.

Lemma in_book_of key a s :
  In (key, a) (data s) -> In (key, objects s a) (book_of s).
Proof.
  intros I. unfold book_of. apply in_map_iff. now exists (key, a).
Qed.

(** A call that leaves the object as it is leaves the book as it is. *)
Lemma book_of_call_same {A} a (m : method Record_.t A) s key :
  store_ok s -> In (key, a) (data s) ->
  snd (m (objects s a)) = objects s a ->
  book_of (snd (call a m s)) = book_of s.
Proof.
  intros W I E. rewrite (book_of_call a m s key W I), E.
  apply setitem_same.
  - rewrite keys_book_of. apply W.
  - now apply in_book_of.
Qed.

(** The store once [Record(name)] is made and put in the book, for a name
    the book does not have. *)
Lemma new_record_added name s :
  store_ok s -> dict_get name (data s) = None ->
  let s' := add_record_at (next s) (snd (new_record name s)) in
  data s' = data s ++ [(name, next s)]
  /\ objects s' (next s) = Record_.new name
  /\ book_of s' = book_of s ++ [(name, Record_.new name)]
  /\ store_ok s'.
Proof.
  intros (Nk & Na & K) G. cbv zeta.
  pose proof (dict_get_spec name (data s)) as Sp. rewrite G in Sp.
  unfold add_record_at, new_record. cbn [snd next objects data].
  rewrite Nat.eqb_refl. cbn [Record_.new Record_.name Name.value].
  rewrite (dict_set_absent _ _ _ Sp).
  assert (Fresh : forall k a, In (k, a) (data s) -> Nat.eqb a (next s) = false).
  { intros k a I. apply Nat.eqb_neq. destruct (K k a I). lia. }
  repeat split.
  - unfold book_of. cbn [objects data]. rewrite map_app. cbn.
    rewrite Nat.eqb_refl. f_equal.
    apply map_ext_in. intros [k a] I. cbn. now rewrite (Fresh k a I).
  - cbn [data]. rewrite map_app. cbn. apply NoDup_app; [assumption | | ].
    + repeat constructor. intros [].
    + intros k I [<- | []]. contradiction.
  - cbn [data]. rewrite map_app. cbn. apply NoDup_app; [assumption | | ].
    + repeat constructor. intros [].
    + intros a I [<- | []]. apply in_map_iff in I.
      destruct I as ([k a] & E & I). cbn in E. subst a.
      destruct (K k _ I). lia.
  - cbn [data next] in *. apply in_app_or in H. destruct H as [I | [[= <- <-] | []]].
    + destruct (K k a I). lia.
    + lia.
  - cbn [data objects] in *. apply in_app_or in H.
    destruct H as [I | [[= <- <-] | []]].
    + rewrite (Fresh k a I). now destruct (K k a I).
    + now rewrite Nat.eqb_refl.
Qed.

Lemma store_ok_call {A} a (m : method Record_.t A) s key :
  store_ok s -> In (key, a) (data s) ->
  Record_.name (snd (m (objects s a))) = Record_.name (objects s a) ->
  store_ok (snd (call a m s)).
Proof.
  intros (Nk & Na & K) I En. unfold call.
  destruct (m (objects s a)) as [out r]. cbn [snd] in *.
  split; [assumption|]. split; [assumption|].
  intros k x Ix. cbn [data next objects] in *. destruct (K k x Ix) as (Lt & Ek).
  split; [assumption|].
  destruct (Nat.eqb x a) eqn:E; [|assumption].
  apply Nat.eqb_eq in E. subst x. congruence.
Qed.

Lemma call_fst {A} a (m : method Record_.t A) s :
  fst (call a m s) = fst (m (objects s a)).
Proof. unfold call. now destruct (m (objects s a)). Qed.

Lemma call_data {A} a (m : method Record_.t A) s :
  data (snd (call a m s)) = data s
  /\ objects (snd (call a m s)) a = snd (m (objects s a)).
Proof.
  unfold call. destruct (m (objects s a)). cbn. now rewrite Nat.eqb_refl.
Qed.

Lemma setitem_app_last key r r0 (book : AddressBook.t) :
  ~ In key (AddressBook.keys book) ->
  AddressBook.setitem key r (book ++ [(key, r0)]) = book ++ [(key, r)].
Proof.
  unfold AddressBook.keys.
  induction book as [|[k v] book IH]; cbn; intros N.
  - now rewrite str_eqb_refl.
  - destruct (str_eqb k key) eqn:E.
    + apply str_eqb_eq in E. tauto.
    + f_equal. apply IH. tauto.
Qed.

Lemma get_none_dict key s :
  AddressBook.get key (book_of s) = None -> dict_get key (data s) = None.
Proof.
  rewrite get_book_of. now destruct (dict_get key (data s)).
Qed.

Lemma get_some_dict key s r :
  AddressBook.get key (book_of s) = Some r ->
  exists a, dict_get key (data s) = Some a /\ objects s a = r
            /\ In (key, a) (data s).
Proof.
  rewrite get_book_of. pose proof (dict_get_spec key (data s)) as Sp.
  destruct (dict_get key (data s)) as [a|]; [|discriminate].
  intros [= <-]. eauto.
Qed.

Lemma stores_spec number l :
  stores number l = true <-> In number (map Phone.value l).
Proof.
  unfold stores. rewrite existsb_exists, in_map_iff.
  split; intros (p & A & B).
  - apply str_eqb_eq in B. eauto.
  - exists p. split; [assumption | now apply str_eqb_eq].
Qed.

Section Handlers.
Context {U : UnicodeData}.

Lemma validate_nonempty phone : Phone.validate phone = true -> phone <> [].
Proof. intros V ->. discriminate V. Qed.

(** [add_contact] for a name the book does not have and a phone that is not
    the empty string: the record is made and put in the book, then the
    phone is added to it. *)
Lemma add_contact_body_new (name phone : str) (rest : list str) (s : store) :
  store_ok s -> AddressBook.get name (book_of s) = None -> phone <> [] ->
  fst (add_contact_body (name :: phone :: rest) s)
  = match fst (Record_.add_phone phone (Record_.new name)) with
    | Ok _ => Return (lit "Contact added.")
    | Raise e => Throw (Core e)
    end
  /\ book_of (snd (add_contact_body (name :: phone :: rest) s))
     = book_of s
       ++ [(name, snd (Record_.add_phone phone (Record_.new name)))]
  /\ store_ok (snd (add_contact_body (name :: phone :: rest) s)).
Proof.
  intros W G Ne. apply get_none_dict in G.
  destruct (new_record_added name s W G) as (Ed & Eo & Eb & W2).
  set (s2 := add_record_at (next s) (snd (new_record name s))) in *.
  unfold add_contact_body. rewrite G.
  change (new_record name s) with (next s, snd (new_record name s)).
  cbv iota beta. fold s2.
  destruct phone as [|c phone]; [congruence|].
  assert (I2 : In (name, next s) (data s2))
    by (rewrite Ed; apply in_or_app; right; now left).
  pose proof (book_of_call (next s) (Record_.add_phone (c :: phone)) s2 name W2 I2) as B.
  pose proof (store_ok_call (next s) (Record_.add_phone (c :: phone)) s2 name W2 I2) as W3.
  pose proof (call_fst (next s) (Record_.add_phone (c :: phone)) s2) as F.
  rewrite Eo in B, W3, F.
  assert (En : Record_.name (snd (Record_.add_phone (c :: phone) (Record_.new name)))
               = Record_.name (Record_.new name))
    by exact (proj1 (do_call_preserves (CallAddPhone (c :: phone)) (Record_.new name))).
  specialize (W3 En).
  destruct (call (next s) (Record_.add_phone (c :: phone)) s2) as [o s3].
  cbn [fst snd] in *. subst o.
  assert (B' : book_of s3
               = book_of s
                 ++ [(name, snd (Record_.add_phone (c :: phone) (Record_.new name)))]).
  { rewrite B, Eb. apply setitem_app_last.
    rewrite keys_book_of. pose proof (dict_get_spec name (data s)) as Sp.
    now rewrite G in Sp. }
  destruct (fst (Record_.add_phone (c :: phone) (Record_.new name))); auto.
Qed.

(** X20.  [add_contact] with a name that is not in the book and a valid
    phone answers "Contact added." and puts a record with that name and
    that one phone, and no birthday, at the end of the book; the rest of
    the book is as before. *)
Theorem add_contact_new (name phone : str) (rest : list str) (s : store) :
  store_ok s ->
  AddressBook.get name (book_of s) = None ->
  Phone.validate phone = true ->
  let '(out, s') := add_contact (name :: phone :: rest) s in
  out = Return (lit "Contact added.")
  /\ book_of s'
     = book_of s
       ++ [(name, {| Record_.name := Name.mk name;
                     Record_.phones := [Phone.mk phone];
                     Record_.birthday := None |})]
  /\ store_ok s'.
Proof.
  intros W G V.
  pose proof (add_contact_body_new name phone rest s W G (validate_nonempty _ V)) as H.
  rewrite (add_phone_valid _ _ V) in H. unfold add_contact, input_error.
  destruct (add_contact_body (name :: phone :: rest) s) as [out s'] eqn:E.
  try rewrite E in H. cbn [fst snd] in H. destruct H as (-> & B & W'). auto.
Qed.

(** X21.  [add_contact] with a name that is not in the book and a phone
    that fails validation answers with the validation message, and yet the
    book has a new record under that name, without phones: the record is
    put in the book before the phone is checked. *)
Theorem add_contact_new_invalid (name phone : str) (rest : list str) (s : store) :
  store_ok s ->
  AddressBook.get name (book_of s) = None ->
  phone <> [] ->
  Phone.validate phone = false ->
  let '(out, s') := add_contact (name :: phone :: rest) s in
  out = Return (lit "Phone number must be a string of 10 digits.")
  /\ book_of s' = book_of s ++ [(name, Record_.new name)]
  /\ store_ok s'.
Proof.
  intros W G Ne V.
  pose proof (add_contact_body_new name phone rest s W G Ne) as H.
  rewrite (add_phone_invalid _ _ V) in H. unfold add_contact, input_error.
  destruct (add_contact_body (name :: phone :: rest) s) as [out s'] eqn:E.
  try rewrite E in H. cbn [fst snd] in H. destruct H as (-> & B & W'). auto.
Qed.

(** X22.  [add_contact] with a name that is in the book answers "Contact
    updated." and appends a valid phone to that record, which keeps its
    place in the book; with a phone that fails validation it answers with
    the validation message and the book is as before. *)
Theorem add_contact_existing (name phone : str) (rest : list str) (s : store)
    (r : Record_.t) :
  store_ok s ->
  AddressBook.get name (book_of s) = Some r ->
  phone <> [] ->
  let '(out, s') := add_contact (name :: phone :: rest) s in
  if Phone.validate phone then
    out = Return (lit "Contact updated.")
    /\ book_of s'
       = AddressBook.setitem name
           {| Record_.name := Record_.name r;
              Record_.phones := Record_.phones r ++ [Phone.mk phone];
              Record_.birthday := Record_.birthday r |}
           (book_of s)
    /\ store_ok s'
  else
    out = Return (lit "Phone number must be a string of 10 digits.")
    /\ book_of s' = book_of s
    /\ store_ok s'.
Proof.
  intros W G Ne. destruct (get_some_dict _ _ _ G) as (a & Ga & Eo & I).
  unfold add_contact, input_error, add_contact_body. rewrite Ga.
  destruct phone as [|c phone]; [congruence|].
  pose proof (book_of_call a (Record_.add_phone (c :: phone)) s name W I) as B.
  pose proof (store_ok_call a (Record_.add_phone (c :: phone)) s name W I) as W3.
  pose proof (call_fst a (Record_.add_phone (c :: phone)) s) as F.
  pose proof (book_of_call_same a (Record_.add_phone (c :: phone)) s name W I) as Bs.
  rewrite Eo in B, W3, F, Bs.
  destruct (call a (Record_.add_phone (c :: phone)) s) as [o s3].
  cbn [fst snd] in *. subst o.
  destruct (Phone.validate (c :: phone)) eqn:V.
  - rewrite (add_phone_valid _ _ V) in *.
    cbn [fst snd Record_.set_phones] in *. auto.
  - rewrite (add_phone_invalid _ _ V) in *. cbn [fst snd] in *. auto.
Qed.

(** X23.  [change_contact] with a name that is not in the book answers
    "Contact not found." and changes nothing.  With a name that is in the
    book it does [edit_phone] on that record: on success it answers "Phone
    number updated." and the record has the old number removed and the new
    one appended; when the new number is invalid or the old one is not
    stored it answers with the message of that error and the book is as
    before. *)
Theorem change_contact_outcomes (name old_phone new_phone : str) (s : store) :
  store_ok s ->
  let '(out, s') := change_contact [name; old_phone; new_phone] s in
  match AddressBook.get name (book_of s) with
  | None => out = Return (lit "Contact not found.") /\ s' = s
  | Some r =>
      store_ok s'
      /\ if negb (Phone.validate new_phone) then
           out = Return (lit "New phone number must be a string of 10 digits.")
           /\ book_of s' = book_of s
         else if stores old_phone (Record_.phones r) then
           out = Return (lit "Phone number updated.")
           /\ book_of s'
              = AddressBook.setitem name
                  {| Record_.name := Record_.name r;
                     Record_.phones :=
                       remove_first old_phone (Record_.phones r)
                       ++ [Phone.mk new_phone];
                     Record_.birthday := Record_.birthday r |}
                  (book_of s)
         else
           out = Return (lit "Old phone number not found.")
           /\ book_of s' = book_of s
  end.
Proof.
  intros W. unfold change_contact, input_error, change_contact_body.
  destruct (AddressBook.get name (book_of s)) as [r|] eqn:G.
  2:{ rewrite (get_none_dict _ _ G). auto. }
  destruct (get_some_dict _ _ _ G) as (a & Ga & Eo & I). rewrite Ga.
  set (m := Record_.edit_phone old_phone new_phone).
  pose proof (book_of_call a m s name W I) as B.
  pose proof (store_ok_call a m s name W I) as W3.
  pose proof (call_fst a m s) as F.
  pose proof (book_of_call_same a m s name W I) as Bs.
  rewrite Eo in B, W3, F, Bs.
  assert (En : Record_.name (snd (m r)) = Record_.name r)
    by apply (edit_phone_keeps_length_aux old_phone new_phone r).
  specialize (W3 En).
  destruct (call a m s) as [o s3]. cbn [fst snd] in *. subst o.
  assert (Cases :
    m r = (if negb (Phone.validate new_phone)
           then (Raise (ValueError "New phone number must be a string of 10 digits."), r)
           else if stores old_phone (Record_.phones r)
           then (Ok tt, Record_.set_phones
                          (remove_first old_phone (Record_.phones r)
                           ++ [Phone.mk new_phone]) r)
           else (Raise (ValueError "Old phone number not found."), r))).
  { unfold m. destruct (Phone.validate new_phone) eqn:V; cbn [negb].
    - destruct (stores old_phone (Record_.phones r)) eqn:St.
      + apply stores_spec in St. rename St into Io.
        unfold Record_.edit_phone. rewrite V. cbn [negb].
        destruct (find_phone_present _ _ Io) as (p & ->).
        unfold mbind. rewrite (remove_phone_present _ _ Io).
        rewrite (add_phone_valid _ _ V). now destruct r.
      + assert (No : ~ In old_phone (map Phone.value (Record_.phones r)))
          by (intros Io; apply stores_spec in Io; congruence).
        rewrite (edit_phone_old_missing_aux _ _ _ No). now rewrite V.
    - unfold Record_.edit_phone. now rewrite V. }
  rewrite Cases in *.
  destruct (negb (Phone.validate new_phone)); cbn [fst snd] in *; [auto|].
  destruct (stores old_phone (Record_.phones r));
    cbn [fst snd Record_.set_phones] in *; auto.
Qed.

End Handlers.

Section HandlersMore.
Context {U : UnicodeData}.

Lemma add_birthday_ok birthday r :
  Birthday.validate birthday = Ok true ->
  Record_.add_birthday birthday r
  = (Ok tt, Record_.set_birthday (Some (Birthday.mk birthday)) r).
Proof. intros V. rewrite add_birthday_cases. now rewrite V. Qed.

(** X24.  After the add-birthday handler has set a valid birthday for a
    contact in the book, it answers "Birthday added." and the show-birthday
    handler answers with the contact's name and the very text that was
    given. *)
Theorem add_then_show_birthday (name birthday : str) (s : store) (r : Record_.t) :
  AddressBook.get name (book_of s) = Some r ->
  Birthday.validate birthday = Ok true ->
  let '(out, s') := add_birthday [name; birthday] s in
  out = Return (lit "Birthday added.")
  /\ fst (show_birthday [name] s')
     = Return (name ++ lit "'s birthday: " ++ birthday).
Proof.
  intros G V. destruct (get_some_dict _ _ _ G) as (a & Ga & Eo & I).
  unfold add_birthday, input_error, add_birthday_body. rewrite Ga.
  pose proof (call_fst a (Record_.add_birthday birthday) s) as F.
  pose proof (call_data a (Record_.add_birthday birthday) s) as (D & O).
  rewrite Eo, (add_birthday_ok _ _ V) in F, O.
  destruct (call a (Record_.add_birthday birthday) s) as [o s3].
  cbn [fst snd] in *. subst o. split; [reflexivity|].
  unfold show_birthday, input_error, show_birthday_body.
  rewrite D, Ga, O. reflexivity.
Qed.

(** X25.  After [add_contact] with a valid phone, the show-phone handler
    lists for that name the phones the contact had before (none for a new
    contact), in their order, followed by the new phone. *)
Theorem add_then_show_phone (name phone : str) (rest : list str) (s : store) :
  Phone.validate phone = true ->
  let before :=
    match AddressBook.get name (book_of s) with
    | Some r => Record_.phones r
    | None => []
    end in
  let s' := snd (add_contact (name :: phone :: rest) s) in
  fst (show_phone [name] s')
  = Return (lit "Phones for " ++ name ++ lit ": "
            ++ join (lit ", ") (map Phone.value (before ++ [Phone.mk phone]))).
Proof.
  intros V. cbv zeta. pose proof (validate_nonempty _ V) as Ne.
  unfold add_contact, input_error, add_contact_body.
  rewrite get_book_of.
  destruct phone as [|c phone]; [congruence|].
  destruct (dict_get name (data s)) as [a|] eqn:Ga.
  - pose proof (call_fst a (Record_.add_phone (c :: phone)) s) as F.
    pose proof (call_data a (Record_.add_phone (c :: phone)) s) as (D & O).
    rewrite (add_phone_valid _ _ V) in F, O.
    destruct (call a (Record_.add_phone (c :: phone)) s) as [o s3].
    cbn [fst snd] in *. subst o. cbn [snd].
    unfold show_phone, input_error, show_phone_body.
    rewrite D, Ga, O. reflexivity.
  - change (new_record name s) with (next s, snd (new_record name s)).
    cbv iota beta.
    set (s2 := add_record_at (next s) (snd (new_record name s))).
    assert (G2 : dict_get name (data s2) = Some (next s)).
    { unfold s2, add_record_at, new_record. cbn [snd data objects next].
      rewrite Nat.eqb_refl. cbn [Record_.new Record_.name Name.value].
      apply dict_get_set. }
    assert (O2 : objects s2 (next s) = Record_.new name).
    { unfold s2, add_record_at, new_record. cbn [snd data objects next].
      now rewrite Nat.eqb_refl. }
    pose proof (call_fst (next s) (Record_.add_phone (c :: phone)) s2) as F.
    pose proof (call_data (next s) (Record_.add_phone (c :: phone)) s2) as (D & O).
    rewrite (add_phone_valid _ _ V) in F, O.
    destruct (call (next s) (Record_.add_phone (c :: phone)) s2) as [o s3].
    cbn [fst snd] in *. subst o. cbn [snd].
    unfold show_phone, input_error, show_phone_body.
    rewrite D, G2, O, O2. reflexivity.
Qed.

(** X26.  With too few arguments the handlers that unpack their arguments
    (add, change, add-birthday) answer with the text of the unpacking error,
    and the handlers that index them (phone, show-birthday) answer "Not
    enough arguments."; none of them changes the store. *)
Theorem handlers_missing_arguments (s : store) (one : str) :
  add_contact [] s
  = (Return (lit "not enough values to unpack (expected at least 2, got 0)"), s)
  /\ add_contact [one] s
     = (Return (lit "not enough values to unpack (expected at least 2, got 1)"), s)
  /\ (forall args, (List.length args < 3)%nat ->
        exists text, change_contact args s = (Return text, s)
                     /\ text <> lit "Not enough arguments.")
  /\ (forall args, (List.length args < 2)%nat ->
        exists text, add_birthday args s = (Return text, s)
                     /\ text <> lit "Not enough arguments.")
  /\ show_phone [] s = (Return (lit "Not enough arguments."), s)
  /\ show_birthday [] s = (Return (lit "Not enough arguments."), s).
Proof.
  repeat split.
  - intros [|x [|y [|z args]]] H; cbn in H; try lia;
      eexists; (split; [reflexivity | discriminate]).
  - intros [|x [|y args]] H; cbn in H; try lia;
      eexists; (split; [reflexivity | discriminate]).
Qed.

Lemma record_methods_raise_ValueError (c : record_call) (r : Record_.t) (e : exn) :
  fst (do_call c r) = Raise e -> exists msg, e = ValueError msg.
Proof.
  destruct c as [n | n | o n | d]; cbn [do_call].
  - destruct (Phone.validate n) eqn:V.
    + now rewrite (add_phone_valid _ _ V).
    + rewrite (add_phone_invalid _ _ V). intros [= <-]. eauto.
  - destruct (in_values_dec n (Record_.phones r)) as [I|N].
    + now rewrite (remove_phone_present _ _ I).
    + rewrite (remove_phone_absent _ _ N). intros [= <-]. eauto.
  - destruct (in_values_dec o (Record_.phones r)) as [I|N].
    + unfold Record_.edit_phone.
      destruct (Phone.validate n) eqn:V; cbn [negb fst]; [|intros [= <-]; eauto].
      destruct (find_phone_present _ _ I) as (p & ->).
      unfold mbind. rewrite (remove_phone_present _ _ I).
      now rewrite (add_phone_valid _ _ V).
    + rewrite (edit_phone_old_missing_aux o n r N).
      destruct (Phone.validate n); intros [= <-]; eauto.
  - rewrite add_birthday_cases.
    destruct (Birthday_validate_total d) as [-> | ->]; cbn [fst];
      [discriminate | intros [= <-]; eauto].
Qed.

(** X27.  No handler lets an exception out: whatever the command, the
    arguments, the store and the day, the decorated handler returns a text.
    The four commands that only show something leave the store as it is. *)
Theorem handlers_always_reply (today : datetime.date) (c : command)
    (args : list str) (s : store) :
  (exists text, fst (run today c args s) = Return text)
  /\ (match c with
      | Phone_ | All | ShowBirthday | Birthdays => snd (run today c args s) = s
      | _ => True
      end).
Proof.
  destruct c; cbn [run].
  - split; [|exact I]. unfold add_contact, input_error, add_contact_body.
    destruct args as [|name [|phone rest]]; [cbn; eauto | cbn; eauto |].
    destruct (dict_get name (data s)) as [a|].
    + destruct phone as [|ch phone]; [cbn; eauto|].
      pose proof (call_fst a (Record_.add_phone (ch :: phone)) s) as F.
      pose proof (record_methods_raise_ValueError (CallAddPhone (ch :: phone)) (objects s a)) as R.
      cbn [do_call] in R.
      destruct (call a (Record_.add_phone (ch :: phone)) s) as [o s3].
      cbn [fst] in F. rewrite <- F in R.
      destruct o as [|e]; [cbn; eauto|].
      destruct (R e eq_refl) as [msg ->]. cbn. eauto.
    + change (new_record name s) with (next s, snd (new_record name s)).
      cbv iota beta.
      set (s2 := add_record_at (next s) (snd (new_record name s))).
      destruct phone as [|ch phone]; [cbn; eauto|].
      pose proof (call_fst (next s) (Record_.add_phone (ch :: phone)) s2) as F.
      pose proof (record_methods_raise_ValueError (CallAddPhone (ch :: phone)) (objects s2 (next s))) as R.
      cbn [do_call] in R.
      destruct (call (next s) (Record_.add_phone (ch :: phone)) s2) as [o s3].
      cbn [fst] in F. rewrite <- F in R.
      destruct o as [|e]; [cbn; eauto|].
      destruct (R e eq_refl) as [msg ->]. cbn. eauto.
  - split; [|exact I]. unfold change_contact, input_error, change_contact_body.
    destruct args as [|name [|o [|n [|x rest]]]]; try (cbn; eauto; fail).
    destruct (dict_get name (data s)) as [a|]; [|cbn; eauto].
    pose proof (call_fst a (Record_.edit_phone o n) s) as F.
    pose proof (record_methods_raise_ValueError (CallEditPhone o n) (objects s a)) as R.
    cbn [do_call] in R.
    destruct (call a (Record_.edit_phone o n) s) as [out s3].
    cbn [fst] in F. rewrite <- F in R.
    destruct out as [|e]; [cbn; eauto|].
    destruct (R e eq_refl) as [msg ->]. cbn. eauto.
  - unfold show_phone, input_error, show_phone_body.
    destruct args as [|name rest]; [cbn; eauto|].
    destruct (dict_get name (data s)); cbn; eauto.
  - unfold all_contacts, input_error, all_contacts_body. cbn. eauto.
  - split; [|exact I]. unfold add_birthday, input_error, add_birthday_body.
    destruct args as [|name [|d [|x rest]]]; try (cbn; eauto; fail).
    destruct (dict_get name (data s)) as [a|]; [|cbn; eauto].
    pose proof (call_fst a (Record_.add_birthday d) s) as F.
    pose proof (record_methods_raise_ValueError (CallAddBirthday d) (objects s a)) as R.
    cbn [do_call] in R.
    destruct (call a (Record_.add_birthday d) s) as [out s3].
    cbn [fst] in F. rewrite <- F in R.
    destruct out as [|e]; [cbn; eauto|].
    destruct (R e eq_refl) as [msg ->]. cbn. eauto.
  - unfold show_birthday, input_error, show_birthday_body.
    destruct args as [|name rest]; [cbn; eauto|].
    destruct (dict_get name (data s)); cbn; eauto.
  - unfold birthdays, input_error, birthdays_body.
    destruct (AddressBook.get_upcoming_birthdays today (book_of s)) as [l|e] eqn:E.
    + destruct l; cbn; eauto.
    + unfold AddressBook.get_upcoming_birthdays in E.
      apply upcoming_loop_raise_inv in E. destruct E as (r & _ & E).
      apply upcoming_raises_ValueError in E. destruct E as [msg ->]. cbn. eauto.
Qed.

End HandlersMore.

Section Sessions.
Context {U : UnicodeData}.

Lemma session_ok_call (c : record_call) a key s :
  session_ok s -> In (key, a) (data s) ->
  session_ok (snd (call a (do_call c) s)).
Proof.
  intros (W & F) I. destruct (do_call_preserves c (objects s a)) as (En & Ev).
  split; [now apply (store_ok_call a (do_call c) s key)|].
  unfold call. destruct (do_call c (objects s a)) as [out r]. cbn [snd] in *.
  intros k x Ix. cbn [data objects] in *.
  destruct (Nat.eqb x a) eqn:E; [|now apply (F k x)].
  apply Ev. now apply (F key a).
Qed.

Lemma session_ok_new name s :
  session_ok s -> dict_get name (data s) = None ->
  session_ok (add_record_at (next s) (snd (new_record name s)))
  /\ In (name, next s) (data (add_record_at (next s) (snd (new_record name s)))).
Proof.
  intros (W & F) G.
  destruct (new_record_added name s W G) as (Ed & Eo & _ & W2).
  set (s2 := add_record_at (next s) (snd (new_record name s))) in *.
  assert (I2 : In (name, next s) (data s2))
    by (rewrite Ed; apply in_or_app; right; now left).
  split; [|exact I2]. split; [exact W2|].
  intros k a I. rewrite Ed in I. apply in_app_or in I.
  destruct I as [I | [[= <- <-] | []]].
  - unfold s2, add_record_at, new_record. cbn [snd objects].
    destruct W as (_ & _ & K). destruct (K k a I) as (Lt & _).
    replace (Nat.eqb a (next s)) with false
      by (symmetry; apply Nat.eqb_neq; lia).
    now apply (F k a).
  - rewrite Eo. split; [constructor | exact Logic.I].
Qed.

Lemma run_session_ok today c args s :
  session_ok s -> session_ok (snd (run today c args s)).
Proof.
  intros S. destruct c; cbn [run].
  - unfold add_contact, input_error, add_contact_body.
    destruct args as [|name [|phone rest]]; [exact S | exact S |].
    pose proof (dict_get_spec name (data s)) as Sp.
    destruct (dict_get name (data s)) as [a|] eqn:G.
    + destruct phone as [|ch phone]; [exact S|].
      pose proof (session_ok_call (CallAddPhone (ch :: phone)) a name s S Sp) as C.
      cbn [do_call] in C.
      destruct (call a (Record_.add_phone (ch :: phone)) s) as [[|[]] s3];
        exact C.
    + change (new_record name s) with (next s, snd (new_record name s)).
      cbv iota beta.
      destruct (session_ok_new name s S G) as (S2 & I2).
      set (s2 := add_record_at (next s) (snd (new_record name s))) in *.
      destruct phone as [|ch phone]; [exact S2|].
      pose proof (session_ok_call (CallAddPhone (ch :: phone)) (next s) name s2 S2 I2) as C.
      cbn [do_call] in C.
      destruct (call (next s) (Record_.add_phone (ch :: phone)) s2) as [[|[]] s3];
        exact C.
  - unfold change_contact, input_error, change_contact_body.
    destruct args as [|name [|o [|n [|x rest]]]]; try exact S.
    pose proof (dict_get_spec name (data s)) as Sp.
    destruct (dict_get name (data s)) as [a|]; [|exact S].
    pose proof (session_ok_call (CallEditPhone o n) a name s S Sp) as C.
    cbn [do_call] in C.
    destruct (call a (Record_.edit_phone o n) s) as [[|[]] s3]; exact C.
  - unfold show_phone, input_error, show_phone_body.
    destruct args as [|name rest]; [exact S|].
    destruct (dict_get name (data s)); exact S.
  - exact S.
  - unfold add_birthday, input_error, add_birthday_body.
    destruct args as [|name [|d [|x rest]]]; try exact S.
    pose proof (dict_get_spec name (data s)) as Sp.
    destruct (dict_get name (data s)) as [a|]; [|exact S].
    pose proof (session_ok_call (CallAddBirthday d) a name s S Sp) as C.
    cbn [do_call] in C.
    destruct (call a (Record_.add_birthday d) s) as [[|[]] s3]; exact C.
  - unfold show_birthday, input_error, show_birthday_body.
    destruct args as [|name rest]; [exact S|].
    destruct (dict_get name (data s)); exact S.
  - unfold birthdays, input_error, birthdays_body.
    destruct (AddressBook.get_upcoming_birthdays today (book_of s)) as [[|]|[]];
      exact S.
Qed.

Lemma run_all_session_ok today (commands : list (command * list str)) :
  session_ok (run_all today commands empty_store).
Proof.
  unfold run_all.
  assert (G : forall s, session_ok s ->
            session_ok (fold_left (fun s c => snd (run today (fst c) (snd c) s))
                                  commands s)).
  { induction commands as [|c cs IH]; intros s S; cbn [fold_left]; [exact S|].
    apply IH. now apply run_session_ok. }
  apply G. split; [|intros ? ? []].
  split; [constructor|]. split; [constructor | intros ? ? []].
Qed.

(** X28.  Whatever commands a session runs from an empty book, with
    whatever arguments, the book it ends with has distinct names, every
    name is the name of the record stored under it, every stored phone
    passes the phone validator and every birthday that is set passes the
    birthday validator. *)
Theorem session_book_valid (today : datetime.date)
    (commands : list (command * list str)) :
  let book := book_of (run_all today commands empty_store) in
  well_keyed book
  /\ forall name record, In (name, record) book -> fields_valid record.
Proof.
  cbv zeta.
  pose proof (run_all_session_ok today commands) as S.
  destruct S as ((Nk & Na & K) & F).
  set (s := run_all today commands empty_store) in *.
  split.
  - split; [now rewrite keys_book_of|].
    intros key record I. unfold book_of in I. apply in_map_iff in I.
    destruct I as ([k a] & [= <- <-] & I). now destruct (K k a I).
  - intros name record I. unfold book_of in I. apply in_map_iff in I.
    destruct I as ([k a] & [= <- <-] & I). now apply (F k a).
Qed.

End Sessions.

Section BirthdaysCommand.
Context {U : UnicodeData}.

(** X29.  When a contact's birthday is a 29 February and the current year
    is not a leap year, the birthdays handler shows no list at all, whoever
    else has a birthday coming: it answers with the message of the
    [ValueError] that stopped the query, and the store is unchanged. *)
Theorem birthdays_feb29 (today : datetime.date) (args : list str) (s : store)
    (name : str) (record : Record_.t) (b : Birthday.t) (bday : datetime.date) :
  AddressBook.get name (book_of s) = Some record ->
  Record_.birthday record = Some b ->
  datetime.strptime (Birthday.value b) Birthday.FORMAT = Ok bday ->
  datetime.month bday = 2 -> datetime.day bday = 29 ->
  datetime.is_leap (datetime.year today) = false ->
  exists msg,
    AddressBook.get_upcoming_birthdays today (book_of s) = Raise (ValueError msg)
    /\ birthdays today args s = (Return (lit msg), s).
Proof.
  intros G Hb Hp Hm Hd Leap.
  assert (I : In record (AddressBook.values (book_of s))).
  { unfold AddressBook.get in G.
    destruct (find _ (book_of s)) as [[k r]|] eqn:F; [|discriminate].
    injection G as <-. apply find_some in F. destruct F as (I & _).
    unfold AddressBook.values. apply in_map_iff. now exists (k, r). }
  assert (R : raises (AddressBook.upcoming today record)).
  { unfold AddressBook.upcoming. rewrite Hb, Hp. cbn [bind].
    unfold datetime.replace_year, datetime.new. rewrite Hm, Hd.
    unfold datetime.days_in_month. rewrite Leap.
    destruct (negb _); [now eexists|]. vm_compute. now eexists. }
  destruct (upcoming_loop_raises today _ [] record I R) as (e & E).
  fold (AddressBook.get_upcoming_birthdays today (book_of s)) in E.
  pose proof E as E'. unfold AddressBook.get_upcoming_birthdays in E'.
  apply upcoming_loop_raise_inv in E'. destruct E' as (r & _ & E').
  apply upcoming_raises_ValueError in E'. destruct E' as [msg ->].
  exists msg. split; [exact E|].
  unfold birthdays, input_error, birthdays_body. now rewrite E.
Qed.

End BirthdaysCommand.

(** ** Persistence *)


(** ** Examples of the properties above *)

Lemma remove_phone_first_witness :
  Record_.remove_phone (lit "0501234567") bob
  = (Ok tt, Record_.set_phones (remove_first (lit "0501234567") (Record_.phones bob)) bob).
Proof.
  pose proof (remove_phone_first (lit "0501234567") bob) as H.
  destruct (Record_.remove_phone (lit "0501234567") bob) as [outcome self'].
  destruct H as (H & _).
  destruct H as (-> & E & _ & _ & _ & En & Eb).
  - cbn. auto.
  - f_equal. destruct self'. cbn in *. now subst.
Defined.

Lemma add_then_remove_phone_witness :
  (Record_.add_phone (lit "0501234567") ;;; Record_.remove_phone (lit "0501234567"))
    alice = (Ok tt, alice).
Proof.
  apply (add_then_remove_phone (lit "0501234567") alice).
  - reflexivity.
  - cbn. intros [H | []]. discriminate H.
Defined.

Lemma edit_phone_old_missing_witness :
  Record_.edit_phone (lit "0501234567") (lit "0999999999") alice
  = (Raise (ValueError "Old phone number not found."), alice).
Proof.
  assert (V : Phone.validate (lit "0999999999") = true) by reflexivity.
  rewrite (edit_phone_old_missing (lit "0501234567") (lit "0999999999") alice).
  - rewrite V. reflexivity.
  - cbn. intros [H | []]. discriminate H.
Defined.

Lemma add_record_get_witness :
  AddressBook.get (lit "Alice")
    (AddressBook.add_record bob2 (AddressBook.add_record alice []))
  = AddressBook.get (lit "Alice") (AddressBook.add_record alice []).
Proof.
  pose proof (add_record_get bob2 (AddressBook.add_record alice [])) as H.
  cbv zeta in H. destruct H as (_ & H & _).
  apply H. intros E. vm_compute in E. discriminate E.
Defined.

Lemma upcoming_birthdays_none_witness :
  AddressBook.get_upcoming_birthdays sample_day (AddressBook.add_record bob2 [])
  = Ok [].
Proof.
  apply (upcoming_birthdays_none sample_day (AddressBook.add_record bob2 [])).
  intros record [<- | []]. reflexivity.
Defined.

Lemma upcoming_birthdays_order_witness :
  subseq [lit "Alice"] [lit "Alice"; lit "Bob"; lit "Carol"].
Proof.
  assert (H : AddressBook.get_upcoming_birthdays (datetime.mkdate 2022 12 27)
                sample_book
              = Ok [{| entry_name := lit "Alice";
                       congratulate_on := lit "02.01.2023" |}])
    by reflexivity.
  exact (upcoming_birthdays_order _ _ _ H).
Defined.

Lemma greeting_within_8_days_witness :
  exists g,
    datetime.strptime (lit "09.01.2023") Birthday.FORMAT = Ok g
    /\ 0 <= datetime.toordinal g
            - datetime.toordinal (datetime.mkdate 2023 1 1) <= 8.
Proof.
  assert (H : AddressBook.get_upcoming_birthdays (datetime.mkdate 2023 1 1)
                (AddressBook.add_record
                   {| Record_.name := Name.mk (lit "Dan");
                      Record_.phones := [];
                      Record_.birthday := Some (Birthday.mk (lit "07.01.1970")) |}
                   [])
              = Ok [{| entry_name := lit "Dan";
                       congratulate_on := lit "09.01.2023" |}])
    by reflexivity.
  apply (greeting_within_8_days _ _ _ H
           {| entry_name := lit "Dan"; congratulate_on := lit "09.01.2023" |}).
  now left.
Defined.

Lemma upcoming_birthdays_only_ValueError_witness :
  exists msg, ValueError "day is out of range for month" = ValueError msg.
Proof.
  apply (upcoming_birthdays_only_ValueError sample_day
           (AddressBook.add_record bob [])).
  reflexivity.
Defined.

Lemma upcoming_birthdays_feb29_passed_witness :
  raises (AddressBook.get_upcoming_birthdays (datetime.mkdate 2024 3 1)
            (AddressBook.add_record bob [])).
Proof.
  apply (upcoming_birthdays_feb29_passed (datetime.mkdate 2024 3 1)
           (AddressBook.add_record bob []) bob (Birthday.mk (lit "29.02.2000"))
           (datetime.mkdate 2000 2 29)).
  - cbn. auto.
  - reflexivity.
  - reflexivity.
  - reflexivity.
  - reflexivity.
  - reflexivity.
  - reflexivity.
Defined.

Lemma upcoming_birthdays_ignore_year_witness :
  AddressBook.get_upcoming_birthdays (datetime.mkdate 2022 12 27)
    (AddressBook.add_record alice [])
  = AddressBook.get_upcoming_birthdays (datetime.mkdate 2022 12 27)
      (AddressBook.add_record alice_1985 []).
Proof.
  apply (upcoming_birthdays_ignore_year (datetime.mkdate 2022 12 27)
           (AddressBook.add_record alice [])
           (AddressBook.add_record alice_1985 [])).
  repeat constructor.
  exists (datetime.mkdate 1990 1 1), (datetime.mkdate 1985 1 1).
  repeat split.
Defined.

Lemma upcoming_birthdays_today_witness :
  exists g,
    rollover (datetime.mkdate 2024 1 1) = Ok g
    /\ In {| entry_name := lit "Alice";
             congratulate_on := datetime.strftime_dmY g |}
          [{| entry_name := lit "Alice"; congratulate_on := lit "01.01.2024" |}].
Proof.
  apply (upcoming_birthdays_today (datetime.mkdate 2024 1 1)
           (AddressBook.add_record alice []) alice
           (Birthday.mk (lit "01.01.1990")) (datetime.mkdate 1990 1 1)).
  - reflexivity.
  - cbn. auto.
  - reflexivity.
  - reflexivity.
  - reflexivity.
  - reflexivity.
  - reflexivity.
Defined.

Lemma add_contact_new_witness :
  let '(out, s') := add_contact [lit "Alice"; lit "0671112233"] empty_store in
  out = Return (lit "Contact added.")
  /\ book_of s'
     = book_of empty_store
       ++ [(lit "Alice", {| Record_.name := Name.mk (lit "Alice");
                            Record_.phones := [Phone.mk (lit "0671112233")];
                            Record_.birthday := None |})]
  /\ store_ok s'.
Proof.
  apply (add_contact_new (lit "Alice") (lit "0671112233") [] empty_store).
  - exact (proj1 (run_all_session_ok sample_day [])).
  - reflexivity.
  - reflexivity.
Defined.

Lemma add_contact_new_invalid_witness :
  let '(out, s') := add_contact [lit "Alice"; lit "123"] empty_store in
  out = Return (lit "Phone number must be a string of 10 digits.")
  /\ book_of s' = book_of empty_store ++ [(lit "Alice", Record_.new (lit "Alice"))]
  /\ store_ok s'.
Proof.
  apply (add_contact_new_invalid (lit "Alice") (lit "123") [] empty_store).
  - exact (proj1 (run_all_session_ok sample_day [])).
  - reflexivity.
  - discriminate.
  - reflexivity.
Defined.

Lemma add_contact_existing_witness :
  let r := {| Record_.name := Name.mk (lit "Alice");
              Record_.phones := [Phone.mk (lit "0671112233")];
              Record_.birthday := Some (Birthday.mk (lit "01.01.1990")) |} in
  let '(out, s') := add_contact [lit "Alice"; lit "0999999999"] sample_store in
  if Phone.validate (lit "0999999999") then
    out = Return (lit "Contact updated.")
    /\ book_of s'
       = AddressBook.setitem (lit "Alice")
           {| Record_.name := Record_.name r;
              Record_.phones := Record_.phones r ++ [Phone.mk (lit "0999999999")];
              Record_.birthday := Record_.birthday r |}
           (book_of sample_store)
    /\ store_ok s'
  else
    out = Return (lit "Phone number must be a string of 10 digits.")
    /\ book_of s' = book_of sample_store
    /\ store_ok s'.
Proof.
  intros r.
  apply (add_contact_existing (lit "Alice") (lit "0999999999") [] sample_store r).
  - exact (proj1 (run_all_session_ok sample_day sample_commands)).
  - reflexivity.
  - discriminate.
Defined.

Lemma change_contact_outcomes_witness :
  let name := lit "Alice" in
  let old_phone := lit "0671112233" in
  let new_phone := lit "0999999999" in
  let s := sample_store in
  let '(out, s') := change_contact [name; old_phone; new_phone] s in
  match AddressBook.get name (book_of s) with
  | None => out = Return (lit "Contact not found.") /\ s' = s
  | Some r =>
      store_ok s'
      /\ if negb (Phone.validate new_phone) then
           out = Return (lit "New phone number must be a string of 10 digits.")
           /\ book_of s' = book_of s
         else if stores old_phone (Record_.phones r) then
           out = Return (lit "Phone number updated.")
           /\ book_of s'
              = AddressBook.setitem name
                  {| Record_.name := Record_.name r;
                     Record_.phones :=
                       remove_first old_phone (Record_.phones r)
                       ++ [Phone.mk new_phone];
                     Record_.birthday := Record_.birthday r |}
                  (book_of s)
         else
           out = Return (lit "Old phone number not found.")
           /\ book_of s' = book_of s
  end.
Proof.
  intros name old_phone new_phone s.
  apply (change_contact_outcomes name old_phone new_phone s).
  exact (proj1 (run_all_session_ok sample_day sample_commands)).
Defined.

Lemma add_then_show_birthday_witness :
  let '(out, s') := add_birthday [lit "Alice"; lit "02.02.1992"] sample_store in
  out = Return (lit "Birthday added.")
  /\ fst (show_birthday [lit "Alice"] s')
     = Return (lit "Alice" ++ lit "'s birthday: " ++ lit "02.02.1992").
Proof.
  apply (add_then_show_birthday (lit "Alice") (lit "02.02.1992") sample_store
           {| Record_.name := Name.mk (lit "Alice");
              Record_.phones := [Phone.mk (lit "0671112233")];
              Record_.birthday := Some (Birthday.mk (lit "01.01.1990")) |}).
  - reflexivity.
  - reflexivity.
Defined.

Lemma add_then_show_phone_witness :
  fst (show_phone [lit "Alice"]
         (snd (add_contact [lit "Alice"; lit "0999999999"] sample_store)))
  = Return (lit "Phones for Alice: 0671112233, 0999999999").
Proof.
  apply (add_then_show_phone (lit "Alice") (lit "0999999999") [] sample_store).
  reflexivity.
Defined.

Lemma handlers_missing_arguments_witness :
  exists text,
    change_contact [lit "Alice"; lit "0671112233"] sample_store
    = (Return text, sample_store)
    /\ text <> lit "Not enough arguments.".
Proof.
  destruct (handlers_missing_arguments sample_store (lit "Alice"))
    as (_ & _ & H & _).
  apply H. cbn. lia.
Defined.

Lemma session_book_valid_witness :
  fields_valid {| Record_.name := Name.mk (lit "Bob");
                  Record_.phones := [Phone.mk (lit "0501234567")];
                  Record_.birthday := Some (Birthday.mk (lit "29.02.2000")) |}.
Proof.
  destruct (session_book_valid sample_day sample_commands) as (_ & H).
  apply (H (lit "Bob")). right. left. reflexivity.
Defined.

Lemma birthdays_feb29_witness :
  exists msg,
    AddressBook.get_upcoming_birthdays sample_day (book_of sample_store)
    = Raise (ValueError msg)
    /\ birthdays sample_day [] sample_store = (Return (lit msg), sample_store).
Proof.
  apply (birthdays_feb29 sample_day [] sample_store (lit "Bob")
           {| Record_.name := Name.mk (lit "Bob");
              Record_.phones := [Phone.mk (lit "0501234567")];
              Record_.birthday := Some (Birthday.mk (lit "29.02.2000")) |}
           (Birthday.mk (lit "29.02.2000")) (datetime.mkdate 2000 2 29)).
  - reflexivity.
  - reflexivity.
  - reflexivity.
  - reflexivity.
  - reflexivity.
  - reflexivity.
Defined.

